(** * Trading analytics, reconciliation and protection rules

    A shallow embedding of
    - [scripts/analyze-trades-by-symbol.ts] (per-symbol trade statistics),
    - the position consistency check script (exchange vs database),
    - [src/strategies/alphaBeta.ts] (the Alpha Beta strategy parameters),
    together with the protection engine and the action executor, which
    the design document describes and which are modelled from it. *)

From Stdlib Require Import QArith Qabs Qround ZArith List String Ascii Bool Arith Lia Lqa.
From Stdlib Require Import Permutation Sorted.
Import ListNotations.

Set Implicit Arguments.

(* ================================================================== *)
(** * JavaScript numbers *)
(* ================================================================== *)

(** A JS [number] is an IEEE-754 double.  The model keeps the special
    values the scripts can meet ([NaN], the two infinities) and treats
    the finite ones as exact rationals: rounding, overflow and the sign
    of zero are idealised away. *)
Module JsNumber.

Inductive number : Type :=
| NaN
| PInf
| NInf
| Fin (q : Q).

Definition Qltb (a b : Q) : bool := negb (Qle_bool b a).

Definition zero : number := Fin 0.

(** [x + y] *)
Definition add (x y : number) : number :=
  match x, y with
  | NaN, _ | _, NaN => NaN
  | PInf, NInf | NInf, PInf => NaN
  | PInf, _ | _, PInf => PInf
  | NInf, _ | _, NInf => NInf
  | Fin a, Fin b => Fin (a + b)
  end.

(** [-x] *)
Definition neg (x : number) : number :=
  match x with
  | NaN => NaN
  | PInf => NInf
  | NInf => PInf
  | Fin a => Fin (- a)
  end.

(** [x - y] *)
Definition sub (x y : number) : number := add x (neg y).

(** [Math.abs(x)] *)
Definition abs (x : number) : number :=
  match x with
  | NaN => NaN
  | PInf | NInf => PInf
  | Fin a => Fin (Qabs a)
  end.

(** [x < y]; every comparison with [NaN] is false. *)
Definition lt (x y : number) : bool :=
  match x, y with
  | NaN, _ | _, NaN => false
  | _, NInf => false
  | NInf, _ => true
  | PInf, _ => false
  | Fin _, PInf => true
  | Fin a, Fin b => Qltb a b
  end.

(** [x > y] *)
Definition gt (x y : number) : bool := lt y x.

(** [x >= y] *)
Definition ge (x y : number) : bool :=
  match x, y with
  | NaN, _ | _, NaN => false
  | _, _ => negb (lt x y)
  end.

(** [x === y] on numbers. *)
Definition strictEq (x y : number) : bool :=
  match x, y with
  | PInf, PInf | NInf, NInf => true
  | Fin a, Fin b => Qeq_bool a b
  | _, _ => false
  end.

(** Truthiness: every number but [0] and [NaN]. *)
Definition truthy (x : number) : bool :=
  match x with
  | NaN => false
  | Fin a => negb (Qeq_bool a 0)
  | _ => true
  end.

(** [Number.isFinite(x)] *)
Definition isFinite (x : number) : bool :=
  match x with Fin _ => true | _ => false end.

(** [x * y] *)
Definition mul (x y : number) : number :=
  match x, y with
  | NaN, _ | _, NaN => NaN
  | Fin a, Fin b => Fin (a * b)
  | Fin a, i | i, Fin a =>
      if Qeq_bool a 0 then NaN
      else if Qltb 0 a then i else neg i
  | PInf, PInf | NInf, NInf => PInf
  | _, _ => NInf
  end.

(** [x / y].  A finite non-zero number divided by zero is an infinity
    (the zero is taken as [+0]); [0 / 0] and [inf / inf] are [NaN]. *)
Definition div (x y : number) : number :=
  match x, y with
  | NaN, _ | _, NaN => NaN
  | Fin a, Fin b =>
      if Qeq_bool b 0 then
        if Qeq_bool a 0 then NaN else if Qltb 0 a then PInf else NInf
      else Fin (a / b)
  | Fin _, _ => Fin 0
  | i, Fin b => if Qltb b 0 then neg i else i
  | _, _ => NaN
  end.

(** [Math.trunc(x)] *)
Definition trunc (x : number) : number :=
  match x with
  | Fin a => Fin (inject_Z (Z.quot (Qnum a) (Zpos (Qden a))))
  | _ => x
  end.

(** A counter ([x++] from [0]) read as a number. *)
Definition ofNat (n : nat) : number := Fin (inject_Z (Z.of_nat n)).

(** Numeric equality up to the representation of the rational. *)
Definition eqv (x y : number) : Prop :=
  match x, y with
  | NaN, NaN | PInf, PInf | NInf, NInf => True
  | Fin a, Fin b => a == b
  | _, _ => False
  end.

(** ** [Number.parseFloat] *)

Definition isWhite (c : ascii) : bool :=
  let n := nat_of_ascii c in
  (Nat.eqb n 32 || (Nat.leb 9 n && Nat.leb n 13))%bool.

Fixpoint skipWhite (s : string) : string :=
  match s with
  | String c r => if isWhite c then skipWhite r else s
  | EmptyString => s
  end.

Definition digitOf (c : ascii) : option Z :=
  let n := nat_of_ascii c in
  if (Nat.leb 48 n && Nat.leb n 57)%bool then Some (Z.of_nat (n - 48)) else None.

(** The longest prefix of decimal digits, and what follows it. *)
Fixpoint takeDigits (s : string) : list Z * string :=
  match s with
  | String c r =>
      match digitOf c with
      | Some d => let '(ds, rest) := takeDigits r in (d :: ds, rest)
      | None => ([], s)
      end
  | EmptyString => ([], s)
  end.

Definition digitsVal (ds : list Z) : Z :=
  fold_left (fun acc d => 10 * acc + d)%Z ds 0%Z.

Definition takeSign (s : string) : bool * string :=
  match s with
  | String "+" r => (false, r)
  | String "-" r => (true, r)
  | _ => (false, s)
  end.

(** The exponent part [e±ddd]; ignored unless a digit follows. *)
Definition parseExponent (s : string) : Z :=
  match s with
  | String c r =>
      if (Ascii.eqb c "e" || Ascii.eqb c "E")%bool then
        let '(negative, r') := takeSign r in
        match fst (takeDigits r') with
        | [] => 0%Z
        | ds => if negative then (- digitsVal ds)%Z else digitsVal ds
        end
      else 0%Z
  | EmptyString => 0%Z
  end.

(** [Number.parseFloat(s)]: leading white space is skipped (the ASCII
    white space; a string is a sequence of bytes here), then the longest
    prefix that is a decimal literal is read; [NaN] when there is
    none. *)
Definition parseFloat (s : string) : number :=
  let '(negative, s1) := takeSign (skipWhite s) in
  if String.prefix "Infinity" s1 then (if negative then NInf else PInf)
  else
    let '(ip, s2) := takeDigits s1 in
    let '(fp, s3) :=
      match s2 with
      | String "." r => takeDigits r
      | _ => ([], s2)
      end in
    match ip, fp with
    | [], [] => NaN
    | _, _ =>
        let mant := (inject_Z (digitsVal ip)
                     + inject_Z (digitsVal fp) / Qpower 10 (Z.of_nat (List.length fp)))%Q in
        let signed := if negative then (- mant)%Q else mant in
        Fin (signed * Qpower 10 (parseExponent s3))
    end.

(** ** Values of a database row or of an untyped API object *)

Inductive Value : Type :=
| VNull
| VUndefined
| VText (s : string)
| VNum (n : number)
| VBigInt (z : Z)
| VBlob.

(** Truthiness of a value, as [||] tests it. *)
Definition truthyV (v : Value) : bool :=
  match v with
  | VNull | VUndefined => false
  | VText s => negb (String.eqb s "")
  | VNum n => truthy n
  | VBigInt z => negb (Z.eqb z 0)
  | VBlob => true
  end.

(** [Number.parseFloat(v)] on a value: the argument is first turned into
    a string.  A number prints to a literal that reads back as itself; a
    big integer prints its digits; [null], [undefined] and a blob print
    to text that is not a numeric literal. *)
Definition parseFloatV (v : Value) : number :=
  match v with
  | VText s => parseFloat s
  | VNum n => n
  | VBigInt z => Fin (inject_Z z)
  | VNull | VUndefined | VBlob => NaN
  end.

End JsNumber.
Import JsNumber.

Close Scope Q_scope.

(* ================================================================== *)
(** * JavaScript [Map] with string keys *)
(* ================================================================== *)

(** A [Map] iterates in insertion order and [set] on a present key keeps
    the key's place: an association list updated in place. *)
Module JsMap.
Section WithValue.
Variable V : Type.

Definition t := list (string * V).

Definition empty : t := [].

Fixpoint get (m : t) (k : string) : option V :=
  match m with
  | [] => None
  | (k', v) :: r => if String.eqb k' k then Some v else get r k
  end.

Definition has (m : t) (k : string) : bool :=
  match get m k with Some _ => true | None => false end.

Fixpoint set (m : t) (k : string) (v : V) : t :=
  match m with
  | [] => [(k, v)]
  | (k', v') :: r =>
      if String.eqb k' k then (k', v) :: r else (k', v') :: set r k v
  end.

(** [delete] *)
Definition remove (m : t) (k : string) : t :=
  filter (fun e => negb (String.eqb (fst e) k)) m.

(** [new Map(entries)] *)
Definition ofEntries (es : list (string * V)) : t :=
  fold_left (fun m e => set m (fst e) (snd e)) es empty.

Definition values (m : t) : list V := map snd m.
Definition keys (m : t) : list string := map fst m.

End WithValue.
End JsMap.

(* ================================================================== *)
(** * [Array.prototype.sort] with a comparison function *)
(* ================================================================== *)

(** The sort is stable; [compareFn a b > 0] puts [a] after [b], and a
    [NaN] result counts as [0].  With a comparison function that is not
    a consistent order (a [NaN] key) the order is implementation
    defined; the model is the stable insertion sort. *)
Module JsArray.
Section Sort.
Variable A : Type.
Variable compareFn : A -> A -> number.

Fixpoint insert (x : A) (l : list A) : list A :=
  match l with
  | [] => [x]
  | y :: r => if gt (compareFn x y) zero then y :: insert x r else x :: l
  end.

Definition sort (l : list A) : list A := fold_right insert [] l.

End Sort.
End JsArray.

(* ================================================================== *)
(** * [scripts/analyze-trades-by-symbol.ts] *)
(* ================================================================== *)

Module AnalyzeTrades.

(** A row of
    [SELECT * FROM trades WHERE type = 'close' ORDER BY timestamp ASC]:
    the columns the script reads. *)
Module Row.
Record t : Type := mk {
  symbol : string;
  side : string;
  pnl : Value;
  fee : Value;
}.
End Row.

Record TradeStats : Type := mkStats {
  symbol : string;
  totalTrades : nat;
  winTrades : nat;
  lossTrades : nat;
  breakEvenTrades : nat;
  winRate : number;
  totalPnl : number;
  totalFees : number;
  netPnl : number;
  avgWin : number;
  avgLoss : number;
  profitFactor : number;
  largestWin : number;
  largestLoss : number;
  longTrades : nat;
  shortTrades : nat;
  longWinRate : number;
  shortWinRate : number;
}.

(** [Number.parseFloat(v as string || "0")] *)
Definition parseOrZero (v : Value) : number :=
  parseFloatV (if truthyV v then v else VText "0").

Definition pnlOf (trade : Row.t) : number := parseOrZero (Row.pnl trade).
Definition feeOf (trade : Row.t) : number := parseOrZero (Row.fee trade).

Definition winThreshold : number := Fin (1 # 100).
Definition lossThreshold : number := Fin (- (1 # 100)).

Inductive Outcome : Type := Win | Loss | BreakEven.

(** The [if (pnl > 0.01) ... else if (pnl < -0.01) ... else ...] chain. *)
Definition classify (pnl : number) : Outcome :=
  if gt pnl winThreshold then Win
  else if lt pnl lossThreshold then Loss
  else BreakEven.

Definition initStats (symbol : string) : TradeStats :=
  {| symbol := symbol;
     totalTrades := 0; winTrades := 0; lossTrades := 0; breakEvenTrades := 0;
     winRate := zero; totalPnl := zero; totalFees := zero; netPnl := zero;
     avgWin := zero; avgLoss := zero; profitFactor := zero;
     largestWin := zero; largestLoss := zero;
     longTrades := 0; shortTrades := 0;
     longWinRate := zero; shortWinRate := zero |}.

(** The updates of one iteration of the first loop on the symbol's
    entry.  Until the second loop, [avgWin] and [avgLoss] hold running
    sums. *)
Definition update (side : string) (pnl fee : number) (stats : TradeStats)
  : TradeStats :=
  let o := classify pnl in
  {| symbol := stats.(symbol);
     totalTrades := S stats.(totalTrades);
     totalPnl := add stats.(totalPnl) pnl;
     totalFees := add stats.(totalFees) fee;
     netPnl := add stats.(netPnl) pnl;
     longTrades :=
       if String.eqb side "long" then S stats.(longTrades) else stats.(longTrades);
     shortTrades :=
       if String.eqb side "long" then stats.(shortTrades)
       else if String.eqb side "short" then S stats.(shortTrades)
       else stats.(shortTrades);
     winTrades :=
       match o with Win => S stats.(winTrades) | _ => stats.(winTrades) end;
     avgWin :=
       match o with Win => add stats.(avgWin) pnl | _ => stats.(avgWin) end;
     largestWin :=
       match o with
       | Win => if gt pnl stats.(largestWin) then pnl else stats.(largestWin)
       | _ => stats.(largestWin)
       end;
     lossTrades :=
       match o with Loss => S stats.(lossTrades) | _ => stats.(lossTrades) end;
     avgLoss :=
       match o with Loss => add stats.(avgLoss) (abs pnl) | _ => stats.(avgLoss) end;
     largestLoss :=
       match o with
       | Loss => if gt (abs pnl) (abs stats.(largestLoss)) then pnl
                 else stats.(largestLoss)
       | _ => stats.(largestLoss)
       end;
     breakEvenTrades :=
       match o with
       | BreakEven => S stats.(breakEvenTrades)
       | _ => stats.(breakEvenTrades)
       end;
     winRate := stats.(winRate);
     profitFactor := stats.(profitFactor);
     longWinRate := stats.(longWinRate);
     shortWinRate := stats.(shortWinRate) |}.

(** The body of [for (const trade of result.rows)]. *)
Definition step (symbolStats : JsMap.t TradeStats) (trade : Row.t)
  : JsMap.t TradeStats :=
  let symbol := Row.symbol trade in
  let symbolStats :=
    if JsMap.has symbolStats symbol then symbolStats
    else JsMap.set symbolStats symbol (initStats symbol) in
  match JsMap.get symbolStats symbol with
  | Some stats =>
      JsMap.set symbolStats symbol
        (update (Row.side trade) (pnlOf trade) (feeOf trade) stats)
  | None => symbolStats
  end.

Definition firstLoop (rows : list Row.t) : JsMap.t TradeStats :=
  fold_left step rows (JsMap.empty TradeStats).

(** The body of the inner [for (const trade of result.rows)], on the
    pair [(longWins, shortWins)]. *)
Definition winsBody (symbol : string) (acc : nat * nat) (trade : Row.t)
  : nat * nat :=
  let '(longWins, shortWins) := acc in
  if String.eqb (Row.symbol trade) symbol then
    if gt (pnlOf trade) winThreshold then
      (if String.eqb (Row.side trade) "long" then S longWins else longWins,
       if String.eqb (Row.side trade) "short" then S shortWins else shortWins)
    else acc
  else acc.

(** The inner re-scan of all rows for one symbol. *)
Definition directionalWins (rows : list Row.t) (symbol : string) : nat * nat :=
  fold_left (winsBody symbol) rows (0, 0).

(** [count > 0 ? (part / count) * 100 : 0] *)
Definition percentOf (part count : nat) : number :=
  if Nat.ltb 0 count then mul (div (ofNat part) (ofNat count)) (Fin 100)
  else zero.

(** [count > 0 ? sum / count : 0] *)
Definition averageOf (sum : number) (count : nat) : number :=
  if Nat.ltb 0 count then div sum (ofNat count) else zero.

(** [avgLoss > 0 ? avgWin / avgLoss : 0] *)
Definition ratioOf (avgWin avgLoss : number) : number :=
  if gt avgLoss zero then div avgWin avgLoss else zero.

(** The derived metrics of one entry, given its directional win counts. *)
Definition derive (wins : nat * nat) (stats : TradeStats) : TradeStats :=
  let avgWin' := averageOf stats.(avgWin) stats.(winTrades) in
  let avgLoss' := averageOf stats.(avgLoss) stats.(lossTrades) in
  {| symbol := stats.(symbol);
     totalTrades := stats.(totalTrades);
     winTrades := stats.(winTrades);
     lossTrades := stats.(lossTrades);
     breakEvenTrades := stats.(breakEvenTrades);
     winRate := percentOf stats.(winTrades) stats.(totalTrades);
     totalPnl := stats.(totalPnl);
     totalFees := stats.(totalFees);
     netPnl := stats.(netPnl);
     avgWin := avgWin';
     avgLoss := avgLoss';
     profitFactor := ratioOf avgWin' avgLoss';
     largestWin := stats.(largestWin);
     largestLoss := stats.(largestLoss);
     longTrades := stats.(longTrades);
     shortTrades := stats.(shortTrades);
     longWinRate := percentOf (fst wins) stats.(longTrades);
     shortWinRate := percentOf (snd wins) stats.(shortTrades) |}.

(** The body of [for (const stats of symbolStats.values())]. *)
Definition finish (rows : list Row.t) (stats : TradeStats) : TradeStats :=
  derive (directionalWins rows stats.(symbol)) stats.

Definition secondLoop (rows : list Row.t) (symbolStats : JsMap.t TradeStats)
  : list TradeStats :=
  map (finish rows) (JsMap.values symbolStats).

(** [(a, b) => b.netPnl - a.netPnl] *)
Definition byNetPnl (a b : TradeStats) : number := sub b.(netPnl) a.(netPnl).

Record Totals : Type := mkTotals {
  t_totalTrades : nat;
  t_winTrades : nat;
  t_lossTrades : nat;
  t_totalPnl : number;
  t_totalFees : number;
  t_netPnl : number;
  t_avgWin : number;
  t_avgLoss : number;
  t_largestWin : number;
  t_largestLoss : number;
  t_longTrades : nat;
  t_shortTrades : nat;
}.

Definition initTotals : Totals :=
  {| t_totalTrades := 0; t_winTrades := 0; t_lossTrades := 0;
     t_totalPnl := zero; t_totalFees := zero; t_netPnl := zero;
     t_avgWin := zero; t_avgLoss := zero;
     t_largestWin := zero; t_largestLoss := zero;
     t_longTrades := 0; t_shortTrades := 0 |}.

(** The body of [for (const stats of sortedStats)]. *)
Definition accumulate (totalStats : Totals) (stats : TradeStats) : Totals :=
  {| t_totalTrades := totalStats.(t_totalTrades) + stats.(totalTrades);
     t_winTrades := totalStats.(t_winTrades) + stats.(winTrades);
     t_lossTrades := totalStats.(t_lossTrades) + stats.(lossTrades);
     t_totalPnl := add totalStats.(t_totalPnl) stats.(totalPnl);
     t_totalFees := add totalStats.(t_totalFees) stats.(totalFees);
     t_netPnl := add totalStats.(t_netPnl) stats.(netPnl);
     t_avgWin := totalStats.(t_avgWin);
     t_avgLoss := totalStats.(t_avgLoss);
     t_largestWin :=
       if gt stats.(largestWin) totalStats.(t_largestWin) then stats.(largestWin)
       else totalStats.(t_largestWin);
     t_largestLoss :=
       if gt (abs stats.(largestLoss)) (abs totalStats.(t_largestLoss))
       then stats.(largestLoss) else totalStats.(t_largestLoss);
     t_longTrades := totalStats.(t_longTrades) + stats.(longTrades);
     t_shortTrades := totalStats.(t_shortTrades) + stats.(shortTrades) |}.

(** The body of the third scan of the rows, on the pair
    [(totalWinPnl, totalLossPnl)]. *)
Definition sumsBody (acc : number * number) (trade : Row.t) : number * number :=
  let '(totalWinPnl, totalLossPnl) := acc in
  let pnl := pnlOf trade in
  if gt pnl winThreshold then (add totalWinPnl pnl, totalLossPnl)
  else if lt pnl lossThreshold then (totalWinPnl, add totalLossPnl (abs pnl))
  else acc.

Definition winLossSums (rows : list Row.t) : number * number :=
  fold_left sumsBody rows (zero, zero).

Definition withAverages (totalStats : Totals) (sums : number * number) : Totals :=
  {| t_totalTrades := totalStats.(t_totalTrades);
     t_winTrades := totalStats.(t_winTrades);
     t_lossTrades := totalStats.(t_lossTrades);
     t_totalPnl := totalStats.(t_totalPnl);
     t_totalFees := totalStats.(t_totalFees);
     t_netPnl := totalStats.(t_netPnl);
     t_avgWin := averageOf (fst sums) totalStats.(t_winTrades);
     t_avgLoss := averageOf (snd sums) totalStats.(t_lossTrades);
     t_largestWin := totalStats.(t_largestWin);
     t_largestLoss := totalStats.(t_largestLoss);
     t_longTrades := totalStats.(t_longTrades);
     t_shortTrades := totalStats.(t_shortTrades) |}.

(** [total > 0 ? (sortedStats.reduce((sum, s) => sum + (rate(s) * count(s) / 100), 0) / total) * 100 : 0] *)
Definition weightedRate (rate : TradeStats -> number) (count : TradeStats -> nat)
    (sortedStats : list TradeStats) (total : nat) : number :=
  if Nat.ltb 0 total then
    mul (div (fold_left
                (fun sum s => add sum (div (mul (rate s) (ofNat (count s))) (Fin 100)))
                sortedStats zero)
             (ofNat total))
        (Fin 100)
  else zero.

(** What the script prints, before formatting. *)
Record Report : Type := mkReport {
  sortedStats : list TradeStats;
  totalStats : Totals;
  overallWinRate : number;
  overallProfitFactor : number;
  overallLongWinRate : number;
  overallShortWinRate : number;
}.

(** Everything after the scans of the rows. *)
Definition summarize (finished : list TradeStats) (sums : number * number)
  : Report :=
  let sortedStats := JsArray.sort byNetPnl finished in
  let totalStats :=
    withAverages (fold_left accumulate sortedStats initTotals) sums in
  {| sortedStats := sortedStats;
     totalStats := totalStats;
     overallWinRate := percentOf totalStats.(t_winTrades) totalStats.(t_totalTrades);
     overallProfitFactor := ratioOf totalStats.(t_avgWin) totalStats.(t_avgLoss);
     overallLongWinRate :=
       weightedRate longWinRate longTrades sortedStats totalStats.(t_longTrades);
     overallShortWinRate :=
       weightedRate shortWinRate shortTrades sortedStats totalStats.(t_shortTrades) |}.

(** [analyzeTrades], as a function of the rows the query returns; [None]
    is the early return on an empty result. *)
Definition analyzeTrades (rows : list Row.t) : option Report :=
  match rows with
  | [] => None
  | _ =>
      Some (summarize (secondLoop rows (firstLoop rows)) (winLossSums rows))
  end.

(** ** Counting the rows a run examines *)

(** A [for ... of] loop over [xs]: the state it ends in, and one more
    examined element per iteration. *)
Definition forOf (S A : Type) (body : S -> A -> S) (xs : list A)
    (init : S) (examined : nat) : S * nat :=
  (fold_left body xs init, examined + List.length xs).

(** The second loop with its inner re-scan counted. *)
Fixpoint secondLoopCounted (rows : list Row.t) (entries : list TradeStats)
    (examined : nat) : list TradeStats * nat :=
  match entries with
  | [] => ([], examined)
  | stats :: rest =>
      let '(wins, examined) :=
        forOf (winsBody stats.(symbol)) rows (0, 0) examined in
      let '(finished, examined) := secondLoopCounted rows rest examined in
      (derive wins stats :: finished, examined)
  end.

(** [analyzeTrades] together with the number of times a row of the
    query result is examined by one of its loops. *)
Definition analyzeTradesCounted (rows : list Row.t) : option Report * nat :=
  match rows with
  | [] => (None, 0)
  | _ =>
      let '(symbolStats, examined) :=
        forOf step rows (JsMap.empty TradeStats) 0 in
      let '(finished, examined) :=
        secondLoopCounted rows (JsMap.values symbolStats) examined in
      let '(sums, examined) := forOf sumsBody rows (zero, zero) examined in
      (Some (summarize finished sums), examined)
  end.

(** ** A single-pass aggregation keyed by symbol and side *)

(** The reference the design asks for: one scan of the rows keeps, per
    symbol, the running entry and the winning trades per side, and the
    overall win and loss sums. *)
Record Keyed : Type := mkKeyed {
  entry : TradeStats;
  longWins : nat;
  shortWins : nat;
}.

Definition keyedUpdate (trade : Row.t) (k : Keyed) : Keyed :=
  let isWin := gt (pnlOf trade) winThreshold in
  {| entry := update (Row.side trade) (pnlOf trade) (feeOf trade) k.(entry);
     longWins :=
       if (isWin && String.eqb (Row.side trade) "long")%bool
       then S k.(longWins) else k.(longWins);
     shortWins :=
       if (isWin && String.eqb (Row.side trade) "short")%bool
       then S k.(shortWins) else k.(shortWins) |}.

Definition singlePassStep (acc : JsMap.t Keyed * (number * number))
    (trade : Row.t) : JsMap.t Keyed * (number * number) :=
  let '(m, sums) := acc in
  let symbol := Row.symbol trade in
  let k :=
    match JsMap.get m symbol with
    | Some k => k
    | None => {| entry := initStats symbol; longWins := 0; shortWins := 0 |}
    end in
  (JsMap.set m symbol (keyedUpdate trade k), sumsBody sums trade).

Definition singlePass (rows : list Row.t) : option Report :=
  match rows with
  | [] => None
  | _ =>
      let '(m, sums) :=
        fold_left singlePassStep rows (JsMap.empty Keyed, (zero, zero)) in
      Some (summarize
              (map (fun k => derive (k.(longWins), k.(shortWins)) k.(entry))
                   (JsMap.values m))
              sums)
  end.

End AnalyzeTrades.

(* ================================================================== *)
(** * The position consistency check (exchange vs database) *)
(* ================================================================== *)

Module CheckConsistency.

Inductive Side : Type := long | short.

Definition Side_eqb (a b : Side) : bool :=
  match a, b with
  | long, long | short, short => true
  | _, _ => false
  end.

Module ExchangePosition.
Record t : Type := mk {
  symbol : string;
  size : number;
  side : Side;
  entryPrice : number;
  markPrice : number;
  leverage : number;
  unrealizedPnl : number;
}.
End ExchangePosition.

Module DbPosition.
Record t : Type := mk {
  symbol : string;
  quantity : number;
  entryPrice : number;
  currentPrice : number;
  leverage : number;
  side : Side;
  openedAt : string;
}.
End DbPosition.

Definition QUANTITY_EPS : number := Fin (1 # 10000).

(** [parseNumber]: [Number.parseFloat(String(value ?? "0"))], and [0]
    unless that is finite. *)
Definition parseNumber (value : Value) : number :=
  let parsed :=
    parseFloatV (match value with
                 | VNull | VUndefined => VText "0"
                 | _ => value
                 end) in
  if isFinite parsed then parsed else zero.

(** ** Step 1: the positions the exchange reports *)

(** An element of [exchangeClient.getPositions()]: the fields read. *)
Module RawPosition.
Record t : Type := mk {
  size : Value;
  contract : string;
  entryPrice : Value;
  markPrice : Value;
  leverage : Value;
  unrealisedPnl : Value;
}.
End RawPosition.

Fixpoint dropChars (n : nat) (s : string) : string :=
  match n, s with
  | S n', String _ r => dropChars n' r
  | _, _ => s
  end.

(** [s.replace(pattern, "")] with a string pattern: the first occurrence
    is removed. *)
Fixpoint removeFirst (pattern s : string) : string :=
  if String.prefix pattern s then dropChars (String.length pattern) s
  else match s with
       | String c r => String c (removeFirst pattern r)
       | EmptyString => EmptyString
       end.

Definition toExchangePosition (pos : RawPosition.t) : option ExchangePosition.t :=
  let size := parseNumber (RawPosition.size pos) in
  if negb (truthy size) then None
  else
    let symbol := removeFirst "_USDT" (RawPosition.contract pos) in
    if String.eqb symbol "" then None
    else Some
      {| ExchangePosition.symbol := symbol;
         ExchangePosition.size := size;
         ExchangePosition.side := if gt size zero then long else short;
         ExchangePosition.entryPrice := parseNumber (RawPosition.entryPrice pos);
         ExchangePosition.markPrice := parseNumber (RawPosition.markPrice pos);
         ExchangePosition.leverage := trunc (parseNumber (RawPosition.leverage pos));
         ExchangePosition.unrealizedPnl :=
           parseNumber (RawPosition.unrealisedPnl pos) |}.

(** [rawPositions.map(...).filter(Boolean)] *)
Fixpoint exchangePositionsOf (rawPositions : list RawPosition.t)
  : list ExchangePosition.t :=
  match rawPositions with
  | [] => []
  | pos :: rest =>
      match toExchangePosition pos with
      | Some p => p :: exchangePositionsOf rest
      | None => exchangePositionsOf rest
      end
  end.

(** ** Step 2: the positions the database holds *)

(** A row of the [positions] table. *)
Module PositionRow.
Record t : Type := mk {
  symbol : string;
  quantity : Value;
  entry_price : Value;
  current_price : Value;
  leverage : Value;
  side : string;
  opened_at : string;
}.
End PositionRow.

Definition toDbPosition (row : PositionRow.t) : DbPosition.t :=
  {| DbPosition.symbol := PositionRow.symbol row;
     DbPosition.quantity := parseNumber (PositionRow.quantity row);
     DbPosition.entryPrice := parseNumber (PositionRow.entry_price row);
     DbPosition.currentPrice := parseNumber (PositionRow.current_price row);
     DbPosition.leverage := trunc (parseNumber (PositionRow.leverage row));
     DbPosition.side :=
       if String.eqb (PositionRow.side row) "short" then short else long;
     DbPosition.openedAt := PositionRow.opened_at row |}.

(** ** Step 3: compare exchange vs database *)

(** One entry of [issues]; the script formats it into text. *)
Inductive Issue : Type :=
| SideIssue (db exchange : Side)
| QtyIssue (dbQty exchangeQty : number)
| LeverageIssue (db exchange : number).

Definition sideDiffers (dbPos : DbPosition.t) (exchangePos : ExchangePosition.t)
  : bool :=
  negb (Side_eqb (DbPosition.side dbPos) (ExchangePosition.side exchangePos)).

Definition qtyDiffers (dbPos : DbPosition.t) (exchangePos : ExchangePosition.t)
  : bool :=
  let exchangeQty := abs (ExchangePosition.size exchangePos) in
  let dbQty := abs (DbPosition.quantity dbPos) in
  gt (abs (sub exchangeQty dbQty)) QUANTITY_EPS.

Definition leverageDiffers (dbPos : DbPosition.t)
    (exchangePos : ExchangePosition.t) : bool :=
  (truthy (DbPosition.leverage dbPos)
   && truthy (ExchangePosition.leverage exchangePos)
   && negb (strictEq (DbPosition.leverage dbPos)
                     (ExchangePosition.leverage exchangePos)))%bool.

Definition issuesOf (dbPos : DbPosition.t) (exchangePos : ExchangePosition.t)
  : list Issue :=
  (if sideDiffers dbPos exchangePos
   then [SideIssue (DbPosition.side dbPos) (ExchangePosition.side exchangePos)]
   else [])
  ++ (if qtyDiffers dbPos exchangePos
      then [QtyIssue (abs (DbPosition.quantity dbPos))
                     (abs (ExchangePosition.size exchangePos))]
      else [])
  ++ (if leverageDiffers dbPos exchangePos
      then [LeverageIssue (DbPosition.leverage dbPos)
                          (ExchangePosition.leverage exchangePos)]
      else []).

Definition exchangeMapOf (exchangePositions : list ExchangePosition.t)
  : JsMap.t ExchangePosition.t :=
  JsMap.ofEntries (map (fun p => (ExchangePosition.symbol p, p)) exchangePositions).

Definition dbMapOf (dbPositions : list DbPosition.t) : JsMap.t DbPosition.t :=
  JsMap.ofEntries (map (fun p => (DbPosition.symbol p, p)) dbPositions).

(** The body of [for (const [symbol, exchangePos] of exchangeMap)]. *)
Definition mismatchStep (dbMap : JsMap.t DbPosition.t)
    (mismatches : list (string * list Issue))
    (e : string * ExchangePosition.t) : list (string * list Issue) :=
  let '(symbol, exchangePos) := e in
  match JsMap.get dbMap symbol with
  | None => mismatches
  | Some dbPos =>
      let issues := issuesOf dbPos exchangePos in
      if Nat.ltb 0 (List.length issues) then mismatches ++ [(symbol, issues)]
      else mismatches
  end.

Record Comparison : Type := mkComparison {
  missingInDb : list ExchangePosition.t;
  missingOnExchange : list DbPosition.t;
  mismatches : list (string * list Issue);
}.

Definition comparePositions (exchangePositions : list ExchangePosition.t)
    (dbPositions : list DbPosition.t) : Comparison :=
  let exchangeMap := exchangeMapOf exchangePositions in
  let dbMap := dbMapOf dbPositions in
  {| missingInDb :=
       filter (fun p => negb (JsMap.has dbMap (ExchangePosition.symbol p)))
              exchangePositions;
     missingOnExchange :=
       filter (fun p => negb (JsMap.has exchangeMap (DbPosition.symbol p)))
              dbPositions;
     mismatches := fold_left (mismatchStep dbMap) exchangeMap [] |}.

(** ** The script and its effects *)

(** A row of the [trades] table. *)
Module TradeRow.
Record t : Type := mk {
  order_id : string;
  symbol : string;
  side : string;
  type : string;
  price : Value;
  quantity : Value;
  leverage : Value;
  pnl : Value;
  fee : Value;
  timestamp : string;
  status : string;
}.
End TradeRow.

Record Db : Type := mkDb {
  positions : list PositionRow.t;
  trades : list TradeRow.t;
  closed : bool;
}.

(** The statements a client can [execute].  The script issues the
    [SELECT]s. *)
Inductive Statement : Type :=
| SelectPositions
| SelectTrades (type : option string) (ascending : bool) (limit : option nat)
| InsertTrade (row : TradeRow.t)
| UpsertPosition (row : PositionRow.t)
| DeletePosition (symbol : string).

Inductive ResultSet : Type :=
| PositionRows (rows : list PositionRow.t)
| TradeRows (rows : list TradeRow.t)
| NoRows.

(** [ORDER BY timestamp]: text compared byte by byte, ties in table order. *)
Fixpoint insertByTimestamp (ascending : bool) (row : TradeRow.t)
    (sorted : list TradeRow.t) : list TradeRow.t :=
  match sorted with
  | [] => [row]
  | r :: rest =>
      let after :=
        if ascending
        then String.ltb (TradeRow.timestamp r) (TradeRow.timestamp row)
        else String.ltb (TradeRow.timestamp row) (TradeRow.timestamp r) in
      if after then r :: insertByTimestamp ascending row rest
      else row :: sorted
  end.

Definition orderByTimestamp (ascending : bool) (rows : list TradeRow.t)
  : list TradeRow.t :=
  fold_right (insertByTimestamp ascending) [] rows.

Definition limitTo (A : Type) (limit : option nat) (rows : list A) : list A :=
  match limit with
  | Some n => firstn n rows
  | None => rows
  end.

(** Modelled from the spec: the write statements of the persistence
    layer, whose code is not part of the sources at hand.  The design
    gives an append-only trades table and a positions table keyed by
    symbol. *)
Definition writeDb (stmt : Statement) (db : Db) : Db :=
  match stmt with
  | InsertTrade row =>
      {| positions := db.(positions); trades := db.(trades) ++ [row];
         closed := db.(closed) |}
  | UpsertPosition row =>
      {| positions :=
           filter (fun r => negb (String.eqb (PositionRow.symbol r)
                                             (PositionRow.symbol row)))
                  db.(positions) ++ [row];
         trades := db.(trades); closed := db.(closed) |}
  | DeletePosition symbol =>
      {| positions :=
           filter (fun r => negb (String.eqb (PositionRow.symbol r) symbol))
                  db.(positions);
         trades := db.(trades); closed := db.(closed) |}
  | _ => db
  end.

Definition readDb (stmt : Statement) (db : Db) : ResultSet :=
  match stmt with
  | SelectPositions => PositionRows db.(positions)
  | SelectTrades type ascending limit =>
      let selected :=
        match type with
        | Some ty => filter (fun r => String.eqb (TradeRow.type r) ty) db.(trades)
        | None => db.(trades)
        end in
      TradeRows (limitTo limit (orderByTimestamp ascending selected))
  | _ => NoRows
  end.

(** [dbClient.execute(stmt)]; [None] is a rejected promise. *)
Definition execute (stmt : Statement) (db : Db) : Db * option ResultSet :=
  if db.(closed) then (db, None)
  else (writeDb stmt db, Some (readDb stmt db)).

(** An order as the design describes the submissions. *)
Record Order : Type := mkOrder {
  o_symbol : string;
  o_side : Side;
  o_quantity : number;
  o_reduceOnly : bool;
}.

Record Exchange : Type := mkExchange {
  exchangeType : string;
  reachable : bool;
  rawPositions : list RawPosition.t;
  orders : list Order;
}.

Inductive Request : Type :=
| GetPositions
| PlaceOrder (order : Order).

Inductive Response : Type :=
| Positions (rawPositions : list RawPosition.t)
| Accepted.

(** Modelled from the spec: the exchange client, whose code is not part
    of the sources at hand; reading positions returns what the exchange
    holds, placing an order adds to its orders, and an unreachable
    exchange rejects the request. *)
Definition request (req : Request) (ex : Exchange) : Exchange * option Response :=
  if negb ex.(reachable) then (ex, None)
  else match req with
       | GetPositions => (ex, Some (Positions ex.(rawPositions)))
       | PlaceOrder order =>
           ({| exchangeType := ex.(exchangeType); reachable := ex.(reachable);
               rawPositions := ex.(rawPositions);
               orders := ex.(orders) ++ [order] |}, Some Accepted)
       end.

(** A line written to the console, before formatting. *)
Inductive Line : Type :=
| Text (s : string)
| ExchangeName (name : string)
| Count (label : string) (n : nat)
| ExchangeLine (p : ExchangePosition.t)
| DbLine (p : DbPosition.t)
| MissingInDbLine (p : ExchangePosition.t)
| MissingOnExchangeLine (p : DbPosition.t)
| MismatchLine (m : string * list Issue)
| TradeLine (row : TradeRow.t)
| ErrorLine.

Record World : Type := mkWorld {
  exchange : Exchange;
  db : Db;
  console : list Line;
}.

(** Computations on the world; [None] is a thrown exception. *)
Definition M (A : Type) : Type := World -> World * option A.

Definition ret (A : Type) (a : A) : M A := fun w => (w, Some a).

Definition bind (A B : Type) (c : M A) (k : A -> M B) : M B :=
  fun w =>
    match c w with
    | (w', Some a) => k a w'
    | (w', None) => (w', None)
    end.

Notation "x <- c ;; k" := (bind c (fun x => k))
  (at level 61, c at next level, right associativity).
Notation "c ;;; k" := (bind c (fun _ => k))
  (at level 61, right associativity).

(** [console.log(...)] / [console.error(...)] *)
Definition log (l : Line) : M unit :=
  fun w =>
    ({| exchange := w.(exchange); db := w.(db); console := w.(console) ++ [l] |},
     Some tt).

Fixpoint logEach (A : Type) (line : A -> Line) (xs : list A) : M unit :=
  match xs with
  | [] => ret tt
  | x :: rest => log (line x) ;;; logEach line rest
  end.

Definition callExchange (req : Request) : M Response :=
  fun w =>
    let '(ex, r) := request req w.(exchange) in
    ({| exchange := ex; db := w.(db); console := w.(console) |}, r).

Definition dbExecute (stmt : Statement) : M ResultSet :=
  fun w =>
    let '(d, r) := execute stmt w.(db) in
    ({| exchange := w.(exchange); db := d; console := w.(console) |}, r).

(** [dbClient.close()] *)
Definition dbClose : M unit :=
  fun w =>
    ({| exchange := w.(exchange);
        db := {| positions := w.(db).(positions); trades := w.(db).(trades);
                 closed := true |};
        console := w.(console) |}, Some tt).

(** [try { body } catch { handler } finally { finalizer }] *)
Definition tryCatchFinally (body handler finalizer : M unit) : M unit :=
  fun w =>
    let '(w1, r1) := body w in
    let '(w2, r2) :=
      match r1 with
      | Some _ => (w1, r1)
      | None => handler w1
      end in
    let '(w3, r3) := finalizer w2 in
    (w3, match r3 with Some _ => r2 | None => None end).

Definition positionRowsOf (r : ResultSet) : list PositionRow.t :=
  match r with PositionRows rows => rows | _ => [] end.

Definition tradeRowsOf (r : ResultSet) : list TradeRow.t :=
  match r with TradeRows rows => rows | _ => [] end.

Definition divider : Line := Text "======================================================================".

(** A heading and, under it, either [empty] or one line per row. *)
Definition logTrades (empty : string) (rows : list TradeRow.t) : M unit :=
  match rows with
  | [] => log (Text empty)
  | _ => logEach TradeLine rows
  end.

Definition checkConsistency : M unit :=
  fun w0 =>
  (log divider ;;;
   log (Text "Position Consistency Check (Exchange vs Database)") ;;;
   log (ExchangeName
          (if String.eqb w0.(exchange).(exchangeType) "okx" then "OKX"
           else "Gate.io")) ;;;
   log divider ;;;
   log (Text "") ;;;
   tryCatchFinally
     ((* Step 1: fetch exchange positions *)
      response <- callExchange GetPositions ;;
      let exchangePositions :=
        exchangePositionsOf
          (match response with Positions raw => raw | Accepted => [] end) in
      log (Count "Exchange positions" (List.length exchangePositions)) ;;;
      match exchangePositions with
      | [] => log (Text "No active positions on the exchange.")
      | _ => logEach ExchangeLine exchangePositions
      end ;;;
      log (Text "") ;;;
      (* Step 2: fetch database positions *)
      dbResult <- dbExecute SelectPositions ;;
      let dbPositions := map toDbPosition (positionRowsOf dbResult) in
      log (Count "Database positions" (List.length dbPositions)) ;;;
      match dbPositions with
      | [] => log (Text "No positions in the database.")
      | _ => logEach DbLine dbPositions
      end ;;;
      log (Text "") ;;;
      (* Step 3: compare exchange vs database *)
      let c := comparePositions exchangePositions dbPositions in
      log divider ;;;
      log (Text "Comparison Summary") ;;;
      log divider ;;;
      log (Count "Missing in DB" (List.length c.(missingInDb))) ;;;
      logEach MissingInDbLine c.(missingInDb) ;;;
      log (Count "Missing on Exchange" (List.length c.(missingOnExchange))) ;;;
      logEach MissingOnExchangeLine c.(missingOnExchange) ;;;
      log (Count "Mismatched Positions" (List.length c.(mismatches))) ;;;
      logEach MismatchLine c.(mismatches) ;;;
      log (Text "") ;;;
      (* Step 4: recent trades *)
      log divider ;;;
      log (Text "Recent Trades (Last 10)") ;;;
      log divider ;;;
      recentTrades <- dbExecute (SelectTrades None false (Some 10)) ;;
      logTrades "No trades found." (tradeRowsOf recentTrades) ;;;
      log (Text "") ;;;
      (* Step 5: recent open/close trade breakdown *)
      log divider ;;;
      log (Text "Recent Open Trades (Last 5)") ;;;
      log divider ;;;
      openTrades <- dbExecute (SelectTrades (Some "open"%string) false (Some 5)) ;;
      logTrades "No open trades found." (tradeRowsOf openTrades) ;;;
      log (Text "") ;;;
      log divider ;;;
      log (Text "Recent Close Trades (Last 5)") ;;;
      log divider ;;;
      closeTrades <- dbExecute (SelectTrades (Some "close"%string) false (Some 5)) ;;
      logTrades "No close trades found." (tradeRowsOf closeTrades) ;;;
      log (Text "") ;;;
      log divider ;;;
      log (Text "Done. Consistency check complete.") ;;;
      log divider ;;;
      log (Text "Note: Exchange sizes use sign for direction (positive=long, negative=short)."))
     (log ErrorLine)
     dbClose) w0.

End CheckConsistency.

(* ================================================================== *)
(** * [src/strategies/alphaBeta.ts] *)
(* ================================================================== *)

Module AlphaBeta.

Module Recommend.
Record t : Type := mk { normal : string; good : string; strong : string }.
End Recommend.

Module StopLoss.
Record t : Type := mk { low : number; mid : number; high : number }.
End StopLoss.

Module TrailingLevel.
Record t : Type := mk { trigger : number; stopAt : number }.
End TrailingLevel.

Module TrailingStop.
Record t : Type := mk {
  level1 : TrailingLevel.t;
  level2 : TrailingLevel.t;
  level3 : TrailingLevel.t;
}.
End TrailingStop.

Module Stage.
Record t : Type := mk { trigger : number; closePercent : number }.
End Stage.

Module PartialTakeProfit.
Record t : Type := mk { stage1 : Stage.t; stage2 : Stage.t; stage3 : Stage.t }.
End PartialTakeProfit.

Module Factors.
Record t : Type := mk { leverageFactor : number; positionFactor : number }.
End Factors.

Module VolatilityAdjustment.
Record t : Type := mk {
  highVolatility : Factors.t;
  normalVolatility : Factors.t;
  lowVolatility : Factors.t;
}.
End VolatilityAdjustment.

(** The object [getAlphaBetaStrategy] builds, field for field. *)
Record StrategyParams : Type := mkParams {
  name : string;
  description : string;
  leverageMin : number;
  leverageMax : number;
  leverageRecommend : Recommend.t;
  positionSizeMin : number;
  positionSizeMax : number;
  maxTotalMarginPercent : number;
  positionSizeRecommend : Recommend.t;
  stopLoss : StopLoss.t;
  trailingStop : TrailingStop.t;
  partialTakeProfit : PartialTakeProfit.t;
  peakDrawdownProtection : number;
  volatilityAdjustment : VolatilityAdjustment.t;
  entryCondition : string;
  riskTolerance : string;
  tradingStyle : string;
  enableCodeLevelProtection : bool;
  allowAiOverrideProtection : bool;
  maxIdleHours : number;
}.

Definition getAlphaBetaStrategy (maxLeverage : number) : StrategyParams :=
  {| name := "Alpha Beta";
     description := "低频交易，30分钟检查，关注1H/4H趋势，简化评分系统";
     leverageMin := Fin 1;
     leverageMax := maxLeverage;
     leverageRecommend :=
       {| Recommend.normal := "2倍（良好信号）";
          Recommend.good := "2-3倍（优秀信号）";
          Recommend.strong := "3倍（完美信号，谨慎使用）" |};
     positionSizeMin := Fin 1;
     positionSizeMax := Fin 30;
     maxTotalMarginPercent := Fin 50;
     positionSizeRecommend :=
       {| Recommend.normal := "8-10%（良好信号，70-80分）";
          Recommend.good := "10-15%（优秀信号，80-90分）";
          Recommend.strong := "15-20%（完美信号，90-100分）" |};
     stopLoss :=
       {| StopLoss.low := Fin (-5);
          StopLoss.mid := Fin (-4);
          StopLoss.high := Fin (-(35 # 10)) |};
     trailingStop :=
       {| TrailingStop.level1 :=
            {| TrailingLevel.trigger := Fin 3; TrailingLevel.stopAt := Fin 1 |};
          TrailingStop.level2 :=
            {| TrailingLevel.trigger := Fin 6; TrailingLevel.stopAt := Fin 3 |};
          TrailingStop.level3 :=
            {| TrailingLevel.trigger := Fin 10; TrailingLevel.stopAt := Fin 6 |} |};
     partialTakeProfit :=
       {| PartialTakeProfit.stage1 :=
            {| Stage.trigger := Fin 5; Stage.closePercent := Fin 50 |};
          PartialTakeProfit.stage2 :=
            {| Stage.trigger := Fin 10; Stage.closePercent := Fin 30 |};
          PartialTakeProfit.stage3 :=
            {| Stage.trigger := Fin 15; Stage.closePercent := Fin 20 |} |};
     peakDrawdownProtection := Fin 50;
     volatilityAdjustment :=
       {| VolatilityAdjustment.highVolatility :=
            {| Factors.leverageFactor := Fin 1; Factors.positionFactor := Fin 1 |};
          VolatilityAdjustment.normalVolatility :=
            {| Factors.leverageFactor := Fin 1; Factors.positionFactor := Fin 1 |};
          VolatilityAdjustment.lowVolatility :=
            {| Factors.leverageFactor := Fin 1; Factors.positionFactor := Fin 1 |} |};
     entryCondition := "信号评分≥70分才能开仓，必须确认1H趋势方向";
     riskTolerance := "严格止损-3%，最大单笔仓位30%";
     tradingStyle := "低频交易，2小时内最多开仓1次，必须检查做空机会";
     enableCodeLevelProtection := true;
     allowAiOverrideProtection := true;
     maxIdleHours := Fin 8 |}.

(** The trailing-stop levels and take-profit stages in the order the
    object lists them. *)
Definition trailingLevelsOf (p : StrategyParams) : list TrailingLevel.t :=
  [ TrailingStop.level1 p.(trailingStop);
    TrailingStop.level2 p.(trailingStop);
    TrailingStop.level3 p.(trailingStop) ].

Definition stagesOf (p : StrategyParams) : list Stage.t :=
  [ PartialTakeProfit.stage1 p.(partialTakeProfit);
    PartialTakeProfit.stage2 p.(partialTakeProfit);
    PartialTakeProfit.stage3 p.(partialTakeProfit) ].

End AlphaBeta.

(* ================================================================== *)
(** * The protection engine *)
(* ================================================================== *)

(** The engine's code is not among the sources at hand; every definition
    of this module follows the design document (sections 3, 4.1, 7).
    Percentages, prices and quantities are rationals. *)
Module ProtectionEngine.
Local Open Scope Q_scope.

Inductive Side : Type := long | short.

Definition leb (a b : Q) : bool := Qle_bool a b.
Definition ltb (a b : Q) : bool := negb (Qle_bool b a).
Definition maxQ (a b : Q) : Q := if leb a b then b else a.

(** Modelled from the spec: the ProtectionConfig of section 3, whose
    type and loader are not in the sources.  A level is
    [(trigger, stopAt)], a stage is [(trigger, closePercent)]. *)
Record ProtectionConfig : Type := mkConfig {
  stopLossLow : Q;
  stopLossMid : Q;
  stopLossHigh : Q;
  trailingLevels : list (Q * Q);
  takeProfitStages : list (Q * Q);
  peakDrawdownProtectionPercent : Q;
  maxIdleHours : Q;
  enableCodeLevelProtection : bool;
  allowAiOverrideProtection : bool;
}.

(** Modelled from the spec: "strictly increasing in trigger". *)
Fixpoint strictlyIncreasing (l : list Q) : bool :=
  match l with
  | a :: ((b :: _) as rest) => (ltb a b && strictlyIncreasing rest)%bool
  | _ => true
  end.

Definition cumulativeClosePercent (stages : list (Q * Q)) : Q :=
  fold_right (fun s acc => snd s + acc) 0 stages.

(** Modelled from the spec: the load-time check; ConfigInvalid is
    "malformed bracket/stage ordering or cumulative closePercent > 100". *)
Definition validConfig (c : ProtectionConfig) : bool :=
  (strictlyIncreasing (map fst c.(trailingLevels))
   && strictlyIncreasing (map fst c.(takeProfitStages))
   && leb (cumulativeClosePercent c.(takeProfitStages)) 100)%bool.

Definition finite (x : number) : option Q :=
  match x with Fin q => Some q | _ => None end.

Definition levelOf (l : AlphaBeta.TrailingLevel.t) : option (Q * Q) :=
  match finite (AlphaBeta.TrailingLevel.trigger l),
        finite (AlphaBeta.TrailingLevel.stopAt l) with
  | Some t, Some s => Some (t, s)
  | _, _ => None
  end.

Definition stageOf (s : AlphaBeta.Stage.t) : option (Q * Q) :=
  match finite (AlphaBeta.Stage.trigger s),
        finite (AlphaBeta.Stage.closePercent s) with
  | Some t, Some c => Some (t, c)
  | _, _ => None
  end.

Fixpoint allSome (A : Type) (l : list (option A)) : option (list A) :=
  match l with
  | [] => Some []
  | Some a :: r =>
      match allSome r with Some r' => Some (a :: r') | None => None end
  | None :: _ => None
  end.

(** Modelled from the spec: the configuration is read once from the
    strategy parameters and rejected ([None]) when it is not valid. *)
Definition load (p : AlphaBeta.StrategyParams) : option ProtectionConfig :=
  match finite (AlphaBeta.StopLoss.low (AlphaBeta.stopLoss p)),
        finite (AlphaBeta.StopLoss.mid (AlphaBeta.stopLoss p)),
        finite (AlphaBeta.StopLoss.high (AlphaBeta.stopLoss p)),
        allSome (map levelOf (AlphaBeta.trailingLevelsOf p)),
        allSome (map stageOf (AlphaBeta.stagesOf p)),
        finite (AlphaBeta.peakDrawdownProtection p),
        finite (AlphaBeta.maxIdleHours p) with
  | Some lo, Some mi, Some hi, Some levels, Some stages, Some dd, Some idle =>
      let c :=
        {| stopLossLow := lo; stopLossMid := mi; stopLossHigh := hi;
           trailingLevels := levels; takeProfitStages := stages;
           peakDrawdownProtectionPercent := dd; maxIdleHours := idle;
           enableCodeLevelProtection := AlphaBeta.enableCodeLevelProtection p;
           allowAiOverrideProtection := AlphaBeta.allowAiOverrideProtection p |} in
      if validConfig c then Some c else None
  | _, _, _, _, _, _, _ => None
  end.

(** Modelled from the spec: the Position of section 3, with the
    generation counter of section 5 and the action-pending mark of
    section 4.2.  A stage is identified by its trigger percent. *)
Record Position : Type := mkPosition {
  symbol : string;
  side : Side;
  quantity : Q;
  entryPrice : Q;
  currentPrice : Q;
  leverage : Z;
  openedAt : Z;
  peakPnlPercent : Q;
  trailingFloorPercent : option Q;
  completedStages : list Q;
  generation : nat;
  actionPending : bool;
}.

Inductive Action : Type :=
| NoAction
| HardStopLoss
| TrailingStopClose
| PeakDrawdownClose
| PartialClose (stageId : Q)
| ForcedReview.

(** Modelled from the spec, step 1:
    [(currentPrice - entryPrice) / entryPrice * leverage * (+1 | -1)]. *)
Definition pnlPercentOf (p : Position) (price : Q) : Q :=
  (price - p.(entryPrice)) / p.(entryPrice) * inject_Z p.(leverage)
  * match p.(side) with long => 1 | short => -1 end.

(** Modelled from the spec: brackets low (<= 5x), mid (6-10x), high (>= 11x). *)
Definition stopLossFor (c : ProtectionConfig) (leverage : Z) : Q :=
  if (leverage <=? 5)%Z then c.(stopLossLow)
  else if (leverage <=? 10)%Z then c.(stopLossMid)
  else c.(stopLossHigh).

(** Modelled from the spec, step 4: "the highest trailing level whose
    trigger <= peakPnlPercent". *)
Fixpoint highestReached (levels : list (Q * Q)) (peak : Q) : option (Q * Q) :=
  match levels with
  | [] => None
  | l :: rest =>
      let best := highestReached rest peak in
      if leb (fst l) peak then
        match best with
        | Some b => if ltb (fst l) (fst b) then Some b else Some l
        | None => Some l
        end
      else best
  end.

(** The floor in effect at a given peak. *)
Definition floorAt (c : ProtectionConfig) (peak : Q) : option Q :=
  option_map snd (highestReached c.(trailingLevels) peak).

Definition memQ (x : Q) (l : list Q) : bool := existsb (Qeq_bool x) l.

(** Modelled from the spec, step 6: the first stage, in ascending trigger
    order, that is not completed and whose trigger <= pnlPercent. *)
Fixpoint firstDueStage (stages : list (Q * Q)) (completed : list Q) (pnl : Q)
  : option Q :=
  match stages with
  | [] => None
  | s :: rest =>
      if (negb (memQ (fst s) completed) && leb (fst s) pnl)%bool then Some (fst s)
      else firstDueStage rest completed pnl
  end.

(** Modelled from the spec: steps 3 to 6 and 8 of section 4.1, in their
    priority order, at the updated peak. *)
Definition decide (c : ProtectionConfig) (leverage : Z) (peak : Q)
    (completed : list Q) (pnl : Q) : Action :=
  if leb pnl (stopLossFor c leverage) then HardStopLoss
  else if match highestReached c.(trailingLevels) peak with
          | Some level => leb pnl (snd level)
          | None => false
          end
  then TrailingStopClose
  else if leb c.(peakDrawdownProtectionPercent) (peak - pnl)
  then PeakDrawdownClose
  else match firstDueStage c.(takeProfitStages) completed pnl with
       | Some id => PartialClose id
       | None => NoAction
       end.

(** Modelled from the spec: [evaluate(position, currentPrice, config)]. *)
Definition evaluate (p : Position) (price : Q) (c : ProtectionConfig) : Action :=
  let pnl := pnlPercentOf p price in
  decide c p.(leverage) (maxQ p.(peakPnlPercent) pnl) p.(completedStages) pnl.

(** A price as it reaches the engine: its value and its age. *)
Record Quote : Type := mkQuote { price : Q; age : Q }.

(** Modelled from the spec: the decision of a tick for one position,
    with the failure semantics (missing, zero or stale price: skip) and
    the two policy switches (shadow mode, one-tick override token). *)
Definition tickDecision (c : ProtectionConfig) (stalenessBound : Q)
    (p : Position) (quote : option Quote) (overrideToken : bool) : Action :=
  match quote with
  | None => NoAction
  | Some q =>
      if (Qeq_bool q.(price) 0 || ltb stalenessBound q.(age))%bool then NoAction
      else if negb c.(enableCodeLevelProtection) then NoAction
      else if (c.(allowAiOverrideProtection) && overrideToken)%bool then NoAction
      else evaluate p q.(price) c
  end.

(** Modelled from the spec, step 7: the review forced by idleness. *)
Definition idleReview (c : ProtectionConfig) (openPositions : nat)
    (hoursSinceLastClose : Q) : Action :=
  if (Nat.eqb openPositions 0 && ltb c.(maxIdleHours) hoursSinceLastClose)%bool
  then ForcedReview else NoAction.



(** One floor is at most as tight as another. *)
Definition floorLe (a b : option Q) : Prop :=
  match a, b with
  | None, _ => True
  | Some _, None => False
  | Some x, Some y => x <= y
  end.

End ProtectionEngine.

(* ================================================================== *)
(** * The action executor *)
(* ================================================================== *)

(** The executor's code is not among the sources at hand; every
    definition of this module follows the design document (sections 4.2
    and 5). *)
Module ActionExecutor.
Import ProtectionEngine.
Local Open Scope Q_scope.

Inductive Marker : Type :=
| Terminal
| StageMarker (stageId : Q).

(** Modelled from the spec: "symbol + stage-or-terminal-marker +
    position generation". *)
Record DedupKey : Type := mkKey {
  k_symbol : string;
  k_marker : Marker;
  k_generation : nat;
}.

(** Modelled from the spec: a decision as it is delivered, the action
    for a symbol together with the generation it was taken at. *)
Record Decision : Type := mkDecision {
  d_symbol : string;
  d_action : Action;
  d_generation : nat;
}.

Definition markerOf (a : Action) : Marker :=
  match a with
  | PartialClose id => StageMarker id
  | _ => Terminal
  end.

Definition dedupKey (d : Decision) : DedupKey :=
  {| k_symbol := d.(d_symbol); k_marker := markerOf d.(d_action);
     k_generation := d.(d_generation) |}.

(** Modelled from the spec: a reduce-only market order. *)
Record Order : Type := mkOrder {
  o_symbol : string;
  o_side : Side;
  o_quantity : Q;
  o_reduceOnly : bool;
}.

(** What the exchange reports for a filled order. *)
Record Fill : Type := mkFill {
  f_orderId : nat;
  f_price : Q;
  f_fee : Q;
  f_timestamp : Z;
}.

(** Modelled from the spec: the append-only trade record. *)
Record Trade : Type := mkTrade {
  t_orderId : nat;
  t_symbol : string;
  t_side : Side;
  t_isClose : bool;
  t_price : Q;
  t_quantity : Q;
  t_leverage : Z;
  t_pnl : option Q;
  t_fee : Q;
  t_timestamp : Z;
  t_key : DedupKey;
}.

(** The answer of the exchange to one submission attempt. *)
Inductive Answer : Type :=
| Filled (f : Fill)
| Transient
| Mismatch.

Inductive ExecutionError : Type :=
| PositionAbsent
| ActionPending
| StaleGeneration
| StageAlreadyCompleted
| NotAnOrder
| ExchangeMismatch
| ActionExhausted.

Inductive Result : Type :=
| Ok (trade : Trade)
| Err (e : ExecutionError).

Record State : Type := mkState {
  ledger : JsMap.t Position;
  orders : list Order;
  tradeLog : list Trade;
  alerts : list string;
}.

(** Modelled from the spec: "100% for terminal closes, closePercent of
    current quantity for PartialClose"; no order for the other actions. *)
Definition closeFraction (c : ProtectionConfig) (a : Action) : option Q :=
  match a with
  | HardStopLoss | TrailingStopClose | PeakDrawdownClose => Some 1
  | PartialClose id =>
      match find (fun s => Qeq_bool (fst s) id) c.(takeProfitStages) with
      | Some s => Some (snd s / 100)
      | None => None
      end
  | NoAction | ForcedReview => None
  end.

Inductive Outcome : Type :=
| Done (f : Fill)
| Aborted
| Exhausted.

(** Modelled from the spec: bounded retry on transient failure, no retry
    on a mismatch; [cap] is the attempt cap and [answers] what the
    exchange answers to the successive attempts. *)
Fixpoint submit (cap : nat) (answers : list Answer) : Outcome :=
  match cap with
  | O => Exhausted
  | S cap' =>
      match answers with
      | [] => Exhausted
      | Filled f :: _ => Done f
      | Mismatch :: _ => Aborted
      | Transient :: rest => submit cap' rest
      end
  end.

Definition withPending (p : Position) : Position :=
  {| symbol := p.(symbol); side := p.(side); quantity := p.(quantity);
     entryPrice := p.(entryPrice); currentPrice := p.(currentPrice);
     leverage := p.(leverage); openedAt := p.(openedAt);
     peakPnlPercent := p.(peakPnlPercent);
     trailingFloorPercent := p.(trailingFloorPercent);
     completedStages := p.(completedStages);
     generation := p.(generation); actionPending := true |}.

(** The position after a partial close: quantity reduced, stage marked
    completed, floor recorded, generation bumped. *)
Definition afterPartial (c : ProtectionConfig) (p : Position) (remaining : Q)
    (m : Marker) : Position :=
  {| symbol := p.(symbol); side := p.(side); quantity := remaining;
     entryPrice := p.(entryPrice); currentPrice := p.(currentPrice);
     leverage := p.(leverage); openedAt := p.(openedAt);
     peakPnlPercent := p.(peakPnlPercent);
     trailingFloorPercent := floorAt c p.(peakPnlPercent);
     completedStages :=
       match m with
       | StageMarker id => p.(completedStages) ++ [id]
       | Terminal => p.(completedStages)
       end;
     generation := S p.(generation); actionPending := p.(actionPending) |}.

Definition stageCompleted (p : Position) (m : Marker) : bool :=
  match m with
  | StageMarker id => memQ id p.(completedStages)
  | Terminal => false
  end.

(** Modelled from the spec: [execute(position, action)]. *)
Definition execute (c : ProtectionConfig) (cap : nat) (st : State)
    (d : Decision) (answers : list Answer) : State * Result :=
  match JsMap.get st.(ledger) d.(d_symbol) with
  | None => (st, Err PositionAbsent)
  | Some p =>
      if p.(actionPending) then (st, Err ActionPending)
      else if negb (Nat.eqb p.(generation) d.(d_generation))
      then (st, Err StaleGeneration)
      else if stageCompleted p (markerOf d.(d_action))
      then (st, Err StageAlreadyCompleted)
      else
        match closeFraction c d.(d_action) with
        | None => (st, Err NotAnOrder)
        | Some fraction =>
            match submit cap answers with
            | Done f =>
                let closed := p.(quantity) * fraction in
                let remaining := p.(quantity) - closed in
                let order :=
                  {| o_symbol := p.(symbol); o_side := p.(side);
                     o_quantity := closed; o_reduceOnly := true |} in
                let trade :=
                  {| t_orderId := f.(f_orderId); t_symbol := p.(symbol);
                     t_side := p.(side); t_isClose := true;
                     t_price := f.(f_price); t_quantity := closed;
                     t_leverage := p.(leverage);
                     t_pnl :=
                       Some ((f.(f_price) - p.(entryPrice)) * closed
                             * match p.(side) with long => 1 | short => -1 end);
                     t_fee := f.(f_fee); t_timestamp := f.(f_timestamp);
                     t_key := dedupKey d |} in
                let ledger' :=
                  if leb remaining 0 then JsMap.remove st.(ledger) d.(d_symbol)
                  else JsMap.set st.(ledger) d.(d_symbol)
                         (afterPartial c p remaining (markerOf d.(d_action))) in
                ({| ledger := ledger'; orders := st.(orders) ++ [order];
                    tradeLog := st.(tradeLog) ++ [trade];
                    alerts := st.(alerts) |}, Ok trade)
            | Aborted => (st, Err ExchangeMismatch)
            | Exhausted =>
                ({| ledger := JsMap.set st.(ledger) d.(d_symbol) (withPending p);
                    orders := st.(orders); tradeLog := st.(tradeLog);
                    alerts := st.(alerts) ++ [d.(d_symbol)] |},
                 Err ActionExhausted)
            end
        end
  end.

(** The same decision delivered once per element of [deliveries], each
    with the answers the exchange gives that time. *)
Fixpoint replay (c : ProtectionConfig) (cap : nat) (st : State)
    (d : Decision) (deliveries : list (list Answer)) : State * list Result :=
  match deliveries with
  | [] => (st, [])
  | answers :: rest =>
      let '(st1, r) := execute c cap st d answers in
      let '(st2, rs) := replay c cap st1 d rest in
      (st2, r :: rs)
  end.

Definition isOk (r : Result) : bool :=
  match r with Ok _ => true | Err _ => false end.

End ActionExecutor.

(* ================================================================== *)
(** * Specification-side definitions *)
(* ================================================================== *)

(** Signs, for the sums of absolute losses. *)
Module JsNumberSpec.

(** [x > 0] *)
Definition positive (x : number) : Prop := gt x zero = true.

(** [x] is [+inf] or a finite number that is not negative. *)
Definition nonneg (x : number) : Prop :=
  match x with
  | PInf => True
  | Fin q => (0 <= q)%Q
  | _ => False
  end.

End JsNumberSpec.

Module AnalyzeTradesSpec.
Import AnalyzeTrades.

(** The rows of one symbol, in the order of the query result. *)
Definition ofSymbol (symbol : string) (rows : list Row.t) : list Row.t :=
  filter (fun trade => String.eqb (Row.symbol trade) symbol) rows.

Definition Outcome_eqb (a b : Outcome) : bool :=
  match a, b with
  | Win, Win | Loss, Loss | BreakEven, BreakEven => true
  | _, _ => false
  end.

(** The rows classified [o]. *)
Definition classified (o : Outcome) (rows : list Row.t) : list Row.t :=
  filter (fun trade => Outcome_eqb (classify (pnlOf trade)) o) rows.

(** The rows of one side. *)
Definition ofSide (side : string) (rows : list Row.t) : list Row.t :=
  filter (fun trade => String.eqb (Row.side trade) side) rows.

(** The sum of [f] over the rows, added up from [0] in row order. *)
Definition sumOf (f : Row.t -> number) (rows : list Row.t) : number :=
  fold_left add (map f rows) zero.

Definition absPnlOf (trade : Row.t) : number := abs (pnlOf trade).

(** The entry of a symbol after the first loop: the updates of its rows
    applied in order to a fresh entry. *)
Definition entryOf (symbol : string) (rows : list Row.t) : TradeStats :=
  fold_left
    (fun stats trade => update (Row.side trade) (pnlOf trade) (feeOf trade) stats)
    (ofSymbol symbol rows) (initStats symbol).


(** The average of a list of numbers, [0] for none. *)
Definition average (l : list number) : number :=
  match l with
  | [] => zero
  | _ => div (fold_left add l zero) (ofNat (List.length l))
  end.

(** The profit factor in the design's words: the average win divided by
    the average loss, [0] when no trade lost. *)
Definition profitFactorOf (rows : list Row.t) : number :=
  match classified Loss rows with
  | [] => zero
  | losses =>
      div (average (map pnlOf (classified Win rows)))
          (average (map absPnlOf losses))
  end.

(** One iteration of the first loop seen from the symbol's entry. *)
Definition applyRow (stats : TradeStats) (trade : Row.t) : TradeStats :=
  update (Row.side trade) (pnlOf trade) (feeOf trade) stats.

Definition applyAll (rows : list Row.t) (stats : TradeStats) : TradeStats :=
  fold_left applyRow rows stats.

(** The entry an iteration starts from: the stored one, or a fresh one. *)
Definition entryOr (m : JsMap.t TradeStats) (symbol : string) : TradeStats :=
  match JsMap.get m symbol with
  | Some stats => stats
  | None => initStats symbol
  end.

(** A count summed over the entries of the map. *)
Definition over (f : TradeStats -> nat) (m : JsMap.t TradeStats) : nat :=
  list_sum (map f (JsMap.values m)).

(** [1] for a row classified [o]. *)
Definition indicator (o : Outcome) (trade : Row.t) : nat :=
  if Outcome_eqb (classify (pnlOf trade)) o then 1 else 0.

(** The single pass: a fresh slot, the slot an iteration starts from,
    the entries and wins it holds, and its state after the rows. *)
Definition fresh (symbol : string) : Keyed :=
  {| entry := initStats symbol; longWins := 0; shortWins := 0 |}.

Definition keyedOr (m : JsMap.t Keyed) (symbol : string) : Keyed :=
  match JsMap.get m symbol with
  | Some k => k
  | None => fresh symbol
  end.

Definition entries (m : JsMap.t Keyed) : JsMap.t TradeStats :=
  map (fun e => (fst e, (snd e).(entry))) m.

Definition winsOf (k : Keyed) : nat * nat := (k.(longWins), k.(shortWins)).

Definition scanned (rows : list Row.t) : JsMap.t Keyed * (number * number) :=
  fold_left singlePassStep rows (JsMap.empty Keyed, (zero, zero)).

End AnalyzeTradesSpec.

Module AnalyzeTradesSamples.
Import AnalyzeTrades.

(** A small query result: two symbols, a win, a loss, a break-even
    trade at [0.005] and a row without a pnl. *)
Definition sampleRows : list Row.t :=
  [ Row.mk "BTC" "long" (VText "5") (VText "0.1");
    Row.mk "ETH" "short" (VText "-2") (VText "0.1");
    Row.mk "BTC" "short" (VText "0.005") (VText "0.1");
    Row.mk "ETH" "long" VNull VNull ].

(** A single closed trade. *)
Definition oneRow : list Row.t :=
  [ Row.mk "BTC" "long" (VNum (Fin 5)) (VNum (Fin (1 # 10))) ].

(** A closed trade whose pnl column holds text that is not a number. *)
Definition badRow : list Row.t :=
  [ Row.mk "BTC" "long" (VText "abc") (VText "0.1") ].

Definition sampleReport : Report :=
  summarize (secondLoop sampleRows (firstLoop sampleRows)) (winLossSums sampleRows).

End AnalyzeTradesSamples.

Module CheckConsistencySpec.
Import CheckConsistency.

(** The two positions differ in one of the three ways the comparison
    reports. *)
Definition differ (d : DbPosition.t) (e : ExchangePosition.t) : Prop :=
  DbPosition.side d <> ExchangePosition.side e
  \/ gt (abs (sub (abs (ExchangePosition.size e)) (abs (DbPosition.quantity d))))
        (Fin (1 # 10000)) = true
  \/ (truthy (DbPosition.leverage d) = true
      /\ truthy (ExchangePosition.leverage e) = true
      /\ strictEq (DbPosition.leverage d) (ExchangePosition.leverage e) = false).

(** What a run may change: the console, and the database handle being
    closed.  The tables and the exchange stay as they were. *)
Definition sameState (w w' : World) : Prop :=
  w'.(db).(positions) = w.(db).(positions)
  /\ w'.(db).(trades) = w.(db).(trades)
  /\ w'.(exchange) = w.(exchange)
  /\ exists out, w'.(console) = w.(console) ++ out.

Definition readOnly (A : Type) (c : M A) : Prop :=
  forall w, sameState w (fst (c w)).

End CheckConsistencySpec.

Module ProtectionSamples.
Import ProtectionEngine.
Local Open Scope Q_scope.

(** The configuration the Alpha Beta parameters load to. *)
Definition alphaBetaConfig : ProtectionConfig :=
  {| stopLossLow := -5; stopLossMid := -4; stopLossHigh := -(35 # 10);
     trailingLevels := [(3, 1); (6, 3); (10, 6)];
     takeProfitStages := [(5, 50); (10, 30); (15, 20)];
     peakDrawdownProtectionPercent := 50; maxIdleHours := 8;
     enableCodeLevelProtection := true;
     allowAiOverrideProtection := true |}.


(** A long position opened at [entry] with the given leverage and peak. *)
Definition longPosition (entry : Q) (leverage : Z) (peak : Q) : Position :=
  {| symbol := "BTC"; side := long; quantity := 5; entryPrice := entry;
     currentPrice := entry; leverage := leverage; openedAt := 0%Z;
     peakPnlPercent := peak; trailingFloorPercent := None;
     completedStages := []; generation := 0; actionPending := false |}.

End ProtectionSamples.

Module ActionExecutorSamples.
Import ProtectionEngine ProtectionSamples ActionExecutor.
Local Open Scope Q_scope.

(** A ledger with one long position of 5 BTC at generation 0. *)
Definition sampleState : State :=
  {| ledger := [("BTC"%string, longPosition 100 7 0)];
     orders := []; tradeLog := []; alerts := [] |}.

Definition sampleFill : Fill :=
  {| f_orderId := 1; f_price := 96; f_fee := 1 # 10; f_timestamp := 0%Z |}.

Definition stopDecision : Decision :=
  {| d_symbol := "BTC"; d_action := HardStopLoss; d_generation := 0 |}.

Definition partialDecision : Decision :=
  {| d_symbol := "BTC"; d_action := PartialClose 5; d_generation := 0 |}.

End ActionExecutorSamples.

(* ================================================================== *)
(** * The advice of the trade statistics *)
(* ================================================================== *)

Module AnalyzeTradesAdvice.
Import AnalyzeTrades.

(** The three-way messages on the overall win rate and profit factor. *)
Inductive Grade : Type := Poor | Fair | Good.

(** [overallWinRate < 50], [< 60], else. *)
Definition winRateGrade (overallWinRate : number) : Grade :=
  if lt overallWinRate (Fin 50) then Poor
  else if lt overallWinRate (Fin 60) then Fair
  else Good.

(** [overallProfitFactor < 1.5], [< 2], else. *)
Definition profitFactorGrade (overallProfitFactor : number) : Grade :=
  if lt overallProfitFactor (Fin (15 # 10)) then Poor
  else if lt overallProfitFactor (Fin 2) then Fair
  else Good.

Inductive Direction : Type := Long | Short.

(** The long/short message: balanced, or the better side. *)
Inductive Balance : Type :=
| Balanced
| Favours (betterSide : Direction).

(** [Math.abs(longWinRate - shortWinRate) > 15], and then
    [longWinRate > shortWinRate ? long : short]. *)
Definition balanceOf (longWinRate shortWinRate : number) : Balance :=
  if gt (abs (sub longWinRate shortWinRate)) (Fin 15)
  then Favours (if gt longWinRate shortWinRate then Long else Short)
  else Balanced.

(** [sortedStats.filter(s => s.netPnl < 0)] *)
Definition lossSymbols (sortedStats : list TradeStats) : list TradeStats :=
  filter (fun s => lt s.(netPnl) zero) sortedStats.

(** [sortedStats.filter(s => s.winRate < 40)] *)
Definition lowWinRateSymbols (sortedStats : list TradeStats) : list TradeStats :=
  filter (fun s => lt s.(winRate) (Fin 40)) sortedStats.

(** What the last section prints, before formatting; [bestSymbol] is
    [sortedStats[0]] and [worstSymbol] is
    [sortedStats[sortedStats.length - 1]]. *)
Record Advice : Type := mkAdvice {
  bestSymbol : option TradeStats;
  worstSymbol : option TradeStats;
  onWinRate : Grade;
  onProfitFactor : Grade;
  onBalance : Balance;
  losing : list TradeStats;
  lowWinRate : list TradeStats;
}.

Definition advise (report : Report) : Advice :=
  {| bestSymbol := nth_error report.(sortedStats) 0;
     worstSymbol :=
       nth_error report.(sortedStats) (List.length report.(sortedStats) - 1);
     onWinRate := winRateGrade report.(overallWinRate);
     onProfitFactor := profitFactorGrade report.(overallProfitFactor);
     onBalance :=
       balanceOf report.(overallLongWinRate) report.(overallShortWinRate);
     losing := lossSymbols report.(sortedStats);
     lowWinRate := lowWinRateSymbols report.(sortedStats) |}.

End AnalyzeTradesAdvice.

Module AnalyzeTradesMore.
Import AnalyzeTrades AnalyzeTradesSpec.

(** The largest of the keys met so far, as the loops keep it:
    [if (key(x) > key(best)) best = x]. *)
Definition keep (key : number -> number) (best x : number) : number :=
  if gt (key x) (key best) then x else best.

(** A number that is not [NaN]. *)
Definition ordered (x : number) : Prop := x <> NaN.

(** [a >= b] on the net pnl of two entries. *)
Definition netGe (a b : TradeStats) : Prop := ge a.(netPnl) b.(netPnl) = true.

(** The winning rows of one side. *)
Definition sideWins (side : string) (rows : list Row.t) : list Row.t :=
  ofSide side (classified Win rows).

(** An entry whose net pnl is a finite number. *)
Definition finiteNet (s : TradeStats) : Prop := isFinite s.(netPnl) = true.

(** [1] for a row of the given side, [0] for any other. *)
Definition sideIndicator (side : string) (trade : Row.t) : nat :=
  if String.eqb (Row.side trade) side then 1 else 0.

End AnalyzeTradesMore.

Module AnalyzeTradesMoreSamples.
Import AnalyzeTrades.

(** A history without a losing trade. *)
Definition winningRows : list Row.t :=
  [ Row.mk "BTC" "long" (VText "5") (VText "0.1");
    Row.mk "ETH" "short" (VText "2.5") (VText "0.1") ].

Definition winningReport : Report :=
  summarize (secondLoop winningRows (firstLoop winningRows))
            (winLossSums winningRows).

End AnalyzeTradesMoreSamples.

(* ================================================================== *)
(** * More on the positions of the consistency check *)
(* ================================================================== *)

Module CheckConsistencyMore.
Import CheckConsistency CheckConsistencySpec.

(** The character [c] does not occur in [s]. *)
Fixpoint without (c : ascii) (s : string) : Prop :=
  match s with
  | EmptyString => True
  | String c' r => c' <> c /\ without c r
  end.




(** A raw position as the exchange reports a short of 5 BTC at 7x. *)
Definition rawShort : RawPosition.t :=
  {| RawPosition.size := VText "-5"; RawPosition.contract := "BTC_USDT";
     RawPosition.entryPrice := VText "100.5"; RawPosition.markPrice := VNum (Fin 99);
     RawPosition.leverage := VText "7"; RawPosition.unrealisedPnl := VNull |}.


End CheckConsistencyMore.

(* ================================================================== *)
(** * Terminal encoding helpers of [src/strategies/alphaBeta.ts] *)
(* ================================================================== *)

Module Encoding.

(** A JavaScript string is the list of its UTF-16 code units. *)
Definition jsString : Type := list N.

(** The code units of an ASCII literal of the source. *)
Definition units (s : string) : jsString :=
  map N_of_ascii (list_ascii_of_string s).

Fixpoint sameUnits (a b : jsString) : bool :=
  match a, b with
  | [], [] => true
  | x :: a', y :: b' => N.eqb x y && sameUnits a' b'
  | _, _ => false
  end.

Fixpoint startsWith (p s : jsString) : bool :=
  match p, s with
  | [], _ => true
  | _ :: _, [] => false
  | x :: p', y :: s' => N.eqb x y && startsWith p' s'
  end.

(** [String.prototype.includes]. *)
Fixpoint includes (p s : jsString) : bool :=
  match s with
  | [] => startsWith p []
  | _ :: r => startsWith p s || includes p r
  end.

(** [String.prototype.toLowerCase] on the letters A to Z; other code
    units are kept.  Unicode lower-casing maps no unit outside A to Z
    to a letter, digit or hyphen of the text searched for below, so the
    searches give the same answer. *)
Definition lowerUnit (u : N) : N :=
  if (65 <=? u)%N && (u <=? 90)%N then (u + 32)%N else u.

Definition toLowerCase (s : jsString) : jsString := map lowerUnit s.

(** What the helpers read of [process]: the platform and five
    environment variables, each unset or a string. *)
Record Process : Type := mkProcess {
  platform : jsString;
  LANG : option jsString;
  LC_ALL : option jsString;
  LC_CTYPE : option jsString;
  TERM_PROGRAM : option jsString;
  TERM : option jsString;
}.

(** [a || b] on values that are undefined or strings: the empty string
    is falsy. *)
Definition orElse (a b : option jsString) : option jsString :=
  match a with
  | Some (_ :: _) => a
  | _ => b
  end.

Definition orEmpty (a : option jsString) : jsString :=
  match a with
  | Some (u :: r) => u :: r
  | _ => []
  end.

Definition isWindows (p : Process) : bool :=
  sameUnits p.(platform) (units "win32").

Definition isUtf8Supported (p : Process) : bool :=
  let lang := orElse (orElse p.(LANG) p.(LC_ALL)) p.(LC_CTYPE) in
  if match lang with
     | Some (u :: r) => includes (units "utf-8") (toLowerCase (u :: r))
     | _ => false
     end
  then true
  else
    if isWindows p then
      let termProgram := orEmpty p.(TERM_PROGRAM) in
      let term := orEmpty p.(TERM) in
      if includes (units "Git") termProgram
         || includes (units "xterm") term
         || includes (units "msys") term
      then true
      else false
    else false.

Definition isHighSurrogate (u : N) : bool := ((55296 <=? u) && (u <=? 56319))%N.
Definition isLowSurrogate (u : N) : bool := ((56320 <=? u) && (u <=? 57343))%N.

(** The UTF-8 bytes of one code point. *)
Definition encodePoint (c : N) : list N :=
  (if c <? 128 then [c]
   else if c <? 2048 then [192 + c / 64; 128 + c mod 64]
   else if c <? 65536
        then [224 + c / 4096; 128 + (c / 64) mod 64; 128 + c mod 64]
        else [240 + c / 262144; 128 + (c / 4096) mod 64;
              128 + (c / 64) mod 64; 128 + c mod 64])%N.

(** U+FFFD, which stands for a surrogate without its partner. *)
Definition replacement : list N := [239; 191; 189]%N.

(** [Buffer.from(text, 'utf8')]: surrogate pairs are joined into one
    code point, lone surrogates replaced. *)
Fixpoint bufferFromUtf8 (text : jsString) : list N :=
  match text with
  | [] => []
  | u :: r =>
      if isHighSurrogate u then
        match r with
        | l :: r' =>
            if isLowSurrogate l
            then encodePoint (65536 + (u - 55296) * 1024 + (l - 56320))%N
                 ++ bufferFromUtf8 r'
            else replacement ++ bufferFromUtf8 r
        | [] => replacement
        end
      else if isLowSurrogate u then replacement ++ bufferFromUtf8 r
      else encodePoint u ++ bufferFromUtf8 r
  end.

(** [buffer.toString('binary')]: every byte becomes the code unit of
    the same value. *)
Definition toBinaryString (bytes : list N) : jsString := map (fun b => b) bytes.

Definition ensureTerminalDisplay (p : Process) (text : jsString) : jsString :=
  if isWindows p && negb (isUtf8Supported p)
  then toBinaryString (bufferFromUtf8 text)
  else text.

(** Arguments of a logger: strings, and values of any other type. *)
Inductive Arg (V : Type) : Type :=
| Str (s : jsString)
| Other (v : V).
Arguments Str {V} s.
Arguments Other {V} v.

(** A logger acts on a state and returns, or throws ([None]). *)
Definition Logger (V S R : Type) : Type := list (Arg V) -> S -> S * option R.

Definition processArg (V : Type) (p : Process) (arg : Arg V) : Arg V :=
  match arg with
  | Str s => Str (ensureTerminalDisplay p s)
  | Other v => Other v
  end.

Definition createSafeLogger (V S R : Type) (p : Process)
    (logger : Logger V S R) : Logger V S R :=
  fun args s =>
    let processedArgs := map (processArg p) args in
    match logger processedArgs s with
    | (s1, Some r) => (s1, Some r)
    | (s1, None) => logger args s1
    end.

End Encoding.

Module EncodingSpec.
Import Encoding.

(** A code unit of the ASCII range. *)
Definition asciiUnit (u : N) : Prop := (u < 128)%N.


(** The terminal is a Windows one that is not known to take UTF-8. *)
Definition legacy (p : Process) : bool := isWindows p && negb (isUtf8Supported p).

Definition asciiArg (V : Type) (arg : Arg V) : Prop :=
  match arg with
  | Str s => Forall asciiUnit s
  | Other _ => True
  end.

End EncodingSpec.

Module EncodingSamples.
Import Encoding.

Definition legacyWindows : Process :=
  {| platform := units "win32"; LANG := None; LC_ALL := None; LC_CTYPE := None;
     TERM_PROGRAM := None; TERM := None |}.

Definition posixC : Process :=
  {| platform := units "linux"; LANG := Some (units "C");
     LC_ALL := Some (units "en_US.UTF-8"); LC_CTYPE := None;
     TERM_PROGRAM := None; TERM := Some (units "xterm") |}.

(** The two code units of "中文". *)
Definition chinese : jsString := [20013; 25991]%N.

End EncodingSamples.

(* ================================================================== *)
(** * The monitor page: colour scheme, login, closing a position *)
(* ================================================================== *)

Module TradingMonitor.

(** ** Colour scheme *)

(** The body class, the saved scheme in local storage, and the text of
    the toggle button when the page has one. *)
Record Theme : Type := mkTheme {
  reversed : bool;
  colorScheme : option string;
  button : option string;
}.

Definition updateButtonText (text : string) (t : Theme) : Theme :=
  match t.(button) with
  | Some _ => {| reversed := t.(reversed); colorScheme := t.(colorScheme);
                 button := Some ("THEME: " ++ text)%string |}
  | None => t
  end.

Definition setReversed (b : bool) (t : Theme) : Theme :=
  {| reversed := b; colorScheme := t.(colorScheme); button := t.(button) |}.

Definition setItem (v : string) (t : Theme) : Theme :=
  {| reversed := t.(reversed); colorScheme := Some v; button := t.(button) |}.

Definition isReversedScheme (saved : option string) : bool :=
  match saved with
  | Some s => String.eqb s "reversed"
  | None => false
  end.

Definition loadColorScheme (t : Theme) : Theme :=
  if isReversedScheme t.(colorScheme)
  then updateButtonText "Red down / Green up" (setReversed true t)
  else updateButtonText "Red up / Green down" (setReversed false t).

Definition toggleColorScheme (t : Theme) : Theme :=
  if t.(reversed)
  then setItem "default"
         (updateButtonText "Red up / Green down" (setReversed false t))
  else setItem "reversed"
         (updateButtonText "Red down / Green up" (setReversed true t)).

Fixpoint clicks (n : nat) (t : Theme) : Theme :=
  match n with
  | O => t
  | S k => toggleColorScheme (clicks k t)
  end.

(** ** Login and closing a position *)

Inductive ToastType : Type := success | error | warning | info.

Record Toast : Type := mkToast { title : string; toastType : ToastType }.

(** The JSON body of a close request. *)
Record CloseRequest : Type := mkRequest { symbol : string; sentPassword : string }.

(** What comes back: the call or the handling of its result throws, or
    there is an answer with a status and a success flag. *)
Inductive CloseResponse : Type :=
| Threw
| Answer (status : nat) (succeeded : bool).

(** The page: the two fields of the monitor, the session storage item
    'close_position_password', the modal and its input, the label of
    the login button, the toasts shown so far, the close requests sent
    so far, whether the close buttons are disabled, and how often the
    positions were reloaded. *)
Record Page : Type := mkPage {
  password : option string;
  isLoggedIn : bool;
  session : option string;
  modalShown : bool;
  passwordInput : string;
  loginLabel : string;
  toasts : list Toast;
  sent : list CloseRequest;
  buttonsDisabled : bool;
  positionLoads : nat;
}.

Definition truthyText (s : option string) : bool :=
  match s with
  | Some s' => negb (String.eqb s' "")
  | None => false
  end.

Definition showToast (t : string) (k : ToastType) (pg : Page) : Page :=
  {| password := pg.(password); isLoggedIn := pg.(isLoggedIn);
     session := pg.(session); modalShown := pg.(modalShown);
     passwordInput := pg.(passwordInput); loginLabel := pg.(loginLabel);
     toasts := pg.(toasts) ++ [mkToast t k]; sent := pg.(sent);
     buttonsDisabled := pg.(buttonsDisabled);
     positionLoads := pg.(positionLoads) |}.

Definition updateLoginButton (pg : Page) : Page :=
  {| password := pg.(password); isLoggedIn := pg.(isLoggedIn);
     session := pg.(session); modalShown := pg.(modalShown);
     passwordInput := pg.(passwordInput);
     loginLabel := if pg.(isLoggedIn) then "Log Out"%string else "Log In"%string;
     toasts := pg.(toasts); sent := pg.(sent);
     buttonsDisabled := pg.(buttonsDisabled);
     positionLoads := pg.(positionLoads) |}.

Definition loadPositionsData (pg : Page) : Page :=
  {| password := pg.(password); isLoggedIn := pg.(isLoggedIn);
     session := pg.(session); modalShown := pg.(modalShown);
     passwordInput := pg.(passwordInput); loginLabel := pg.(loginLabel);
     toasts := pg.(toasts); sent := pg.(sent);
     buttonsDisabled := pg.(buttonsDisabled);
     positionLoads := S pg.(positionLoads) |}.

Definition setLogin (pw : option string) (logged : bool) (stored : option string)
    (pg : Page) : Page :=
  {| password := pw; isLoggedIn := logged; session := stored;
     modalShown := pg.(modalShown); passwordInput := pg.(passwordInput);
     loginLabel := pg.(loginLabel); toasts := pg.(toasts); sent := pg.(sent);
     buttonsDisabled := pg.(buttonsDisabled);
     positionLoads := pg.(positionLoads) |}.

Definition checkLoginStatus (pg : Page) : Page :=
  if truthyText pg.(session)
  then updateLoginButton (setLogin pg.(session) true pg.(session) pg)
  else pg.

Definition login (pw : string) (pg : Page) : Page :=
  showToast "Logged in" success
    (loadPositionsData (updateLoginButton (setLogin (Some pw) true (Some pw) pg))).

Definition logout (pg : Page) : Page :=
  showToast "Logged out" info
    (loadPositionsData (updateLoginButton (setLogin None false None pg))).

Definition setModal (shown : bool) (input : string) (pg : Page) : Page :=
  {| password := pg.(password); isLoggedIn := pg.(isLoggedIn);
     session := pg.(session); modalShown := shown; passwordInput := input;
     loginLabel := pg.(loginLabel); toasts := pg.(toasts); sent := pg.(sent);
     buttonsDisabled := pg.(buttonsDisabled);
     positionLoads := pg.(positionLoads) |}.

Definition closeModal (pg : Page) : Page := setModal false "" pg.

Definition clickLogin (pg : Page) : Page :=
  if pg.(isLoggedIn) then logout pg else setModal true "" pg.

Definition setButtons (disabled : bool) (pg : Page) : Page :=
  {| password := pg.(password); isLoggedIn := pg.(isLoggedIn);
     session := pg.(session); modalShown := pg.(modalShown);
     passwordInput := pg.(passwordInput); loginLabel := pg.(loginLabel);
     toasts := pg.(toasts); sent := pg.(sent); buttonsDisabled := disabled;
     positionLoads := pg.(positionLoads) |}.

Definition fetchClose (r : CloseRequest) (pg : Page) : Page :=
  {| password := pg.(password); isLoggedIn := pg.(isLoggedIn);
     session := pg.(session); modalShown := pg.(modalShown);
     passwordInput := pg.(passwordInput); loginLabel := pg.(loginLabel);
     toasts := pg.(toasts); sent := pg.(sent) ++ [r];
     buttonsDisabled := pg.(buttonsDisabled);
     positionLoads := pg.(positionLoads) |}.

(** [closePosition] up to the request: the guard, the buttons, the
    request with the password held at that moment. *)
Definition closePositionSend (sym : string) (pg : Page) : Page :=
  match pg.(isLoggedIn), pg.(password) with
  | true, Some pw =>
      if String.eqb pw "" then showToast "Not logged in" warning pg
      else fetchClose (mkRequest sym pw) (setButtons true pg)
  | _, _ => showToast "Not logged in" warning pg
  end.

Definition requestGoesOut (pg : Page) : bool :=
  pg.(isLoggedIn) && truthyText pg.(password).

(** [closePosition] from the answer on, with its [finally]. *)
Definition closePositionSettle (resp : CloseResponse) (pg : Page) : Page :=
  setButtons false
    match resp with
    | Answer status succeeded =>
        if succeeded
        then loadPositionsData (showToast "Position closed" success pg)
        else if Nat.eqb status 403
             then logout (showToast "Incorrect password" error pg)
             else showToast "Close failed" error pg
    | Threw => showToast "Close failed" error pg
    end.

Definition closePosition (sym : string) (resp : CloseResponse) (pg : Page) : Page :=
  if requestGoesOut pg
  then closePositionSettle resp (closePositionSend sym pg)
  else closePositionSend sym pg.

Section Handlers.

(** [String.prototype.trim], whatever it removes. *)
Variable trim : string -> string.

Definition clickConfirm (pg : Page) : Page :=
  let pw := trim pg.(passwordInput) in
  if negb (String.eqb pw "")
  then closeModal (login pw pg)
  else showToast "Input error" warning pg.

(** What can happen on the page once [init] has run.  An answer may
    arrive at any later moment, so the two halves of [closePosition]
    are separate events. *)
Inductive Event : Type :=
| LoginClicked
| Typed (text : string)
| ConfirmClicked
| CancelClicked
| CloseClicked (sym : string)
| Answered (resp : CloseResponse).

Definition handle (pg : Page) (e : Event) : Page :=
  match e with
  | LoginClicked => clickLogin pg
  | Typed text => setModal pg.(modalShown) text pg
  | ConfirmClicked => clickConfirm pg
  | CancelClicked => closeModal pg
  | CloseClicked sym => closePositionSend sym pg
  | Answered resp => closePositionSettle resp pg
  end.

(** The page the constructor leaves, with whatever the session storage
    holds from before, after [checkLoginStatus]. *)
Definition opened (stored : option string) : Page :=
  checkLoginStatus
    {| password := None; isLoggedIn := false; session := stored;
       modalShown := false; passwordInput := ""; loginLabel := "Log In";
       toasts := []; sent := []; buttonsDisabled := false;
       positionLoads := 0 |}.

Definition run (stored : option string) (events : list Event) : Page :=
  fold_left handle events (opened stored).

Fixpoint typedTexts (events : list Event) : list string :=
  match events with
  | [] => []
  | Typed text :: r => text :: typedTexts r
  | _ :: r => typedTexts r
  end.

End Handlers.

End TradingMonitor.

Module TradingMonitorSpec.
Import TradingMonitor.

(** The login fields agree with the session storage. *)
Definition mirrors (pg : Page) : Prop :=
  if truthyText pg.(session)
  then pg.(isLoggedIn) = true /\ pg.(password) = pg.(session)
  else pg.(isLoggedIn) = false /\ pg.(password) = None.

Definition labelFor (b : bool) : string :=
  if b then "THEME: Red down / Green up"%string
  else "THEME: Red up / Green down"%string.

(** A password that is not empty and was in the session storage when
    the page opened, or is one of the typed texts, trimmed. *)
Definition sourced (trim : string -> string) (stored : option string)
    (texts : list string) (pw : string) : Prop :=
  pw <> ""%string /\ (stored = Some pw \/ In pw (map trim texts)).

(** What holds of the page after every event. *)
Definition invariant (trim : string -> string) (stored : option string)
    (texts : list string) (pg : Page) : Prop :=
  mirrors pg
  /\ pg.(loginLabel) = (if pg.(isLoggedIn) then "Log Out" else "Log In")%string
  /\ (forall pw, pg.(password) = Some pw -> sourced trim stored texts pw)
  /\ (forall r, In r pg.(sent) -> sourced trim stored texts r.(sentPassword))
  /\ (pg.(passwordInput) = ""%string \/ In pg.(passwordInput) texts).

End TradingMonitorSpec.

(* ================================================================== *)
(** * Facts about numbers *)
(* ================================================================== *)

Module JsNumberFacts.
Import JsNumberSpec.

Lemma Qltb_lt (a b : Q) : Qltb a b = true <-> (a < b)%Q.
Proof.
  unfold Qltb. rewrite negb_true_iff. split; intro H.
  - apply Qnot_le_lt. intro Hle. apply Qle_bool_iff in Hle. congruence.
  - destruct (Qle_bool b a) eqn:E; trivial.
    apply Qle_bool_iff in E. exfalso. apply (Qlt_not_le _ _ H E).
Qed.

Lemma Qltb_ge (a b : Q) : Qltb a b = false <-> (b <= a)%Q.
Proof.
  unfold Qltb. rewrite negb_false_iff. apply Qle_bool_iff.
Qed.

Lemma Qeq_bool_false (a b : Q) : Qeq_bool a b = false <-> ~ (a == b)%Q.
Proof.
  split.
  - intros H E. apply Qeq_bool_iff in E. congruence.
  - intro H. destruct (Qeq_bool a b) eqn:E; trivial.
    apply Qeq_bool_iff in E. contradiction.
Qed.

Lemma positive_cases (x : number) :
  positive x <-> x = PInf \/ exists q, x = Fin q /\ (0 < q)%Q.
Proof.
  unfold positive, gt, lt, zero. destruct x; simpl; split; intro H;
    try discriminate; auto.
  - destruct H as [H | [q [H _]]]; discriminate.
  - destruct H as [H | [q [H _]]]; discriminate.
  - right. exists q. split; trivial. now apply Qltb_lt.
  - destruct H as [H | [q' [H Hq]]]; [discriminate |].
    injection H as ->. now apply Qltb_lt.
Qed.

Lemma positive_nonneg (x : number) : positive x -> nonneg x.
Proof.
  intro H. apply positive_cases in H. destruct H as [-> | [q [-> Hq]]]; simpl.
  - exact I.
  - now apply Qlt_le_weak.
Qed.

Lemma nonneg_zero : nonneg zero.
Proof. simpl. apply Qle_refl. Qed.

Lemma add_nonneg_positive (a b : number) :
  nonneg a -> positive b -> positive (add a b).
Proof.
  intros Ha Hb. apply positive_cases in Hb. apply positive_cases.
  destruct Hb as [-> | [q [-> Hq]]]; destruct a; simpl in *; try contradiction;
    auto.
  right. eexists. split; [reflexivity |]. lra.
Qed.

Lemma sum_positive (l : list number) :
  forall acc, nonneg acc -> Forall positive l -> l <> [] ->
              positive (fold_left add l acc).
Proof.
  induction l as [| x r IH]; intros acc Hacc Hall Hne; [congruence |].
  inversion Hall as [| ? ? Hx Hr]; subst. simpl.
  assert (Hp : positive (add acc x)) by now apply add_nonneg_positive.
  destruct r as [| y r'].
  - exact Hp.
  - apply IH; [now apply positive_nonneg | assumption | discriminate].
Qed.

Lemma ofNat_pos (n : nat) : (0 < n)%nat -> (0 < inject_Z (Z.of_nat n))%Q.
Proof.
  intro H. unfold Qlt. simpl. lia.
Qed.

Lemma div_positive (s : number) (n : nat) :
  positive s -> (0 < n)%nat -> positive (div s (ofNat n)).
Proof.
  intros Hs Hn. pose proof (ofNat_pos Hn) as Hq.
  apply positive_cases in Hs. apply positive_cases. unfold ofNat.
  destruct Hs as [-> | [q [-> Hs]]]; simpl.
  - left. destruct (Qltb (inject_Z (Z.of_nat n)) 0) eqn:E; trivial.
    apply Qltb_lt in E. lra.
  - right. destruct (Qeq_bool (inject_Z (Z.of_nat n)) 0) eqn:E.
    + apply Qeq_bool_iff in E. lra.
    + eexists. split; [reflexivity |].
      apply Qlt_shift_div_l; lra.
Qed.

Lemma eqv_refl (x : number) : eqv x x.
Proof. destruct x; simpl; trivial. apply Qeq_refl. Qed.

Lemma add_zero_r (x : number) : eqv (add x zero) x.
Proof. destruct x; simpl; trivial. lra. Qed.

End JsNumberFacts.

(* ================================================================== *)
(** * Facts about maps and sorting *)
(* ================================================================== *)

Module JsMapFacts.
Section WithValue.
Variable V : Type.
Implicit Types (m : JsMap.t V) (k : string) (v : V).

Lemma get_set_same m k v : JsMap.get (JsMap.set m k v) k = Some v.
Proof.
  induction m as [| [k' v'] r IH]; simpl.
  - now rewrite String.eqb_refl.
  - destruct (String.eqb k' k) eqn:E; simpl; rewrite E; auto.
Qed.

Lemma get_set_other m k k' v :
  k <> k' -> JsMap.get (JsMap.set m k v) k' = JsMap.get m k'.
Proof.
  intro Hne. induction m as [| [k0 v0] r IH]; simpl.
  - apply String.eqb_neq in Hne. now rewrite Hne.
  - destruct (String.eqb k0 k) eqn:E; simpl.
    + apply String.eqb_eq in E. subst k0.
      apply String.eqb_neq in Hne. now rewrite Hne.
    + now rewrite IH.
Qed.

Lemma has_true m k : JsMap.has m k = true <-> exists v, JsMap.get m k = Some v.
Proof.
  unfold JsMap.has. destruct (JsMap.get m k); split; intro H;
    try discriminate; eauto.
  destruct H as [? H]. discriminate.
Qed.

Lemma has_false m k : JsMap.has m k = false <-> JsMap.get m k = None.
Proof.
  unfold JsMap.has. destruct (JsMap.get m k); split; intro H;
    try discriminate; auto.
Qed.

Lemma get_In m k v : JsMap.get m k = Some v -> In (k, v) m.
Proof.
  induction m as [| [k' v'] r IH]; simpl; [discriminate |].
  destruct (String.eqb k' k) eqn:E.
  - apply String.eqb_eq in E. intros [= ->]. subst. now left.
  - intro H. right. auto.
Qed.

Lemma get_None_keys m k : JsMap.get m k = None <-> ~ In k (JsMap.keys m).
Proof.
  induction m as [| [k' v'] r IH]; simpl.
  - tauto.
  - destruct (String.eqb k' k) eqn:E.
    + apply String.eqb_eq in E. split; [discriminate | tauto].
    + apply String.eqb_neq in E. rewrite IH. tauto.
Qed.

Lemma has_keys m k : JsMap.has m k = true <-> In k (JsMap.keys m).
Proof.
  destruct (JsMap.has m k) eqn:E.
  - split; trivial. intros _.
    destruct (in_dec string_dec k (JsMap.keys m)) as [H | H]; trivial.
    apply get_None_keys in H. apply has_false in H. congruence.
  - apply has_false in E. apply get_None_keys in E.
    split; [discriminate | contradiction].
Qed.

Lemma In_get m k v : NoDup (JsMap.keys m) -> In (k, v) m -> JsMap.get m k = Some v.
Proof.
  induction m as [| [k' v'] r IH]; simpl; [tauto |].
  intros Hnd [H | H].
  - injection H as -> ->. now rewrite String.eqb_refl.
  - inversion Hnd as [| ? ? Hnotin Hnd']; subst.
    destruct (String.eqb k' k) eqn:E.
    + apply String.eqb_eq in E. subst k'. exfalso. apply Hnotin.
      change k with (fst (k, v)). now apply in_map.
    + auto.
Qed.

Lemma keys_set_present m k v :
  In k (JsMap.keys m) -> JsMap.keys (JsMap.set m k v) = JsMap.keys m.
Proof.
  induction m as [| [k' v'] r IH]; simpl; [tauto |].
  intro H. destruct (String.eqb k' k) eqn:E; simpl; trivial.
  apply String.eqb_neq in E. destruct H as [H | H]; [congruence |].
  f_equal. auto.
Qed.

Lemma keys_set_absent m k v :
  ~ In k (JsMap.keys m) -> JsMap.keys (JsMap.set m k v) = JsMap.keys m ++ [k].
Proof.
  induction m as [| [k' v'] r IH]; simpl; trivial.
  intro H. destruct (String.eqb k' k) eqn:E; simpl.
  - apply String.eqb_eq in E. tauto.
  - f_equal. apply IH. tauto.
Qed.


Lemma NoDup_keys_set m k v :
  NoDup (JsMap.keys m) -> NoDup (JsMap.keys (JsMap.set m k v)).
Proof.
  intro Hnd. destruct (in_dec string_dec k (JsMap.keys m)) as [H | H].
  - now rewrite keys_set_present.
  - rewrite keys_set_absent by assumption.
    apply NoDup_rev in Hnd. rewrite <- (rev_involutive (_ ++ _)).
    apply NoDup_rev. rewrite rev_app_distr. simpl. constructor; trivial.
    now rewrite <- in_rev.
Qed.


(** ** [new Map(entries)] *)


Lemma ofEntries_from_NoDup (es : list (string * V)) :
  forall m, NoDup (JsMap.keys m) ->
    NoDup (JsMap.keys (fold_left (fun m e => JsMap.set m (fst e) (snd e)) es m)).
Proof.
  induction es as [| e r IH]; intros m H; simpl; trivial.
  apply IH. now apply NoDup_keys_set.
Qed.


Lemma NoDup_ofEntries (es : list (string * V)) :
  NoDup (JsMap.keys (JsMap.ofEntries es)).
Proof.
  apply ofEntries_from_NoDup. constructor.
Qed.


(** With distinct keys the map holds the entries themselves. *)
Lemma ofEntries_from_get (es : list (string * V)) :
  forall m k v,
    NoDup (map fst es) ->
    (forall k', In k' (map fst es) -> JsMap.get m k' = None) ->
    (JsMap.get (fold_left (fun m e => JsMap.set m (fst e) (snd e)) es m) k = Some v
     <-> JsMap.get m k = Some v \/ In (k, v) es).
Proof.
  induction es as [| [k0 v0] r IH]; intros m k v Hnd Hfresh; simpl.
  - tauto.
  - inversion Hnd as [| ? ? Hnotin Hnd']; subst. simpl in *.
    rewrite IH; trivial.
    + destruct (string_dec k0 k) as [-> | Hne].
      * rewrite get_set_same. rewrite (Hfresh k) by auto.
        split.
        -- intros [[= ->] | H]; auto.
        -- intros [H | [[= ->] | H]]; auto. discriminate.
      * rewrite get_set_other by assumption.
        split.
        -- intros [H | H]; auto.
        -- intros [H | [[= -> ->] | H]]; auto. congruence.
    + intros k' Hk'. rewrite get_set_other.
      * apply Hfresh. auto.
      * intros ->. contradiction.
Qed.

Lemma get_ofEntries_NoDup (es : list (string * V)) k v :
  NoDup (map fst es) ->
  (JsMap.get (JsMap.ofEntries es) k = Some v <-> In (k, v) es).
Proof.
  intro Hnd. unfold JsMap.ofEntries.
  rewrite ofEntries_from_get; trivial. simpl.
  split; [intros [H | H]; [discriminate | trivial] | auto].
Qed.

End WithValue.
End JsMapFacts.

Module JsArrayFacts.
Section Sort.
Variable A : Type.
Variable compareFn : A -> A -> number.

Lemma insert_perm (x : A) (l : list A) :
  Permutation (JsArray.insert compareFn x l) (x :: l).
Proof.
  induction l as [| y r IH]; cbn [JsArray.insert]; [reflexivity |].
  destruct (gt (compareFn x y) zero).
  - apply perm_trans with (y :: x :: r); [apply perm_skip; exact IH | apply perm_swap].
  - reflexivity.
Qed.

Lemma sort_perm (l : list A) : Permutation (JsArray.sort compareFn l) l.
Proof.
  induction l as [| x r IH]; simpl; [reflexivity |].
  eapply perm_trans; [apply insert_perm | apply perm_skip; exact IH].
Qed.

Lemma sort_In (l : list A) (x : A) : In x (JsArray.sort compareFn l) <-> In x l.
Proof.
  split; apply Permutation_in; [| symmetry]; apply sort_perm.
Qed.

End Sort.
End JsArrayFacts.

(* ================================================================== *)
(** * The trade statistics *)
(* ================================================================== *)

Module AnalyzeTradesFacts.
Import AnalyzeTrades AnalyzeTradesSpec JsNumberSpec JsNumberFacts.

Lemma entryOf_applyAll symbol rows :
  entryOf symbol rows = applyAll (ofSymbol symbol rows) (initStats symbol).
Proof. reflexivity. Qed.

(** ** Classification *)

Lemma classify_Win (pnl : number) : classify pnl = Win <-> gt pnl winThreshold = true.
Proof.
  unfold classify. destruct (gt pnl winThreshold); [tauto |].
  destruct (lt pnl lossThreshold); split; discriminate.
Qed.

Lemma classify_Loss (pnl : number) : classify pnl = Loss <-> lt pnl lossThreshold = true.
Proof.
  unfold classify. destruct (gt pnl winThreshold) eqn:Hw.
  - split; [discriminate |]. intro Hl. exfalso.
    unfold gt, lt, winThreshold, lossThreshold in *.
    destruct pnl; try discriminate.
    apply Qltb_lt in Hw, Hl. lra.
  - destruct (lt pnl lossThreshold); split; trivial; discriminate.
Qed.


(** ** The running entry of one symbol *)

Ltac by_rows rows stats :=
  revert stats; induction rows as [| trade rest IH]; intro stats;
  [ simpl; auto with arith
  | cbn [applyAll fold_left]; fold (applyAll rest (applyRow stats trade));
    rewrite IH; unfold applyRow, update, classified, ofSide; cbn [filter map fold_left
      symbol totalTrades winTrades lossTrades breakEvenTrades avgWin avgLoss
      totalPnl netPnl totalFees largestWin largestLoss longTrades shortTrades] ].

Lemma applyAll_symbol rows stats : (applyAll rows stats).(symbol) = stats.(symbol).
Proof. by_rows rows stats. reflexivity. Qed.

Lemma applyAll_totalTrades rows stats :
  (applyAll rows stats).(totalTrades) = stats.(totalTrades) + List.length rows.
Proof. by_rows rows stats. simpl. lia. Qed.

Lemma applyAll_winTrades rows stats :
  (applyAll rows stats).(winTrades)
  = stats.(winTrades) + List.length (classified Win rows).
Proof.
  by_rows rows stats. destruct (classify (pnlOf trade)); simpl; lia.
Qed.

Lemma applyAll_lossTrades rows stats :
  (applyAll rows stats).(lossTrades)
  = stats.(lossTrades) + List.length (classified Loss rows).
Proof.
  by_rows rows stats. destruct (classify (pnlOf trade)); simpl; lia.
Qed.

Lemma applyAll_breakEvenTrades rows stats :
  (applyAll rows stats).(breakEvenTrades)
  = stats.(breakEvenTrades) + List.length (classified BreakEven rows).
Proof.
  by_rows rows stats. destruct (classify (pnlOf trade)); simpl; lia.
Qed.

Lemma applyAll_longTrades rows stats :
  (applyAll rows stats).(longTrades)
  = stats.(longTrades) + List.length (ofSide "long" rows).
Proof.
  by_rows rows stats. destruct (String.eqb (Row.side trade) "long"); simpl; lia.
Qed.

Lemma applyAll_shortTrades rows stats :
  (applyAll rows stats).(shortTrades)
  = stats.(shortTrades) + List.length (ofSide "short" rows).
Proof.
  by_rows rows stats.
  destruct (String.eqb (Row.side trade) "long") eqn:El.
  - apply String.eqb_eq in El. rewrite El. simpl. lia.
  - destruct (String.eqb (Row.side trade) "short"); simpl; lia.
Qed.

Lemma applyAll_avgWin rows stats :
  (applyAll rows stats).(avgWin)
  = fold_left add (map pnlOf (classified Win rows)) stats.(avgWin).
Proof.
  by_rows rows stats. destruct (classify (pnlOf trade)); reflexivity.
Qed.

Lemma applyAll_avgLoss rows stats :
  (applyAll rows stats).(avgLoss)
  = fold_left add (map absPnlOf (classified Loss rows)) stats.(avgLoss).
Proof.
  by_rows rows stats. destruct (classify (pnlOf trade)); reflexivity.
Qed.

Lemma applyAll_totalPnl rows stats :
  (applyAll rows stats).(totalPnl)
  = fold_left add (map pnlOf rows) stats.(totalPnl).
Proof. by_rows rows stats. reflexivity. Qed.

Lemma applyAll_netPnl rows stats :
  (applyAll rows stats).(netPnl)
  = fold_left add (map pnlOf rows) stats.(netPnl).
Proof. by_rows rows stats. reflexivity. Qed.

(** ** The first loop *)

Lemma set_set (V : Type) (m : JsMap.t V) k (a b : V) :
  JsMap.set (JsMap.set m k a) k b = JsMap.set m k b.
Proof.
  induction m as [| [k' v'] r IH]; simpl.
  - now rewrite String.eqb_refl.
  - destruct (String.eqb k' k) eqn:E; simpl; rewrite E; trivial.
    now rewrite IH.
Qed.

(** One iteration sets the symbol's entry to its update. *)
Lemma step_set m trade :
  step m trade
  = JsMap.set m (Row.symbol trade) (applyRow (entryOr m (Row.symbol trade)) trade).
Proof.
  unfold step, entryOr, JsMap.has.
  destruct (JsMap.get m (Row.symbol trade)) as [stats |] eqn:E.
  - rewrite E. reflexivity.
  - rewrite JsMapFacts.get_set_same. apply set_set.
Qed.

Lemma firstLoop_snoc rows trade :
  firstLoop (rows ++ [trade]) = step (firstLoop rows) trade.
Proof. unfold firstLoop. now rewrite fold_left_app. Qed.

Lemma ofSymbol_snoc symbol rows trade :
  ofSymbol symbol (rows ++ [trade])
  = ofSymbol symbol rows
    ++ (if String.eqb (Row.symbol trade) symbol then [trade] else []).
Proof. unfold ofSymbol. rewrite filter_app. reflexivity. Qed.

Lemma firstLoop_get rows symbol :
  JsMap.get (firstLoop rows) symbol
  = match ofSymbol symbol rows with
    | [] => None
    | _ => Some (entryOf symbol rows)
    end.
Proof.
  induction rows as [| trade rows IH] using rev_ind; [reflexivity |].
  rewrite firstLoop_snoc, step_set, ofSymbol_snoc.
  destruct (String.eqb (Row.symbol trade) symbol) eqn:E.
  - apply String.eqb_eq in E. subst symbol.
    rewrite JsMapFacts.get_set_same.
    assert (Hentry : entryOr (firstLoop rows) (Row.symbol trade)
                     = entryOf (Row.symbol trade) rows).
    { unfold entryOr. rewrite IH.
      unfold entryOf. destruct (ofSymbol (Row.symbol trade) rows); reflexivity. }
    rewrite Hentry.
    replace (entryOf (Row.symbol trade) (rows ++ [trade]))
      with (applyRow (entryOf (Row.symbol trade) rows) trade).
    + destruct (ofSymbol (Row.symbol trade) rows); reflexivity.
    + unfold entryOf. rewrite ofSymbol_snoc, String.eqb_refl, fold_left_app.
      reflexivity.
  - apply String.eqb_neq in E. rewrite JsMapFacts.get_set_other by assumption.
    rewrite app_nil_r, IH. unfold entryOf.
    rewrite ofSymbol_snoc.
    apply String.eqb_neq in E. rewrite E, app_nil_r. reflexivity.
Qed.

Lemma firstLoop_NoDup rows : NoDup (JsMap.keys (firstLoop rows)).
Proof.
  induction rows as [| trade rows IH] using rev_ind; [constructor |].
  rewrite firstLoop_snoc, step_set. now apply JsMapFacts.NoDup_keys_set.
Qed.

Lemma entryOf_symbol symbol rows : (entryOf symbol rows).(AnalyzeTrades.symbol) = symbol.
Proof. rewrite entryOf_applyAll, applyAll_symbol. reflexivity. Qed.

Lemma ofSymbol_nonempty symbol rows :
  ofSymbol symbol rows <> [] <-> exists trade, In trade rows /\ Row.symbol trade = symbol.
Proof.
  unfold ofSymbol. split.
  - intro H. destruct (filter _ rows) as [| trade l] eqn:E; [congruence |].
    assert (Hin : In trade (filter (fun t => String.eqb (Row.symbol t) symbol) rows))
      by (rewrite E; now left).
    apply filter_In in Hin. destruct Hin as [Hin Heq].
    apply String.eqb_eq in Heq. eauto.
  - intros [trade [Hin Heq]] E.
    assert (H : In trade (filter (fun t => String.eqb (Row.symbol t) symbol) rows)).
    { apply filter_In. split; trivial. now apply String.eqb_eq. }
    rewrite E in H. contradiction.
Qed.

(** The entries of the map are the running entries of the symbols that
    occur. *)
Lemma firstLoop_values rows stats :
  In stats (JsMap.values (firstLoop rows))
  <-> exists symbol, ofSymbol symbol rows <> [] /\ stats = entryOf symbol rows.
Proof.
  unfold JsMap.values. rewrite in_map_iff. split.
  - intros [[k st] [Hst Hin]]. simpl in Hst. subst st.
    apply JsMapFacts.In_get in Hin; [| apply firstLoop_NoDup].
    rewrite firstLoop_get in Hin. exists k.
    destruct (ofSymbol k rows) eqn:E; [discriminate |].
    split; [discriminate | congruence].
  - intros [k [Hne ->]]. exists (k, entryOf k rows). split; trivial.
    apply JsMapFacts.get_In. rewrite firstLoop_get.
    destruct (ofSymbol k rows); [congruence | reflexivity].
Qed.

(** ** The report *)

Lemma analyzeTrades_Some rows report :
  analyzeTrades rows = Some report ->
  rows <> []
  /\ report = summarize (secondLoop rows (firstLoop rows)) (winLossSums rows).
Proof.
  unfold analyzeTrades. destruct rows; [discriminate |].
  intros [= <-]. split; [discriminate | reflexivity].
Qed.

Lemma sortedStats_In rows report stats :
  analyzeTrades rows = Some report ->
  (In stats report.(sortedStats)
   <-> exists symbol, ofSymbol symbol rows <> []
                      /\ stats = finish rows (entryOf symbol rows)).
Proof.
  intro H. apply analyzeTrades_Some in H. destruct H as [_ ->].
  cbn [summarize sortedStats]. rewrite JsArrayFacts.sort_In.
  unfold secondLoop. rewrite in_map_iff. split.
  - intros [st [<- Hin]]. apply firstLoop_values in Hin.
    destruct Hin as [k [Hne ->]]. eauto.
  - intros [k [Hne ->]]. exists (entryOf k rows). split; trivial.
    apply firstLoop_values. eauto.
Qed.


(** ** Counts summed over the symbols *)

Section Totals.
Variable f : TradeStats -> nat.
Variable delta : Row.t -> nat.
Hypothesis f_apply : forall stats trade, f (applyRow stats trade) = f stats + delta trade.
Hypothesis f_init : forall symbol, f (initStats symbol) = 0.

Lemma over_set m k stats :
  over f (JsMap.set m k stats) + f (entryOr m k) = over f m + f stats.
Proof.
  unfold over, entryOr. induction m as [| [k' v'] r IH]; simpl.
  - rewrite f_init. lia.
  - destruct (String.eqb k' k) eqn:E; simpl.
    + lia.
    + fold (JsMap.values r) in *. fold (JsMap.values (JsMap.set r k stats)) in *.
      lia.
Qed.

Lemma over_step m trade : over f (step m trade) = over f m + delta trade.
Proof.
  rewrite step_set.
  pose proof (over_set m (Row.symbol trade)
                (applyRow (entryOr m (Row.symbol trade)) trade)) as H.
  rewrite f_apply in H. lia.
Qed.

Lemma over_firstLoop rows : over f (firstLoop rows) = list_sum (map delta rows).
Proof.
  induction rows as [| trade rows IH] using rev_ind; [reflexivity |].
  rewrite firstLoop_snoc, over_step, IH, map_app, list_sum_app. simpl. lia.
Qed.

End Totals.

Lemma indicator_sum o rows :
  list_sum (map (indicator o) rows) = List.length (classified o rows).
Proof.
  unfold classified, indicator. induction rows as [| trade rest IH]; [reflexivity |].
  cbn [map list_sum filter].
  destruct (Outcome_eqb (classify (pnlOf trade)) o); simpl; lia.
Qed.

Lemma apply_winTrades stats trade :
  (applyRow stats trade).(winTrades) = stats.(winTrades) + indicator Win trade.
Proof.
  unfold applyRow, update, indicator. cbn [winTrades].
  destruct (classify (pnlOf trade)); simpl; lia.
Qed.

Lemma apply_lossTrades stats trade :
  (applyRow stats trade).(lossTrades) = stats.(lossTrades) + indicator Loss trade.
Proof.
  unfold applyRow, update, indicator. cbn [lossTrades].
  destruct (classify (pnlOf trade)); simpl; lia.
Qed.

Lemma apply_totalTrades stats trade :
  (applyRow stats trade).(totalTrades) = stats.(totalTrades) + 1.
Proof. unfold applyRow, update. cbn [totalTrades]. lia. Qed.

(** The totals of the third loop, field by field. *)
Lemma accumulate_counts (l : list TradeStats) :
  forall init,
    (fold_left accumulate l init).(t_totalTrades)
    = init.(t_totalTrades) + list_sum (map totalTrades l)
    /\ (fold_left accumulate l init).(t_winTrades)
       = init.(t_winTrades) + list_sum (map winTrades l)
    /\ (fold_left accumulate l init).(t_lossTrades)
       = init.(t_lossTrades) + list_sum (map lossTrades l).
Proof.
  induction l as [| stats rest IH]; intro init; simpl.
  - lia.
  - destruct (IH (accumulate init stats)) as [H1 [H2 H3]].
    rewrite H1, H2, H3. unfold accumulate. simpl. lia.
Qed.

Lemma list_sum_perm (l l' : list nat) : Permutation l l' -> list_sum l = list_sum l'.
Proof.
  induction 1; simpl; lia.
Qed.

Lemma finished_counts (g : TradeStats -> nat) rows :
  (forall wins stats, g (derive wins stats) = g stats) ->
  list_sum (map g (JsArray.sort byNetPnl (secondLoop rows (firstLoop rows))))
  = over g (firstLoop rows).
Proof.
  intro Hg. unfold over, secondLoop.
  rewrite (list_sum_perm
             (Permutation_map g (JsArrayFacts.sort_perm byNetPnl _))).
  rewrite map_map. f_equal. apply map_ext. intro stats. apply Hg.
Qed.

Lemma totals_counts rows report :
  analyzeTrades rows = Some report ->
  report.(totalStats).(t_totalTrades) = List.length rows
  /\ report.(totalStats).(t_winTrades) = List.length (classified Win rows)
  /\ report.(totalStats).(t_lossTrades) = List.length (classified Loss rows).
Proof.
  intro H. apply analyzeTrades_Some in H. destruct H as [_ ->].
  cbn [summarize totalStats withAverages t_totalTrades t_winTrades t_lossTrades].
  destruct (accumulate_counts
              (JsArray.sort byNetPnl (secondLoop rows (firstLoop rows))) initTotals)
    as [H1 [H2 H3]].
  rewrite H1, H2, H3. cbn [initTotals t_totalTrades t_winTrades t_lossTrades].
  rewrite !finished_counts by reflexivity.
  rewrite (over_firstLoop totalTrades (fun _ => 1) apply_totalTrades) by reflexivity.
  rewrite (over_firstLoop winTrades (indicator Win) apply_winTrades) by reflexivity.
  rewrite (over_firstLoop lossTrades (indicator Loss) apply_lossTrades) by reflexivity.
  rewrite !indicator_sum. repeat split.
  clear. induction rows; simpl; auto.
Qed.

(** The third scan of the rows. *)
Lemma winLossSums_spec rows :
  winLossSums rows
  = (sumOf pnlOf (classified Win rows), sumOf absPnlOf (classified Loss rows)).
Proof.
  unfold winLossSums, sumOf. generalize zero at 1 3. generalize zero.
  induction rows as [| trade rest IH]; intros a b; [reflexivity |].
  cbn [fold_left]. unfold sumsBody at 2. unfold classified in *.
  cbn [filter]. unfold classify.
  destruct (gt (pnlOf trade) winThreshold) eqn:Hw.
  - rewrite IH. reflexivity.
  - destruct (lt (pnlOf trade) lossThreshold) eqn:Hl; rewrite IH; reflexivity.
Qed.

(** ** Averages and ratios *)

Lemma averageOf_average (A : Type) (f : A -> number) (l : list A) :
  averageOf (fold_left add (map f l) zero) (List.length l) = average (map f l).
Proof.
  unfold averageOf, average. destruct l as [| x r]; [reflexivity |].
  cbn [map List.length Nat.ltb Nat.leb]. now rewrite length_map.
Qed.

Lemma loss_positive trade :
  classify (pnlOf trade) = Loss -> positive (absPnlOf trade).
Proof.
  intro H. apply classify_Loss in H. unfold absPnlOf.
  apply positive_cases. unfold lt, lossThreshold in H.
  destruct (pnlOf trade); try discriminate; simpl; auto.
  right. eexists. split; [reflexivity |].
  apply Qltb_lt in H.
  apply Qlt_le_trans with (- q)%Q; [lra |].
  rewrite <- Qabs_opp. apply Qle_Qabs.
Qed.

Lemma average_losses_positive rows :
  classified Loss rows <> [] ->
  positive (average (map absPnlOf (classified Loss rows))).
Proof.
  intro Hne. unfold average.
  destruct (map absPnlOf (classified Loss rows)) as [| x l] eqn:E.
  - destruct (classified Loss rows); [congruence | discriminate].
  - rewrite <- E. apply div_positive.
    + apply sum_positive.
      * apply nonneg_zero.
      * apply Forall_forall. intros y Hy. apply in_map_iff in Hy.
        destruct Hy as [trade [<- Hin]]. apply loss_positive.
        unfold classified in Hin. apply filter_In in Hin.
        destruct Hin as [_ Hc]. destruct (classify (pnlOf trade)); trivial;
          discriminate.
      * rewrite E. discriminate.
    + rewrite E. simpl. lia.
Qed.

Lemma ratioOf_profitFactorOf rows :
  ratioOf (average (map pnlOf (classified Win rows)))
          (average (map absPnlOf (classified Loss rows)))
  = profitFactorOf rows.
Proof.
  unfold profitFactorOf, ratioOf.
  destruct (classified Loss rows) as [| trade l] eqn:E.
  - reflexivity.
  - rewrite <- E.
    assert (H : positive (average (map absPnlOf (classified Loss rows))))
      by (apply average_losses_positive; rewrite E; discriminate).
    unfold positive in H. rewrite H. reflexivity.
Qed.

(** The derived fields of a finished entry. *)
Lemma finish_fields rows symbol :
  let mine := ofSymbol symbol rows in
  let stats := finish rows (entryOf symbol rows) in
  stats.(AnalyzeTrades.symbol) = symbol
  /\ stats.(totalTrades) = List.length mine
  /\ stats.(winTrades) = List.length (classified Win mine)
  /\ stats.(lossTrades) = List.length (classified Loss mine)
  /\ stats.(breakEvenTrades) = List.length (classified BreakEven mine)
  /\ stats.(avgWin) = average (map pnlOf (classified Win mine))
  /\ stats.(avgLoss) = average (map absPnlOf (classified Loss mine))
  /\ stats.(winRate)
     = percentOf (List.length (classified Win mine)) (List.length mine)
  /\ stats.(profitFactor) = profitFactorOf mine.
Proof.
  intros mine stats. subst stats. unfold finish, derive.
  cbn [AnalyzeTrades.symbol totalTrades winTrades lossTrades breakEvenTrades
       avgWin avgLoss winRate profitFactor].
  rewrite entryOf_applyAll. fold mine.
  rewrite applyAll_symbol, applyAll_totalTrades, applyAll_winTrades,
    applyAll_lossTrades, applyAll_breakEvenTrades, applyAll_avgWin,
    applyAll_avgLoss.
  cbn [initStats AnalyzeTrades.symbol totalTrades winTrades lossTrades
       breakEvenTrades avgWin avgLoss Nat.add].
  rewrite !averageOf_average, ratioOf_profitFactorOf.
  repeat split.
Qed.

End AnalyzeTradesFacts.

Module SinglePassFacts.
Import AnalyzeTrades AnalyzeTradesSpec AnalyzeTradesSamples.
Import JsNumberFacts AnalyzeTradesFacts.

(** ** The counted run *)

Lemma secondLoopCounted_spec rows entries :
  forall examined,
    secondLoopCounted rows entries examined
    = (map (finish rows) entries,
       examined + List.length entries * List.length rows).
Proof.
  induction entries as [| stats rest IH]; intro examined; simpl.
  - f_equal. lia.
  - rewrite IH. unfold finish, directionalWins. f_equal. lia.
Qed.

Lemma analyzeTradesCounted_spec rows :
  analyzeTradesCounted rows
  = (analyzeTrades rows,
     List.length rows * (2 + List.length (JsMap.keys (firstLoop rows)))).
Proof.
  destruct rows as [| trade rest]; [reflexivity |].
  unfold analyzeTradesCounted, analyzeTrades, forOf.
  rewrite secondLoopCounted_spec.
  fold (firstLoop (trade :: rest)). fold (winLossSums (trade :: rest)).
  unfold secondLoop. f_equal.
  unfold JsMap.values, JsMap.keys. rewrite !length_map. lia.
Qed.

(** The keys of the first loop are the distinct symbols of the rows. *)
Lemma firstLoop_keys rows symbol :
  In symbol (JsMap.keys (firstLoop rows)) <-> In symbol (map Row.symbol rows).
Proof.
  destruct (in_dec string_dec symbol (JsMap.keys (firstLoop rows))) as [H | H].
  - split; trivial. intros _.
    apply JsMapFacts.has_keys, JsMapFacts.has_true in H. destruct H as [v H].
    rewrite firstLoop_get in H.
    destruct (ofSymbol symbol rows) eqn:E; [discriminate |].
    assert (Hne : ofSymbol symbol rows <> []) by (rewrite E; discriminate).
    apply ofSymbol_nonempty in Hne. destruct Hne as [row [Hin <-]].
    now apply in_map.
  - split; [contradiction |]. intro Hin. exfalso. apply H.
    apply in_map_iff in Hin. destruct Hin as [row [<- Hin]].
    destruct (in_dec string_dec (Row.symbol row) (JsMap.keys (firstLoop rows)))
      as [H' | H']; trivial.
    apply JsMapFacts.get_None_keys in H'. rewrite firstLoop_get in H'.
    destruct (ofSymbol (Row.symbol row) rows) eqn:E; [| discriminate].
    assert (Hne : ofSymbol (Row.symbol row) rows <> [])
      by (apply ofSymbol_nonempty; eauto).
    congruence.
Qed.

Lemma distinct_symbols rows :
  List.length (JsMap.keys (firstLoop rows))
  = List.length (nodup string_dec (map Row.symbol rows)).
Proof.
  apply Permutation_length. apply NoDup_Permutation.
  - apply firstLoop_NoDup.
  - apply NoDup_nodup.
  - intro s. rewrite nodup_In. apply firstLoop_keys.
Qed.

(** ** The single pass *)

Lemma entries_set m k v :
  entries (JsMap.set m k v) = JsMap.set (entries m) k v.(entry).
Proof.
  unfold entries. induction m as [| [k' v'] r IH]; simpl; trivial.
  destruct (String.eqb k' k); simpl; trivial. now rewrite IH.
Qed.

Lemma entries_get m k :
  JsMap.get (entries m) k = option_map entry (JsMap.get m k).
Proof.
  unfold entries. induction m as [| [k' v'] r IH]; simpl; trivial.
  destruct (String.eqb k' k); simpl; trivial.
Qed.

Lemma entries_keys m : JsMap.keys (entries m) = JsMap.keys m.
Proof.
  unfold entries, JsMap.keys. rewrite map_map. reflexivity.
Qed.

Lemma winsOf_keyedUpdate trade k :
  winsOf (keyedUpdate trade k) = winsBody (Row.symbol trade) (winsOf k) trade.
Proof.
  unfold winsOf, keyedUpdate, winsBody. cbn [longWins shortWins].
  rewrite String.eqb_refl.
  destruct (gt (pnlOf trade) winThreshold); reflexivity.
Qed.

Lemma directionalWins_snoc rows trade symbol :
  directionalWins (rows ++ [trade]) symbol
  = winsBody symbol (directionalWins rows symbol) trade.
Proof. unfold directionalWins. now rewrite fold_left_app. Qed.

Lemma scanned_snoc rows trade :
  scanned (rows ++ [trade]) = singlePassStep (scanned rows) trade.
Proof. unfold scanned. now rewrite fold_left_app. Qed.

(** What the single pass holds after the rows: the entries of the first
    loop, for every symbol the wins its re-scan would count, and the
    sums of the third scan. *)
Lemma scanned_spec rows :
  entries (fst (scanned rows)) = firstLoop rows
  /\ (forall symbol,
        winsOf (keyedOr (fst (scanned rows)) symbol) = directionalWins rows symbol)
  /\ snd (scanned rows) = winLossSums rows.
Proof.
  induction rows as [| trade rows IH] using rev_ind.
  - repeat split.
  - destruct IH as [He [Hw Hs]].
    rewrite scanned_snoc. destruct (scanned rows) as [m sums] eqn:E.
    cbn [fst snd] in *. unfold singlePassStep. cbn [fst snd].
    fold (keyedOr m (Row.symbol trade)).
    split; [| split].
    + rewrite entries_set, firstLoop_snoc, step_set, He.
      f_equal. unfold keyedUpdate. cbn [entry]. unfold applyRow. f_equal.
      unfold keyedOr, entryOr. rewrite <- He, entries_get.
      destruct (JsMap.get m (Row.symbol trade)); reflexivity.
    + intro symbol. rewrite directionalWins_snoc, <- Hw.
      unfold keyedOr at 1.
      destruct (string_dec (Row.symbol trade) symbol) as [<- | Hne].
      * rewrite JsMapFacts.get_set_same. apply winsOf_keyedUpdate.
      * rewrite JsMapFacts.get_set_other by assumption.
        fold (keyedOr m symbol). unfold winsBody.
        apply String.eqb_neq in Hne. rewrite Hne.
        destruct (winsOf (keyedOr m symbol)); reflexivity.
    + subst sums. unfold winLossSums. now rewrite fold_left_app.
Qed.

Lemma scanned_NoDup rows : NoDup (JsMap.keys (fst (scanned rows))).
Proof.
  rewrite <- entries_keys. destruct (scanned_spec rows) as [-> _].
  apply firstLoop_NoDup.
Qed.

Lemma singlePass_analyzeTrades rows : singlePass rows = analyzeTrades rows.
Proof.
  destruct rows as [| trade rest]; [reflexivity |].
  unfold singlePass, analyzeTrades. fold (scanned (trade :: rest)).
  set (rows := trade :: rest).
  destruct (scanned_spec rows) as [He [Hw Hs]].
  pose proof (scanned_NoDup rows) as Hnd.
  destruct (scanned rows) as [m sums]. cbn [fst snd] in *.
  subst sums. f_equal. f_equal.
  unfold secondLoop. rewrite <- He. unfold entries, JsMap.values.
  rewrite !map_map. apply map_ext_in. intros [k v] Hin. cbn [fst snd].
  unfold finish. f_equal.
  assert (Hget : JsMap.get m k = Some v) by now apply JsMapFacts.In_get.
  assert (Hsym : v.(entry).(symbol) = k).
  { assert (Hg : JsMap.get (firstLoop rows) k = Some v.(entry))
      by (rewrite <- He, entries_get, Hget; reflexivity).
    rewrite firstLoop_get in Hg.
    destruct (ofSymbol k rows); [discriminate |].
    injection Hg as <-. apply entryOf_symbol. }
  rewrite Hsym, <- Hw. unfold keyedOr. rewrite Hget. reflexivity.
Qed.

End SinglePassFacts.

Module SinglePassTheorems.
Import AnalyzeTrades AnalyzeTradesSpec AnalyzeTradesSamples.
Import SinglePassFacts.

(** C8, as the code has it.  The report of [analyzeTrades] is the report
    of the single-pass aggregation keyed by symbol and side; the run
    itself is not a single pass: with [n] rows over [k] distinct symbols
    its loops examine [n * (2 + k)] rows, each row once in the first
    loop, once per symbol in the re-scan for the directional wins and
    once in the scan for the overall averages. *)
Theorem single_pass_equivalent (rows : list Row.t) :
  analyzeTrades rows = singlePass rows
  /\ fst (analyzeTradesCounted rows) = analyzeTrades rows
  /\ snd (analyzeTradesCounted rows)
     = List.length rows
       * (2 + List.length (nodup string_dec (map Row.symbol rows))).
Proof.
  rewrite analyzeTradesCounted_spec, singlePass_analyzeTrades, distinct_symbols.
  repeat split.
Qed.

(** C8, as stated, fails: on a result of one row the run examines a row
    three times, not once. *)
Lemma single_pass_counterexample :
  snd (analyzeTradesCounted oneRow) = 3
  /\ snd (analyzeTradesCounted oneRow) <> List.length oneRow.
Proof.
  split; [reflexivity | discriminate].
Qed.

End SinglePassTheorems.

Module AnalyzeTradesTheorems.
Import AnalyzeTrades AnalyzeTradesSpec AnalyzeTradesSamples.
Import JsNumberSpec JsNumberFacts AnalyzeTradesFacts.





(** C10. A pnl column that is null, missing or empty is read as [0] and
    the row is break-even; a pnl column holding text that is not a
    number is read as [NaN]: the row is break-even as well, but the
    symbol's and the overall total pnl become [NaN]. *)
Theorem unparsable_pnl_poisons_totals :
  eqv (parseOrZero VNull) zero
  /\ eqv (parseOrZero VUndefined) zero
  /\ eqv (parseOrZero (VText "")) zero
  /\ classify (parseOrZero VNull) = BreakEven
  /\ parseOrZero (VText "abc") = NaN
  /\ classify (parseOrZero (VText "abc")) = BreakEven
  /\ exists stats report,
       analyzeTrades badRow = Some report
       /\ report.(sortedStats) = [stats]
       /\ stats.(winTrades) = 0 /\ stats.(lossTrades) = 0
       /\ stats.(breakEvenTrades) = 1
       /\ stats.(largestWin) = zero /\ stats.(largestLoss) = zero
       /\ stats.(totalPnl) = NaN
       /\ stats.(netPnl) = NaN
       /\ report.(totalStats).(t_totalPnl) = NaN.
Proof.
  repeat split; try reflexivity.
  do 2 eexists. split; [reflexivity |]. repeat split; reflexivity.
Qed.

End AnalyzeTradesTheorems.

(* ================================================================== *)
(** * The consistency check *)
(* ================================================================== *)

Module CheckConsistencyFacts.
Import CheckConsistency CheckConsistencySpec JsNumberSpec JsNumberFacts.

Lemma Side_eqb_eq (a b : Side) : Side_eqb a b = true <-> a = b.
Proof. destruct a, b; simpl; split; intro; congruence. Qed.

Lemma issuesOf_nonempty d e :
  Nat.ltb 0 (List.length (issuesOf d e)) = true <-> differ d e.
Proof.
  unfold issuesOf, differ.
  assert (Hs : sideDiffers d e = true
               <-> DbPosition.side d <> ExchangePosition.side e).
  { unfold sideDiffers. rewrite negb_true_iff.
    destruct (Side_eqb (DbPosition.side d) (ExchangePosition.side e)) eqn:E.
    - apply Side_eqb_eq in E. split; [discriminate | congruence].
    - split; trivial. intros _ H. apply Side_eqb_eq in H. congruence. }
  assert (Hl : leverageDiffers d e = true
               <-> truthy (DbPosition.leverage d) = true
                   /\ truthy (ExchangePosition.leverage e) = true
                   /\ strictEq (DbPosition.leverage d)
                               (ExchangePosition.leverage e) = false).
  { unfold leverageDiffers. rewrite !andb_true_iff, negb_true_iff. tauto. }
  assert (Hq : qtyDiffers d e = true
               <-> gt (abs (sub (abs (ExchangePosition.size e))
                                (abs (DbPosition.quantity d))))
                      (Fin (1 # 10000)) = true) by reflexivity.
  rewrite <- Hs, <- Hq, <- Hl.
  destruct (sideDiffers d e), (qtyDiffers d e), (leverageDiffers d e);
    simpl; split; intro H; auto; try discriminate.
  destruct H as [H | [H | H]]; discriminate.
Qed.

Lemma mismatch_fold dbMap (l : list (string * ExchangePosition.t)) :
  forall acc s,
    In s (map fst (fold_left (mismatchStep dbMap) l acc))
    <-> In s (map fst acc)
        \/ exists e d, In (s, e) l /\ JsMap.get dbMap s = Some d /\ differ d e.
Proof.
  induction l as [| [k e0] r IH]; intros acc s; cbn [fold_left In].
  - split; auto. intros [H | [e [d [[] _]]]]. exact H.
  - rewrite IH. unfold mismatchStep.
    destruct (JsMap.get dbMap k) as [d0 |] eqn:Hd.
    + destruct (Nat.ltb 0 (List.length (issuesOf d0 e0))) eqn:Hi.
      * apply issuesOf_nonempty in Hi. rewrite map_app, in_app_iff. simpl.
        split.
        -- intros [[H | [<- | []]] | [e [d [Hin H]]]]; eauto 8.
        -- intros [H | [e [d [[Heq | Hin] H]]]]; eauto 8.
           injection Heq as <- <-. auto.
      * split.
        -- intros [H | [e [d [Hin H]]]]; eauto 8.
        -- intros [H | [e [d [[Heq | Hin] [Hg Hdiff]]]]]; eauto 8.
           injection Heq as <- <-. rewrite Hd in Hg. injection Hg as <-.
           apply issuesOf_nonempty in Hdiff. congruence.
    + split.
      * intros [H | [e [d [Hin H]]]]; eauto 8.
      * intros [H | [e [d [[Heq | Hin] [Hg Hdiff]]]]]; eauto 8.
        injection Heq as <- <-. congruence.
Qed.





Lemma mismatches_spec ex db s :
  In s (map fst (comparePositions ex db).(mismatches))
  <-> exists e d,
        JsMap.get (exchangeMapOf ex) s = Some e
        /\ JsMap.get (dbMapOf db) s = Some d
        /\ differ d e.
Proof.
  cbn [comparePositions mismatches]. rewrite mismatch_fold. simpl.
  assert (Hnd : NoDup (JsMap.keys (exchangeMapOf ex)))
    by apply JsMapFacts.NoDup_ofEntries.
  split.
  - intros [[] | [e [d [Hin H]]]]. exists e, d. split; trivial.
    now apply JsMapFacts.In_get.
  - intros [e [d [Hg H]]]. right. exists e, d. split; trivial.
    now apply JsMapFacts.get_In.
Qed.

(** With one position per symbol on each side, the positions compared
    are the positions of the snapshots. *)
Lemma mismatches_distinct ex db s :
  NoDup (map ExchangePosition.symbol ex) ->
  NoDup (map DbPosition.symbol db) ->
  (In s (map fst (comparePositions ex db).(mismatches))
   <-> exists e d,
         In e ex /\ ExchangePosition.symbol e = s
         /\ In d db /\ DbPosition.symbol d = s
         /\ differ d e).
Proof.
  intros Hex Hdb. rewrite mismatches_spec. unfold exchangeMapOf, dbMapOf.
  assert (He : forall e,
             JsMap.get (JsMap.ofEntries
                          (map (fun p => (ExchangePosition.symbol p, p)) ex)) s
             = Some e
             <-> In e ex /\ ExchangePosition.symbol e = s).
  { intro e. rewrite JsMapFacts.get_ofEntries_NoDup
      by (now rewrite map_map). rewrite in_map_iff. split.
    - intros [x [[= <- <-] Hin]]. auto.
    - intros [Hin <-]. eauto. }
  assert (Hd : forall d,
             JsMap.get (JsMap.ofEntries
                          (map (fun p => (DbPosition.symbol p, p)) db)) s
             = Some d
             <-> In d db /\ DbPosition.symbol d = s).
  { intro d. rewrite JsMapFacts.get_ofEntries_NoDup
      by (now rewrite map_map). rewrite in_map_iff. split.
    - intros [x [[= <- <-] Hin]]. auto.
    - intros [Hin <-]. eauto. }
  split.
  - intros [e [d [H1 [H2 H3]]]]. apply He in H1. apply Hd in H2.
    exists e, d. tauto.
  - intros [e [d [H1 [H2 [H3 [H4 H5]]]]]]. exists e, d.
    split; [apply He; auto | split; [apply Hd; auto | trivial]].
Qed.


End CheckConsistencyFacts.

Module CheckConsistencyTheorems.
Import CheckConsistency CheckConsistencySpec CheckConsistencyFacts.


End CheckConsistencyTheorems.

Module ReadOnlyFacts.
Import CheckConsistency CheckConsistencySpec.

Lemma sameState_refl w : sameState w w.
Proof.
  repeat split. exists []. now rewrite app_nil_r.
Qed.

Lemma sameState_trans w1 w2 w3 :
  sameState w1 w2 -> sameState w2 w3 -> sameState w1 w3.
Proof.
  intros [Hp [Ht [He [o1 Ho1]]]] [Hp' [Ht' [He' [o2 Ho2]]]].
  repeat split; try congruence.
  exists (o1 ++ o2). rewrite Ho2, Ho1. now rewrite app_assoc.
Qed.

Lemma readOnly_ret (A : Type) (a : A) : readOnly (ret a).
Proof. intro w. apply sameState_refl. Qed.

Lemma readOnly_bind (A B : Type) (c : M A) (k : A -> M B) :
  readOnly c -> (forall a, readOnly (k a)) -> readOnly (bind c k).
Proof.
  intros Hc Hk w. unfold bind. specialize (Hc w).
  destruct (c w) as [w' [a |]]; cbn [fst] in *; trivial.
  eapply sameState_trans; [exact Hc | apply Hk].
Qed.

Lemma readOnly_log (l : Line) : readOnly (log l).
Proof.
  intro w. unfold log. cbn. repeat split. exists [l]. reflexivity.
Qed.

Lemma readOnly_logEach (A : Type) (line : A -> Line) (xs : list A) :
  readOnly (logEach line xs).
Proof.
  induction xs as [| x rest IH]; cbn [logEach].
  - apply readOnly_ret.
  - apply readOnly_bind; [apply readOnly_log | intros _; exact IH].
Qed.

Lemma readOnly_logTrades (empty : string) (rows : list TradeRow.t) :
  readOnly (logTrades empty rows).
Proof.
  unfold logTrades. destruct rows; [apply readOnly_log | apply readOnly_logEach].
Qed.

(** Reading the positions leaves the exchange as it was. *)
Lemma readOnly_getPositions : readOnly (callExchange GetPositions).
Proof.
  intro w. unfold callExchange, request.
  destruct (negb (reachable (exchange w))); cbn; repeat split;
    try (exists []; now rewrite app_nil_r); now destruct (exchange w).
Qed.

(** A [SELECT] leaves the tables as they were. *)
Lemma readOnly_selectPositions : readOnly (dbExecute SelectPositions).
Proof.
  intro w. unfold dbExecute, execute.
  destruct (closed (db w)); cbn; repeat split;
    exists []; now rewrite app_nil_r.
Qed.

Lemma readOnly_selectTrades type ascending limit :
  readOnly (dbExecute (SelectTrades type ascending limit)).
Proof.
  intro w. unfold dbExecute, execute.
  destruct (closed (db w)); cbn; repeat split;
    exists []; now rewrite app_nil_r.
Qed.

Lemma readOnly_dbClose : readOnly dbClose.
Proof.
  intro w. unfold dbClose. cbn. repeat split.
  exists []. now rewrite app_nil_r.
Qed.

Lemma readOnly_tryCatchFinally (body handler finalizer : M unit) :
  readOnly body -> readOnly handler -> readOnly finalizer ->
  readOnly (tryCatchFinally body handler finalizer).
Proof.
  intros Hb Hh Hf w. unfold tryCatchFinally.
  specialize (Hb w). destruct (body w) as [w1 r1]. cbn [fst] in Hb.
  assert (H2 : sameState w
                 (fst match r1 with Some _ => (w1, r1) | None => handler w1 end)).
  { destruct r1; cbn [fst]; trivial.
    eapply sameState_trans; [exact Hb | apply Hh]. }
  destruct (match r1 with Some _ => (w1, r1) | None => handler w1 end)
    as [w2 r2]. cbn [fst] in H2.
  specialize (Hf w2). destruct (finalizer w2) as [w3 r3]. cbn [fst] in *.
  eapply sameState_trans; eassumption.
Qed.

(** In contrast, a write changes the tables and an order changes the
    exchange. *)
Lemma insert_changes_trades (row : TradeRow.t) (w : World) :
  w.(db).(closed) = false ->
  (fst (dbExecute (InsertTrade row) w)).(db).(trades) = w.(db).(trades) ++ [row].
Proof.
  intro H. unfold dbExecute, execute. rewrite H. reflexivity.
Qed.

Lemma order_changes_exchange (order : Order) (w : World) :
  w.(exchange).(reachable) = true ->
  (fst (callExchange (PlaceOrder order) w)).(exchange).(orders)
  = w.(exchange).(orders) ++ [order].
Proof.
  intro H. unfold callExchange, request. rewrite H. reflexivity.
Qed.

Create HintDb readonly.
#[export] Hint Resolve readOnly_ret readOnly_log readOnly_logEach
  readOnly_logTrades readOnly_getPositions readOnly_selectPositions
  readOnly_selectTrades readOnly_dbClose : readonly.

Ltac read_only :=
  repeat first
    [ apply readOnly_bind; [| intro]
    | apply readOnly_tryCatchFinally
    | solve [auto with readonly]
    | match goal with
      | |- readOnly (match ?x with _ => _ end) => destruct x
      end ].

Lemma checkConsistency_readOnly : readOnly checkConsistency.
Proof.
  intro w. unfold checkConsistency.
  match goal with
  | |- sameState w (fst (?c w)) => assert (H : readOnly c) by read_only
  end.
  apply H.
Qed.

Lemma checkConsistency_closes (w : World) :
  (fst (checkConsistency w)).(db).(closed) = true.
Proof.
  unfold checkConsistency, bind at 1 2 3 4 5. cbn [log].
  unfold tryCatchFinally.
  match goal with
  | |- context [let '(w1, r1) := ?b ?w0 in _] => destruct (b w0) as [w1 r1]
  end.
  match goal with
  | |- context [let '(w2, r2) := ?h in _] => destruct h as [w2 r2]
  end.
  reflexivity.
Qed.

End ReadOnlyFacts.

Module ReadOnlyTheorems.
Import CheckConsistency CheckConsistencySpec ReadOnlyFacts.

(** C9. A run of the consistency check leaves the positions table, the
    trades table and the exchange (its positions and its orders) as
    they were, whatever they hold and whether or not the exchange
    answers: it only appends to the console, and closes its database
    handle at the end. *)
Theorem check_is_read_only (w : World) :
  let w' := fst (checkConsistency w) in
  w'.(db).(positions) = w.(db).(positions)
  /\ w'.(db).(trades) = w.(db).(trades)
  /\ w'.(exchange).(rawPositions) = w.(exchange).(rawPositions)
  /\ w'.(exchange).(orders) = w.(exchange).(orders)
  /\ w'.(exchange) = w.(exchange)
  /\ (exists out, w'.(console) = w.(console) ++ out)
  /\ w'.(db).(closed) = true.
Proof.
  cbv zeta. destruct (checkConsistency_readOnly w) as [Hp [Ht [He Ho]]].
  rewrite He. repeat split; trivial. apply checkConsistency_closes.
Qed.

End ReadOnlyTheorems.

(* ================================================================== *)
(** * The strategy parameters and the protection rules *)
(* ================================================================== *)

Module ProtectionFacts.
Import ProtectionEngine ProtectionSamples.
Local Open Scope Q_scope.

Lemma leb_le (a b : Q) : leb a b = true <-> a <= b.
Proof. apply Qle_bool_iff. Qed.

Lemma leb_gt (a b : Q) : leb a b = false <-> b < a.
Proof.
  unfold leb. split; intro H.
  - apply Qnot_le_lt. intro Hle. apply Qle_bool_iff in Hle. congruence.
  - destruct (Qle_bool a b) eqn:E; trivial. apply Qle_bool_iff in E. lra.
Qed.

Lemma ltb_lt (a b : Q) : ltb a b = true <-> a < b.
Proof. unfold ltb. rewrite negb_true_iff. apply leb_gt. Qed.

Lemma ltb_ge (a b : Q) : ltb a b = false <-> b <= a.
Proof. unfold ltb. rewrite negb_false_iff. apply leb_le. Qed.



(** ** The highest level reached *)



Lemma floorLe_refl (a : option Q) : floorLe a a.
Proof. destruct a; simpl; trivial. lra. Qed.

Lemma floorLe_trans (a b c : option Q) : floorLe a b -> floorLe b c -> floorLe a c.
Proof.
  destruct a, b, c; simpl; trivial; try contradiction. intros. lra.
Qed.


(** ** The states along a run *)






(** The tightening of the schedule is needed: a configuration the
    load-time check accepts, whose second level stops lower than its
    first, loosens the floor when the peak rises from 4 to 7. *)
Remark floor_can_loosen :
  let c :=
    {| stopLossLow := -5; stopLossMid := -4; stopLossHigh := -(35 # 10);
       trailingLevels := [(3, 5); (6, 1)];
       takeProfitStages := [(5, 50)];
       peakDrawdownProtectionPercent := 50; maxIdleHours := 8;
       enableCodeLevelProtection := true;
       allowAiOverrideProtection := true |} in
  validConfig c = true
  /\ floorAt c 4 = Some 5 /\ floorAt c 7 = Some 1
  /\ ~ floorLe (floorAt c 4) (floorAt c 7).
Proof.
  cbv zeta. repeat split. simpl. unfold Qle. simpl. lia.
Qed.

(** ** The hard stop *)

Lemma decide_HardStopLoss c leverage peak completed pnl :
  decide c leverage peak completed pnl = HardStopLoss
  <-> pnl <= stopLossFor c leverage.
Proof.
  unfold decide. rewrite <- leb_le.
  destruct (leb pnl (stopLossFor c leverage)); [tauto |].
  split; [| discriminate].
  destruct (match highestReached (trailingLevels c) peak with
            | Some level => leb pnl (snd level)
            | None => false
            end); [discriminate |].
  destruct (leb (peakDrawdownProtectionPercent c) (peak - pnl)); [discriminate |].
  destruct (firstDueStage (takeProfitStages c) completed pnl); discriminate.
Qed.

(** With protection enabled, a fresh non-zero price and no override
    token, the decision of the tick is the evaluation. *)
Lemma tickDecision_fresh c bound p q :
  c.(enableCodeLevelProtection) = true ->
  ~ q.(price) == 0 -> q.(age) <= bound ->
  tickDecision c bound p (Some q) false = evaluate p q.(price) c.
Proof.
  intros Hen Hprice Hage. unfold tickDecision.
  assert (H0 : Qeq_bool q.(price) 0 = false).
  { destruct (Qeq_bool q.(price) 0) eqn:E; trivial.
    apply Qeq_bool_iff in E. contradiction. }
  assert (H1 : ltb bound q.(age) = false) by now apply ltb_ge.
  rewrite H0, H1, Hen, andb_false_r. reflexivity.
Qed.

(** Shadow mode and a consumed override token give no action. *)
Lemma tickDecision_switches c bound p quote :
  (c.(enableCodeLevelProtection) = false ->
   forall token, tickDecision c bound p quote token = NoAction)
  /\ (c.(allowAiOverrideProtection) = true ->
      tickDecision c bound p quote true = NoAction).
Proof.
  unfold tickDecision. split.
  - intros H token. destruct quote as [q |]; trivial. rewrite H. cbn.
    destruct (Qeq_bool (price q) 0 || ltb bound (age q))%bool; reflexivity.
  - intro H. destruct quote as [q |]; trivial. rewrite H. cbn.
    destruct (Qeq_bool (price q) 0 || ltb bound (age q))%bool; trivial.
    destruct (negb (enableCodeLevelProtection c)); reflexivity.
Qed.

End ProtectionFacts.

Module ProtectionTheorems.
Import ProtectionEngine ProtectionSamples ProtectionFacts.
Local Open Scope Q_scope.

(** C4. Whatever [maxLeverage] is, the parameters [getAlphaBetaStrategy]
    returns pass the load-time check: the trailing-stop triggers are
    3 < 6 < 10, the take-profit triggers are 5 < 10 < 15, and the close
    percents add up to 50 + 30 + 20 = 100, which is not above 100. *)
Theorem alphaBeta_config_valid (maxLeverage : number) :
  let p := AlphaBeta.getAlphaBetaStrategy maxLeverage in
  map AlphaBeta.TrailingLevel.trigger (AlphaBeta.trailingLevelsOf p)
  = [Fin 3; Fin 6; Fin 10]
  /\ map AlphaBeta.Stage.trigger (AlphaBeta.stagesOf p) = [Fin 5; Fin 10; Fin 15]
  /\ map AlphaBeta.Stage.closePercent (AlphaBeta.stagesOf p)
     = [Fin 50; Fin 30; Fin 20]
  /\ exists c,
       load p = Some c
       /\ validConfig c = true
       /\ strictlyIncreasing (map fst c.(trailingLevels)) = true
       /\ strictlyIncreasing (map fst c.(takeProfitStages)) = true
       /\ cumulativeClosePercent c.(takeProfitStages) == 100
       /\ cumulativeClosePercent c.(takeProfitStages) <= 100.
Proof.
  cbv zeta. repeat split.
  exists alphaBetaConfig. repeat split; try reflexivity.
  unfold Qle. simpl. lia.
Qed.



(** C6. For a position with leverage 7 and the mid-bracket stop at -4,
    the evaluation is HardStopLoss exactly when the pnl percent is at
    most -4: at -4 it is, at -3.9 it is not.  The Alpha Beta parameters
    give the stops -5, -4 and -3.5. *)
Theorem hard_stop_at_mid_bracket (c : ProtectionConfig) (p : Position) (price : Q) :
  c.(stopLossLow) == -5 -> c.(stopLossMid) == -4 ->
  c.(stopLossHigh) == -(35 # 10) ->
  p.(leverage) = 7%Z ->
  (evaluate p price c = HardStopLoss <-> pnlPercentOf p price <= -4)
  /\ (forall peak completed pnl,
        decide c 7 peak completed pnl = HardStopLoss <-> pnl <= -4)
  /\ (forall peak completed, decide c 7 peak completed (-4) = HardStopLoss)
  /\ (forall peak completed,
        decide c 7 peak completed (-(39 # 10)) <> HardStopLoss).
Proof.
  intros _ Hmid _ Hlev.
  assert (Hd : forall peak completed pnl,
             decide c 7 peak completed pnl = HardStopLoss <-> pnl <= -4).
  { intros peak completed pnl. rewrite decide_HardStopLoss.
    unfold stopLossFor. simpl. rewrite Hmid. tauto. }
  split; [| split; [| split]].
  - unfold evaluate. rewrite Hlev. apply Hd.
  - exact Hd.
  - intros peak completed. apply Hd. lra.
  - intros peak completed H. apply Hd in H. lra.
Qed.

(** Two positions with leverage 7, one at -4 and one at -3.9. *)
Lemma hard_stop_at_mid_bracket_witness :
  evaluate (longPosition 7 7 0) 3 alphaBetaConfig = HardStopLoss
  /\ evaluate (longPosition 70 7 0) 31 alphaBetaConfig <> HardStopLoss.
Proof.
  pose proof (@hard_stop_at_mid_bracket alphaBetaConfig (longPosition 7 7 0) 3
                (Qeq_refl _) (Qeq_refl _) (Qeq_refl _) eq_refl) as [H1 _].
  pose proof (@hard_stop_at_mid_bracket alphaBetaConfig (longPosition 70 7 0) 31
                (Qeq_refl _) (Qeq_refl _) (Qeq_refl _) eq_refl) as [H2 _].
  split.
  - apply H1. vm_compute. discriminate.
  - intro H. apply H2 in H. vm_compute in H. apply H. reflexivity.
Defined.

End ProtectionTheorems.

(* ================================================================== *)
(** * The executor *)
(* ================================================================== *)

Module ActionExecutorFacts.
Import ProtectionEngine ProtectionSamples ActionExecutor ActionExecutorSamples.




(** A hard stop delivered three times closes the position once; a
    partial close delivered twice closes half of it once. *)
Lemma replay_example :
  let r := replay alphaBetaConfig 3 sampleState stopDecision
             [[Transient; Filled sampleFill]; [Filled sampleFill];
              [Filled sampleFill]] in
  let r' := replay alphaBetaConfig 3 sampleState partialDecision
              [[Filled sampleFill]; [Filled sampleFill]] in
  List.length (fst r).(orders) = 1
  /\ List.length (fst r).(tradeLog) = 1
  /\ map isOk (snd r) = [true; false; false]
  /\ List.length (fst r').(orders) = 1
  /\ map o_quantity (fst r').(orders) = [(5 * (50 / 100))%Q]
  /\ map isOk (snd r') = [true; false].
Proof.
  cbv zeta. repeat split.
Qed.

End ActionExecutorFacts.

Module ActionExecutorTheorems.
Import ProtectionEngine ActionExecutor ActionExecutorFacts.


End ActionExecutorTheorems.

(* ================================================================== *)
(** * More on the trade statistics *)
(* ================================================================== *)

Module AnalyzeTradesMoreFacts.
Import AnalyzeTrades AnalyzeTradesSpec AnalyzeTradesAdvice AnalyzeTradesMore.
Import JsNumberSpec JsNumberFacts AnalyzeTradesFacts SinglePassFacts.

(** ** Sums kept by the first loop *)

Lemma applyAll_totalFees rows :
  forall stats,
    (applyAll rows stats).(totalFees)
    = fold_left add (map feeOf rows) stats.(totalFees).
Proof.
  induction rows as [| trade rest IH]; intro stats; [reflexivity |].
  cbn [applyAll fold_left map]. fold (applyAll rest (applyRow stats trade)).
  rewrite IH. reflexivity.
Qed.

Lemma accumulate_net (l : list TradeStats) :
  forall init,
    Forall (fun s => s.(netPnl) = s.(totalPnl)) l ->
    init.(t_netPnl) = init.(t_totalPnl) ->
    (fold_left accumulate l init).(t_netPnl)
    = (fold_left accumulate l init).(t_totalPnl).
Proof.
  induction l as [| s rest IH]; intros init Hall Hinit; [exact Hinit |].
  inversion Hall as [| ? ? Hs Hrest]; subst. cbn [fold_left].
  apply IH; trivial. unfold accumulate. cbn [t_netPnl t_totalPnl].
  now rewrite Hs, Hinit.
Qed.

Lemma finish_sums rows symbol :
  let stats := finish rows (entryOf symbol rows) in
  stats.(netPnl) = stats.(totalPnl)
  /\ stats.(totalPnl) = sumOf pnlOf (ofSymbol symbol rows)
  /\ stats.(totalFees) = sumOf feeOf (ofSymbol symbol rows).
Proof.
  cbv zeta. unfold finish, derive. cbn [netPnl totalPnl totalFees].
  rewrite entryOf_applyAll, applyAll_netPnl, applyAll_totalPnl,
    applyAll_totalFees.
  repeat split.
Qed.

(** ** One entry per symbol *)

Lemma secondLoop_symbols rows :
  map symbol (secondLoop rows (firstLoop rows)) = JsMap.keys (firstLoop rows).
Proof.
  unfold secondLoop, JsMap.values, JsMap.keys. rewrite !map_map.
  apply map_ext_in. intros [k st] Hin. cbn [fst snd].
  apply JsMapFacts.In_get in Hin; [| apply firstLoop_NoDup].
  rewrite firstLoop_get in Hin.
  destruct (ofSymbol k rows); [discriminate |]. injection Hin as <-.
  unfold finish, derive. cbn [symbol]. apply entryOf_symbol.
Qed.

Lemma sortedStats_symbols rows report :
  analyzeTrades rows = Some report ->
  Permutation (map symbol report.(sortedStats)) (JsMap.keys (firstLoop rows)).
Proof.
  intro H. apply analyzeTrades_Some in H. destruct H as [_ ->].
  cbn [summarize sortedStats]. rewrite <- secondLoop_symbols.
  apply Permutation_map. apply JsArrayFacts.sort_perm.
Qed.

(** ** Order on numbers that are not [NaN] *)

Lemma gt_irrefl (x : number) : gt x x = false.
Proof.
  unfold gt, lt. destruct x; trivial. apply Qltb_ge. apply Qle_refl.
Qed.

Lemma notgt_trans (a b c : number) :
  ordered a -> ordered b -> ordered c ->
  gt a b = false -> gt b c = false -> gt a c = false.
Proof.
  unfold ordered, gt, lt. intros Ha Hb Hc.
  destruct a, b, c; try congruence; intros H1 H2; trivial.
  apply Qltb_ge in H1, H2. apply Qltb_ge. lra.
Qed.

Lemma gt_asym (a b : number) : gt a b = true -> gt b a = false.
Proof.
  unfold gt, lt. destruct a, b; try discriminate; trivial.
  intro H. apply Qltb_lt in H. apply Qltb_ge. lra.
Qed.

(** What a loop that keeps the entry of largest key ends with. *)
Lemma keep_fold (key : number -> number) (xs : list number) :
  forall best,
    ordered (key best) -> (forall x, In x xs -> ordered (key x)) ->
    let r := fold_left (keep key) xs best in
    (r = best \/ In r xs)
    /\ ordered (key r)
    /\ gt (key best) (key r) = false
    /\ forall x, In x xs -> gt (key x) (key r) = false.
Proof.
  induction xs as [| x rest IH]; intros best Hbest Hall; cbv zeta.
  - cbn. repeat split; auto using gt_irrefl. intros x [].
  - cbn [fold_left].
    assert (Hx : ordered (key x)) by (apply Hall; now left).
    assert (Hk : ordered (key (keep key best x)))
      by (unfold keep; destruct (gt (key x) (key best)); trivial).
    destruct (IH (keep key best x) Hk (fun y Hy => Hall y (or_intror Hy)))
      as [Hr [Ho [Hge Hmax]]].
    assert (Hbk : gt (key best) (key (keep key best x)) = false).
    { unfold keep. destruct (gt (key x) (key best)) eqn:E;
        [now apply gt_asym | apply gt_irrefl]. }
    assert (Hxk : gt (key x) (key (keep key best x)) = false).
    { unfold keep. destruct (gt (key x) (key best)) eqn:E;
        [apply gt_irrefl | exact E]. }
    split; [| split; [exact Ho | split]].
    + destruct Hr as [-> | Hr]; [| right; now right].
      unfold keep. destruct (gt (key x) (key best)); [right; now left | now left].
    + eapply notgt_trans; [| | | exact Hbk | exact Hge]; trivial.
    + intros y [<- | Hy]; [| now apply Hmax].
      eapply notgt_trans; [| | | exact Hxk | exact Hge]; trivial.
Qed.

Lemma applyAll_largestWin rows :
  forall stats,
    (applyAll rows stats).(largestWin)
    = fold_left (keep (fun x => x)) (map pnlOf (classified Win rows))
        stats.(largestWin).
Proof.
  induction rows as [| trade rest IH]; intro stats; [reflexivity |].
  cbn [applyAll fold_left]. fold (applyAll rest (applyRow stats trade)).
  rewrite IH. unfold applyRow, update, classified. cbn [largestWin filter].
  destruct (classify (pnlOf trade)); reflexivity.
Qed.

Lemma applyAll_largestLoss rows :
  forall stats,
    (applyAll rows stats).(largestLoss)
    = fold_left (keep abs) (map pnlOf (classified Loss rows))
        stats.(largestLoss).
Proof.
  induction rows as [| trade rest IH]; intro stats; [reflexivity |].
  cbn [applyAll fold_left]. fold (applyAll rest (applyRow stats trade)).
  rewrite IH. unfold applyRow, update, classified. cbn [largestLoss filter].
  destruct (classify (pnlOf trade)); reflexivity.
Qed.

Lemma classified_In o rows trade :
  In trade (classified o rows) <-> In trade rows /\ classify (pnlOf trade) = o.
Proof.
  unfold classified. rewrite filter_In.
  destruct (classify (pnlOf trade)), o; simpl; split; intros [H1 H2];
    split; trivial; discriminate.
Qed.

Lemma win_ordered trade :
  classify (pnlOf trade) = Win ->
  ordered (pnlOf trade) /\ gt (pnlOf trade) zero = true.
Proof.
  intro H. apply classify_Win in H. unfold ordered, gt, lt, winThreshold in *.
  destruct (pnlOf trade); try discriminate; split; try discriminate; trivial.
  apply Qltb_lt in H. apply Qltb_lt. lra.
Qed.

Lemma loss_ordered trade :
  classify (pnlOf trade) = Loss ->
  ordered (abs (pnlOf trade)) /\ gt (abs (pnlOf trade)) zero = true.
Proof.
  intro H. pose proof (loss_positive trade H) as Hp.
  unfold absPnlOf, positive in Hp. split; trivial.
  unfold ordered. intro E. rewrite E in Hp. discriminate.
Qed.

Lemma ofSymbol_In symbol rows trade :
  In trade (ofSymbol symbol rows) <-> In trade rows /\ Row.symbol trade = symbol.
Proof.
  unfold ofSymbol. rewrite filter_In, String.eqb_eq. tauto.
Qed.

(** The largest win and the largest loss of a finished entry. *)
Lemma finish_largest rows symbol :
  let mine := ofSymbol symbol rows in
  let stats := finish rows (entryOf symbol rows) in
  (forall trade, In trade (classified Win mine) ->
                 gt (pnlOf trade) stats.(largestWin) = false)
  /\ match classified Win mine with
     | [] => stats.(largestWin) = zero
     | _ => exists trade, In trade (classified Win mine)
                          /\ pnlOf trade = stats.(largestWin)
     end
  /\ (forall trade, In trade (classified Loss mine) ->
                    gt (abs (pnlOf trade)) (abs stats.(largestLoss)) = false)
  /\ match classified Loss mine with
     | [] => stats.(largestLoss) = zero
     | _ => exists trade, In trade (classified Loss mine)
                          /\ pnlOf trade = stats.(largestLoss)
     end.
Proof.
  intros mine stats. subst stats. unfold finish, derive.
  cbn [largestWin largestLoss].
  rewrite entryOf_applyAll. fold mine.
  rewrite applyAll_largestWin, applyAll_largestLoss.
  cbn [initStats largestWin largestLoss].
  assert (Hz : ordered zero) by discriminate.
  destruct (@keep_fold (fun x => x) (map pnlOf (classified Win mine)) zero Hz)
    as [Hw1 [_ [_ Hw2]]].
  { intros x Hx. apply in_map_iff in Hx. destruct Hx as [t [<- Ht]].
    apply classified_In in Ht. now apply win_ordered. }
  destruct (@keep_fold abs (map pnlOf (classified Loss mine)) zero Hz)
    as [Hl1 [_ [_ Hl2]]].
  { intros x Hx. apply in_map_iff in Hx. destruct Hx as [t [<- Ht]].
    apply classified_In in Ht. now apply loss_ordered. }
  cbv zeta in *.
  split; [| split; [| split]].
  - intros t Ht. apply Hw2. now apply in_map.
  - destruct (classified Win mine) as [| t0 l] eqn:E; [reflexivity |].
    rewrite <- E in *.
    destruct Hw1 as [Hw1 | Hw1].
    + exfalso. assert (Ht0 : In t0 (classified Win mine)) by (rewrite E; now left).
      pose proof (Hw2 _ (in_map pnlOf _ _ Ht0)) as Hle. rewrite Hw1 in Hle.
      apply classified_In in Ht0. destruct (win_ordered _ (proj2 Ht0)). congruence.
    + apply in_map_iff in Hw1. destruct Hw1 as [t [Ht Hin]]. eauto.
  - intros t Ht. apply Hl2. now apply in_map.
  - destruct (classified Loss mine) as [| t0 l] eqn:E; [reflexivity |].
    rewrite <- E in *.
    destruct Hl1 as [Hl1 | Hl1].
    + exfalso. assert (Ht0 : In t0 (classified Loss mine)) by (rewrite E; now left).
      pose proof (Hl2 _ (in_map pnlOf _ _ Ht0)) as Hle. rewrite Hl1 in Hle.
      apply classified_In in Ht0. destruct (loss_ordered _ (proj2 Ht0)).
      change (abs zero) with (Fin (Qabs 0)) in Hle.
      unfold gt, lt in *. destruct (abs (pnlOf t0)); try discriminate.
      apply Qltb_lt in H0. apply Qltb_ge in Hle. simpl in Hle. lra.
    + apply in_map_iff in Hl1. destruct Hl1 as [t [Ht Hin]]. eauto.
Qed.

End AnalyzeTradesMoreFacts.

Module AnalyzeTradesOrderFacts.
Import AnalyzeTrades AnalyzeTradesSpec AnalyzeTradesAdvice AnalyzeTradesMore.
Import JsNumberSpec JsNumberFacts AnalyzeTradesFacts SinglePassFacts.
Import AnalyzeTradesMoreFacts.

(** ** The order of the sorted entries *)

Lemma byNetPnl_gt (x y : TradeStats) :
  finiteNet x -> finiteNet y ->
  (gt (byNetPnl x y) zero = true <-> lt x.(netPnl) y.(netPnl) = true).
Proof.
  unfold finiteNet, byNetPnl, sub, gt, lt, zero.
  destruct (netPnl x), (netPnl y); try discriminate. intros _ _. simpl.
  rewrite !Qltb_lt. split; intro; lra.
Qed.

Lemma netGe_spec (x y : TradeStats) :
  finiteNet x -> finiteNet y ->
  (netGe x y <-> lt x.(netPnl) y.(netPnl) = false).
Proof.
  unfold finiteNet, netGe, ge. destruct (netPnl x), (netPnl y); try discriminate.
  intros _ _. rewrite negb_true_iff. tauto.
Qed.

Lemma netGe_trans (x y z : TradeStats) :
  finiteNet x -> finiteNet y -> finiteNet z ->
  netGe x y -> netGe y z -> netGe x z.
Proof.
  intros Hx Hy Hz. rewrite !netGe_spec by assumption.
  unfold finiteNet, lt in *.
  destruct (netPnl x), (netPnl y), (netPnl z); try discriminate.
  rewrite !Qltb_ge. intros. lra.
Qed.

Lemma netGe_total (x y : TradeStats) :
  finiteNet x -> finiteNet y ->
  lt x.(netPnl) y.(netPnl) = true -> netGe y x.
Proof.
  intros Hx Hy H. apply netGe_spec; trivial.
  unfold finiteNet, lt in *. destruct (netPnl x), (netPnl y); try discriminate.
  apply Qltb_lt in H. apply Qltb_ge. lra.
Qed.

Lemma insert_sorted (x : TradeStats) (l : list TradeStats) :
  finiteNet x -> Forall finiteNet l ->
  StronglySorted netGe l ->
  StronglySorted netGe (JsArray.insert byNetPnl x l).
Proof.
  intros Hx Hall Hs. induction l as [| y r IH]; cbn [JsArray.insert].
  - repeat constructor.
  - inversion Hall as [| ? ? Hy Hr]; subst.
    inversion Hs as [| ? ? Hsr Hyr]; subst.
    destruct (gt (byNetPnl x y) zero) eqn:E.
    + apply byNetPnl_gt in E; trivial. constructor; [auto |].
      apply (Permutation_Forall
               (Permutation_sym (JsArrayFacts.insert_perm byNetPnl x r))).
      constructor; [now apply netGe_total | trivial].
    + constructor; trivial.
      assert (Hxy : netGe x y).
      { apply netGe_spec; trivial.
        destruct (lt (netPnl x) (netPnl y)) eqn:El; trivial.
        apply byNetPnl_gt in El; trivial. congruence. }
      constructor; trivial.
      rewrite Forall_forall in *. intros z Hz.
      apply netGe_trans with y; auto.
Qed.

Lemma sort_sorted (l : list TradeStats) :
  Forall finiteNet l -> StronglySorted netGe (JsArray.sort byNetPnl l).
Proof.
  induction l as [| x r IH]; intro Hall; cbn [JsArray.sort fold_right].
  - constructor.
  - inversion Hall; subst. apply insert_sorted; auto.
    apply (Permutation_Forall
             (Permutation_sym (JsArrayFacts.sort_perm byNetPnl r))).
    trivial.
Qed.

Lemma sum_finite (l : list number) :
  forall acc, isFinite acc = true -> Forall (fun x => isFinite x = true) l ->
              isFinite (fold_left add l acc) = true.
Proof.
  induction l as [| x r IH]; intros acc Hacc Hall; [exact Hacc |].
  inversion Hall; subst. cbn [fold_left]. apply IH; trivial.
  destruct acc, x; try discriminate; reflexivity.
Qed.

Lemma finish_finiteNet rows symbol :
  (forall trade, In trade rows -> isFinite (pnlOf trade) = true) ->
  finiteNet (finish rows (entryOf symbol rows)).
Proof.
  intro Hfin. unfold finiteNet.
  destruct (finish_sums rows symbol) as [-> [-> _]]. unfold sumOf.
  apply sum_finite; [reflexivity |].
  apply Forall_forall. intros x Hx. apply in_map_iff in Hx.
  destruct Hx as [t [<- Ht]]. apply Hfin. now apply ofSymbol_In in Ht.
Qed.

Lemma nonempty_sortedStats rows report :
  analyzeTrades rows = Some report -> report.(sortedStats) <> [].
Proof.
  intros H E. pose proof (@analyzeTrades_Some rows report H) as [Hne _].
  destruct rows as [| t r]; [congruence |].
  assert (Hin : exists symbol, ofSymbol symbol (t :: r) <> []
                               /\ finish (t :: r) (entryOf (Row.symbol t) (t :: r))
                                  = finish (t :: r) (entryOf symbol (t :: r))).
  { exists (Row.symbol t). split; trivial.
    apply ofSymbol_nonempty. exists t. split; [now left | trivial]. }
  apply (proj2 (@sortedStats_In (t :: r) report
                  (finish (t :: r) (entryOf (Row.symbol t) (t :: r))) H)) in Hin.
  rewrite E in Hin. contradiction.
Qed.

Lemma nth_error_last (A : Type) (l : list A) (x : A) :
  nth_error (l ++ [x]) (List.length (l ++ [x]) - 1) = Some x.
Proof.
  rewrite length_app. cbn [List.length].
  replace (List.length l + 1 - 1) with (List.length l) by lia.
  rewrite nth_error_app2 by lia. now rewrite Nat.sub_diag.
Qed.

Lemma StronglySorted_last (A : Type) (R : A -> A -> Prop) (l : list A) (x : A) :
  StronglySorted R (l ++ [x]) -> forall y, In y l -> R y x.
Proof.
  induction l as [| a r IH]; intros Hs y Hy; [contradiction |].
  cbn in Hs. inversion Hs as [| ? ? Hr Ha]; subst.
  destruct Hy as [<- | Hy]; [| auto].
  rewrite Forall_forall in Ha. apply Ha. apply in_or_app. right. now left.
Qed.

(** ** Directions *)

Lemma directionalWins_from rows symbol :
  forall acc,
    fold_left (winsBody symbol) rows acc
    = (fst acc + List.length (sideWins "long" (ofSymbol symbol rows)),
       snd acc + List.length (sideWins "short" (ofSymbol symbol rows))).
Proof.
  unfold sideWins, ofSide, classified, ofSymbol.
  induction rows as [| trade rest IH]; intros [a b].
  - cbn. f_equal; lia.
  - cbn [fold_left]. rewrite IH. unfold winsBody. cbn [filter].
    destruct (String.eqb (Row.symbol trade) symbol); [| reflexivity].
    cbn [filter]. unfold classify.
    destruct (gt (pnlOf trade) winThreshold).
    + cbn [Outcome_eqb filter].
      destruct (String.eqb (Row.side trade) "long"),
        (String.eqb (Row.side trade) "short"); cbn [List.length fst snd];
        f_equal; lia.
    + destruct (lt (pnlOf trade) lossThreshold); reflexivity.
Qed.

Lemma directionalWins_spec rows symbol :
  directionalWins rows symbol
  = (List.length (sideWins "long" (ofSymbol symbol rows)),
     List.length (sideWins "short" (ofSymbol symbol rows))).
Proof.
  unfold directionalWins. rewrite directionalWins_from. reflexivity.
Qed.

Lemma sides_disjoint rows :
  List.length (ofSide "long" rows) + List.length (ofSide "short" rows)
  <= List.length rows.
Proof.
  unfold ofSide. induction rows as [| trade rest IH]; [reflexivity |].
  cbn [filter List.length].
  destruct (String.eqb (Row.side trade) "long") eqn:El.
  - apply String.eqb_eq in El. rewrite El. cbn. lia.
  - destruct (String.eqb (Row.side trade) "short"); cbn; lia.
Qed.

Lemma sideWins_le side rows :
  List.length (sideWins side rows) <= List.length (ofSide side rows).
Proof.
  unfold sideWins, ofSide, classified.
  induction rows as [| trade rest IH]; [reflexivity |].
  cbn [filter].
  destruct (Outcome_eqb (classify (pnlOf trade)) Win);
    cbn [filter]; destruct (String.eqb (Row.side trade) side); cbn; lia.
Qed.

Lemma finish_directions rows symbol :
  let mine := ofSymbol symbol rows in
  let stats := finish rows (entryOf symbol rows) in
  stats.(longTrades) = List.length (ofSide "long" mine)
  /\ stats.(shortTrades) = List.length (ofSide "short" mine)
  /\ stats.(longWinRate)
     = percentOf (List.length (sideWins "long" mine))
                 (List.length (ofSide "long" mine))
  /\ stats.(shortWinRate)
     = percentOf (List.length (sideWins "short" mine))
                 (List.length (ofSide "short" mine)).
Proof.
  intros mine stats. subst stats. unfold finish, derive.
  cbn [longTrades shortTrades longWinRate shortWinRate].
  rewrite entryOf_symbol, directionalWins_spec. fold mine. cbn [fst snd].
  rewrite entryOf_applyAll. fold mine.
  rewrite applyAll_longTrades, applyAll_shortTrades.
  cbn [initStats longTrades shortTrades Nat.add]. repeat split.
Qed.

(** ** Pooling the directional rates *)

(** The sum the [reduce] builds, over entries whose rate is the percent
    of [wins s] in [count s]. *)
Lemma weighted_sum (rate : TradeStats -> number) (count wins : TradeStats -> nat)
    (l : list TradeStats) :
  (forall s, In s l -> rate s = percentOf (wins s) (count s)
                       /\ wins s <= count s) ->
  forall q0,
    exists q,
      fold_left
        (fun sum s => add sum (div (mul (rate s) (ofNat (count s))) (Fin 100)))
        l (Fin q0) = Fin q
      /\ (q == q0 + inject_Z (Z.of_nat (list_sum (map wins l))))%Q.
Proof.
  induction l as [| s r IH]; intros Hall q0.
  - exists q0. split; [reflexivity |]. simpl. unfold inject_Z. lra.
  - cbn [fold_left map].
    change (list_sum (wins s :: map wins r))
      with (wins s + list_sum (map wins r))%nat.
    destruct (Hall s (or_introl eq_refl)) as [Hrate Hle].
    assert (Hterm : exists t,
               div (mul (rate s) (ofNat (count s))) (Fin 100) = Fin t
               /\ (t == inject_Z (Z.of_nat (wins s)))%Q).
    { rewrite Hrate. unfold percentOf, ofNat.
      assert (E100 : Qeq_bool 100 0 = false) by reflexivity.
      destruct (Nat.ltb 0 (count s)) eqn:Ec.
      - apply Nat.ltb_lt in Ec.
        assert (Hc : (0 < inject_Z (Z.of_nat (count s)))%Q) by now apply ofNat_pos.
        remember (inject_Z (Z.of_nat (count s))) as c.
        remember (inject_Z (Z.of_nat (wins s))) as w.
        assert (E0 : Qeq_bool c 0 = false).
        { destruct (Qeq_bool c 0) eqn:E0; trivial.
          apply Qeq_bool_iff in E0. lra. }
        cbn [mul div]. rewrite E0. cbn [mul div]. rewrite E100.
        eexists. split; [reflexivity |]. field. lra.
      - apply Nat.ltb_ge in Ec.
        replace (wins s) with 0%nat by lia. replace (count s) with 0%nat by lia.
        unfold zero. cbn [mul div]. rewrite E100.
        eexists. split; [reflexivity |]. reflexivity. }
    destruct Hterm as [t [Ht Hteq]]. rewrite Ht. cbn [add].
    destruct (IH (fun x Hx => Hall x (or_intror Hx)) (q0 + t)%Q) as [q [Hq Hqeq]].
    exists q. split; [exact Hq |].
    rewrite Hqeq, Hteq, Nat2Z.inj_add, inject_Z_plus. lra.
Qed.

Lemma weightedRate_pooled (rate : TradeStats -> number)
    (count wins : TradeStats -> nat) (l : list TradeStats) :
  (forall s, In s l -> rate s = percentOf (wins s) (count s)
                       /\ wins s <= count s) ->
  eqv (weightedRate rate count l (list_sum (map count l)))
      (percentOf (list_sum (map wins l)) (list_sum (map count l))).
Proof.
  intro Hall. unfold weightedRate, percentOf.
  destruct (Nat.ltb 0 (list_sum (map count l))) eqn:E; [| apply eqv_refl].
  apply Nat.ltb_lt in E.
  destruct (weighted_sum rate count wins l Hall 0) as [q [Hq Hqeq]].
  unfold zero. rewrite Hq. unfold ofNat.
  assert (Hc : (0 < inject_Z (Z.of_nat (list_sum (map count l))))%Q)
    by now apply ofNat_pos.
  remember (inject_Z (Z.of_nat (list_sum (map count l)))) as c.
  remember (inject_Z (Z.of_nat (list_sum (map wins l)))) as w.
  assert (E0 : Qeq_bool c 0 = false).
  { destruct (Qeq_bool c 0) eqn:E0; trivial. apply Qeq_bool_iff in E0. lra. }
  cbn [div]. rewrite E0. cbn [mul eqv]. rewrite Hqeq. field. lra.
Qed.

Lemma list_sum_cons (a : nat) (l : list nat) : list_sum (a :: l) = a + list_sum l.
Proof. reflexivity. Qed.

(** Counting by symbol and then adding up counts every row once. *)
Lemma count_by_symbol (p : Row.t -> bool) (keys : list string) (rows : list Row.t) :
  NoDup keys ->
  (forall trade, In trade rows -> In (Row.symbol trade) keys) ->
  list_sum (map (fun k => List.length (filter p (ofSymbol k rows))) keys)
  = List.length (filter p rows).
Proof.
  intros Hnd. induction rows as [| trade rest IH]; intro Hcover.
  - cbn. clear. induction keys; simpl; auto.
  - assert (Hone : forall ks, NoDup ks ->
               list_sum (map (fun k => List.length
                                         (filter p (ofSymbol k (trade :: rest)))) ks)
               = list_sum (map (fun k => List.length
                                           (filter p (ofSymbol k rest))) ks)
                 + (if in_dec string_dec (Row.symbol trade) ks
                    then (if p trade then 1 else 0) else 0)).
    { clear. induction ks as [| k ks IHk]; intro Hnd; [reflexivity |].
      inversion Hnd as [| ? ? Hnotin Hnd']; subst.
      cbn [map]. rewrite !list_sum_cons, (IHk Hnd').
      unfold ofSymbol at 1. cbn [filter]. fold (ofSymbol k rest).
      destruct (String.eqb (Row.symbol trade) k) eqn:E.
      - apply String.eqb_eq in E. subst k.
        destruct (in_dec string_dec (Row.symbol trade) ks) as [Hin | _];
          [contradiction |].
        destruct (in_dec string_dec (Row.symbol trade) (Row.symbol trade :: ks))
          as [_ | Hn]; [| exfalso; apply Hn; now left].
        cbn [filter]. destruct (p trade); cbn [List.length]; lia.
      - apply String.eqb_neq in E.
        destruct (in_dec string_dec (Row.symbol trade) ks) as [Hin | Hn];
          destruct (in_dec string_dec (Row.symbol trade) (k :: ks))
            as [Hin' | Hn']; try lia.
        + exfalso. apply Hn'. now right.
        + destruct Hin' as [-> | Hin']; [congruence | contradiction]. }
    rewrite (Hone keys Hnd), IH by (intros t Ht; apply Hcover; now right).
    destruct (in_dec string_dec (Row.symbol trade) keys) as [_ | Hn];
      [| exfalso; apply Hn, Hcover; now left].
    cbn [filter]. destruct (p trade); cbn [List.length]; lia.
Qed.

End AnalyzeTradesOrderFacts.

Module AnalyzeTradesTotalsFacts.
Import AnalyzeTrades AnalyzeTradesSpec AnalyzeTradesSamples.
Import AnalyzeTradesAdvice AnalyzeTradesMore AnalyzeTradesMoreSamples.
Import JsNumberSpec JsNumberFacts AnalyzeTradesFacts SinglePassFacts.
Import AnalyzeTradesMoreFacts AnalyzeTradesOrderFacts.

Lemma accumulate_largest (l : list TradeStats) :
  forall init,
    (fold_left accumulate l init).(t_largestWin)
    = fold_left (keep (fun x => x)) (map largestWin l) init.(t_largestWin)
    /\ (fold_left accumulate l init).(t_largestLoss)
       = fold_left (keep abs) (map largestLoss l) init.(t_largestLoss).
Proof.
  induction l as [| s r IH]; intro init; [split; reflexivity |].
  cbn [fold_left map]. destruct (IH (accumulate init s)) as [-> ->].
  split; reflexivity.
Qed.

Lemma accumulate_sides (l : list TradeStats) :
  forall init,
    (fold_left accumulate l init).(t_longTrades)
    = init.(t_longTrades) + list_sum (map longTrades l)
    /\ (fold_left accumulate l init).(t_shortTrades)
       = init.(t_shortTrades) + list_sum (map shortTrades l).
Proof.
  induction l as [| s r IH]; intro init.
  - cbn. lia.
  - cbn [fold_left map]. rewrite !list_sum_cons.
    destruct (IH (accumulate init s)) as [-> ->].
    unfold accumulate. cbn [t_longTrades t_shortTrades]. lia.
Qed.

Lemma sideIndicator_sum side rows :
  list_sum (map (sideIndicator side) rows) = List.length (ofSide side rows).
Proof.
  unfold ofSide, sideIndicator. induction rows as [| t r IH]; [reflexivity |].
  cbn [map filter]. rewrite list_sum_cons.
  destruct (String.eqb (Row.side t) side); cbn [List.length]; lia.
Qed.

Lemma apply_longTrades stats trade :
  (applyRow stats trade).(longTrades)
  = stats.(longTrades) + sideIndicator "long" trade.
Proof.
  unfold applyRow, update, sideIndicator. cbn [longTrades].
  destruct (String.eqb (Row.side trade) "long"); lia.
Qed.

Lemma apply_shortTrades stats trade :
  (applyRow stats trade).(shortTrades)
  = stats.(shortTrades) + sideIndicator "short" trade.
Proof.
  unfold applyRow, update, sideIndicator. cbn [shortTrades].
  destruct (String.eqb (Row.side trade) "long") eqn:E.
  - apply String.eqb_eq in E. rewrite E. cbn. lia.
  - destruct (String.eqb (Row.side trade) "short"); lia.
Qed.

Lemma totals_sides rows report :
  analyzeTrades rows = Some report ->
  report.(totalStats).(t_longTrades) = List.length (ofSide "long" rows)
  /\ report.(totalStats).(t_shortTrades) = List.length (ofSide "short" rows)
  /\ report.(totalStats).(t_longTrades)
     = list_sum (map longTrades report.(sortedStats))
  /\ report.(totalStats).(t_shortTrades)
     = list_sum (map shortTrades report.(sortedStats)).
Proof.
  intro H. apply analyzeTrades_Some in H. destruct H as [_ ->].
  cbn [summarize totalStats sortedStats withAverages t_longTrades t_shortTrades].
  destruct (accumulate_sides
              (JsArray.sort byNetPnl (secondLoop rows (firstLoop rows))) initTotals)
    as [H1 H2].
  rewrite H1, H2. cbn [initTotals t_longTrades t_shortTrades Nat.add].
  rewrite !finished_counts by reflexivity.
  rewrite (over_firstLoop longTrades (sideIndicator "long") apply_longTrades)
    by reflexivity.
  rewrite (over_firstLoop shortTrades (sideIndicator "short") apply_shortTrades)
    by reflexivity.
  rewrite !sideIndicator_sum. repeat split.
Qed.

Lemma filter_filter (A : Type) (p q : A -> bool) (l : list A) :
  filter q (filter p l) = filter (fun x => (p x && q x)%bool) l.
Proof.
  induction l as [| x r IH]; [reflexivity |]. cbn [filter].
  destruct (p x); cbn [filter andb]; [destruct (q x) |]; now rewrite IH.
Qed.

(** The wins of one side, counted symbol by symbol, are the wins of that
    side over all rows. *)
Lemma sideWins_by_symbol side rows report :
  analyzeTrades rows = Some report ->
  list_sum (map (fun s => List.length (sideWins side (ofSymbol s.(symbol) rows)))
                report.(sortedStats))
  = List.length (sideWins side rows).
Proof.
  intro Hrun.
  pose proof (@sortedStats_symbols rows report Hrun) as Hperm.
  rewrite <- (map_map symbol
                (fun k => List.length (sideWins side (ofSymbol k rows)))).
  rewrite (list_sum_perm (Permutation_map _ Hperm)).
  unfold sideWins, ofSide, classified.
  rewrite filter_filter.
  rewrite <- (@count_by_symbol
                (fun x => (Outcome_eqb (classify (pnlOf x)) Win
                           && String.eqb (Row.side x) side)%bool)
                (JsMap.keys (firstLoop rows)) rows (firstLoop_NoDup rows)).
  - f_equal. apply map_ext. intro k. now rewrite filter_filter.
  - intros t Ht. apply firstLoop_keys. now apply in_map.
Qed.

(** ** Percentages against thresholds *)

Lemma percent_lt_Q (w n c : Q) :
  (0 < n)%Q -> ((w / n * 100 < c)%Q <-> (100 * w < c * n)%Q).
Proof.
  intro Hn. assert (Hw : (w / n * n == w)%Q) by (field; lra).
  split; intro H; nra.
Qed.

Lemma inject_lt (a b : nat) :
  (inject_Z (Z.of_nat a) < inject_Z (Z.of_nat b))%Q <-> a < b.
Proof.
  rewrite <- Zlt_Qlt. lia.
Qed.

Lemma percent_lt (w n c : nat) :
  0 < n ->
  (lt (percentOf w n) (Fin (inject_Z (Z.of_nat c))) = true <-> 100 * w < c * n).
Proof.
  intro Hn. unfold percentOf, ofNat.
  destruct (Nat.ltb 0 n) eqn:E; [| apply Nat.ltb_ge in E; lia].
  pose proof (ofNat_pos Hn) as Hq.
  cbn [div].
  destruct (Qeq_bool (inject_Z (Z.of_nat n)) 0) eqn:E0.
  { apply Qeq_bool_iff in E0. remember (inject_Z (Z.of_nat n)) as x. lra. }
  cbn [mul lt]. rewrite Qltb_lt.
  rewrite <- inject_lt, !Nat2Z.inj_mul, !inject_Z_mult.
  remember (inject_Z (Z.of_nat n)) as x. remember (inject_Z (Z.of_nat w)) as y.
  remember (inject_Z (Z.of_nat c)) as z.
  change (inject_Z (Z.of_nat 100)) with 100%Q.
  now apply percent_lt_Q.
Qed.

End AnalyzeTradesTotalsFacts.

Module AnalyzeTradesMoreTheorems.
Import AnalyzeTrades AnalyzeTradesSpec AnalyzeTradesSamples.
Import AnalyzeTradesAdvice AnalyzeTradesMore AnalyzeTradesMoreSamples.
Import JsNumberSpec JsNumberFacts AnalyzeTradesFacts SinglePassFacts.
Import AnalyzeTradesMoreFacts AnalyzeTradesOrderFacts.

(** X1. The net pnl of an entry is its total pnl: the fees are summed
    on their own and never deducted.  Both are the sum of the pnl of the
    symbol's rows in row order, and the overall net pnl is the overall
    total pnl. *)
Theorem fees_never_deducted (rows : list Row.t) (report : Report) :
  analyzeTrades rows = Some report ->
  (forall stats, In stats report.(sortedStats) ->
     stats.(netPnl) = stats.(totalPnl)
     /\ stats.(totalPnl) = sumOf pnlOf (ofSymbol stats.(symbol) rows)
     /\ stats.(totalFees) = sumOf feeOf (ofSymbol stats.(symbol) rows))
  /\ report.(totalStats).(t_netPnl) = report.(totalStats).(t_totalPnl).
Proof.
  intro Hrun.
  assert (Hall : forall stats, In stats report.(sortedStats) ->
             stats.(netPnl) = stats.(totalPnl)
             /\ stats.(totalPnl) = sumOf pnlOf (ofSymbol stats.(symbol) rows)
             /\ stats.(totalFees) = sumOf feeOf (ofSymbol stats.(symbol) rows)).
  { intros stats Hin. apply (@sortedStats_In rows report stats Hrun) in Hin.
    destruct Hin as [k [_ ->]].
    destruct (finish_fields rows k) as [Hs _]. rewrite Hs.
    apply finish_sums. }
  split; [exact Hall |].
  pose proof (@analyzeTrades_Some rows report Hrun) as [_ Hr].
  assert (Ht : report.(totalStats).(t_netPnl)
               = (fold_left accumulate report.(sortedStats) initTotals).(t_netPnl)
               /\ report.(totalStats).(t_totalPnl)
                  = (fold_left accumulate report.(sortedStats) initTotals).(t_totalPnl))
    by (rewrite Hr; split; reflexivity).
  destruct Ht as [-> ->]. apply accumulate_net; [| reflexivity].
  apply Forall_forall. intros s Hs. now apply Hall.
Qed.

(** The sample rows: the first entry's net pnl and fees. *)
Lemma fees_never_deducted_witness :
  analyzeTrades sampleRows = Some sampleReport
  /\ (hd (initStats "") sampleReport.(sortedStats)).(netPnl)
     = (hd (initStats "") sampleReport.(sortedStats)).(totalPnl)
  /\ sampleReport.(totalStats).(t_netPnl)
     = sampleReport.(totalStats).(t_totalPnl).
Proof.
  split; [reflexivity |].
  pose proof (@fees_never_deducted sampleRows sampleReport eq_refl) as [Hs Ht].
  split; [| exact Ht].
  exact (proj1 (Hs (hd (initStats "") sampleReport.(sortedStats))
                   (or_introl eq_refl))).
Defined.

(** X2. The sorted list holds one entry per symbol: its symbols are
    pairwise distinct and are the symbols of the rows, so it has as many
    entries as the rows have distinct symbols, and never none. *)
Theorem one_entry_per_symbol (rows : list Row.t) (report : Report) :
  analyzeTrades rows = Some report ->
  NoDup (map symbol report.(sortedStats))
  /\ (forall s, In s (map symbol report.(sortedStats))
                <-> In s (map Row.symbol rows))
  /\ List.length report.(sortedStats)
     = List.length (nodup string_dec (map Row.symbol rows))
  /\ report.(sortedStats) <> [].
Proof.
  intro Hrun. pose proof (@sortedStats_symbols rows report Hrun) as Hperm.
  split; [| split; [| split]].
  - apply (Permutation_NoDup (Permutation_sym Hperm)). apply firstLoop_NoDup.
  - intro s. rewrite <- firstLoop_keys. split; apply Permutation_in; trivial.
    now apply Permutation_sym.
  - rewrite <- distinct_symbols, <- (Permutation_length Hperm). now rewrite length_map.
  - now apply nonempty_sortedStats with rows.
Qed.

Lemma one_entry_per_symbol_witness :
  List.length sampleReport.(sortedStats) = 2
  /\ NoDup (map symbol sampleReport.(sortedStats)).
Proof.
  pose proof (@one_entry_per_symbol sampleRows sampleReport eq_refl)
    as [Hnd [_ [Hlen _]]].
  split; [exact Hlen | exact Hnd].
Defined.

(** X3. When the pnl of every row is finite, the entries are in
    non-increasing order of net pnl; the best symbol is the first entry
    and no entry has a larger net pnl, the worst symbol is the last and
    no entry has a smaller one. *)
Theorem sorted_by_net_pnl (rows : list Row.t) (report : Report) :
  analyzeTrades rows = Some report ->
  (forall trade, In trade rows -> isFinite (pnlOf trade) = true) ->
  StronglySorted netGe report.(sortedStats)
  /\ exists best worst,
       (advise report).(bestSymbol) = Some best
       /\ (advise report).(worstSymbol) = Some worst
       /\ In best report.(sortedStats) /\ In worst report.(sortedStats)
       /\ forall stats, In stats report.(sortedStats) ->
                        netGe best stats /\ netGe stats worst.
Proof.
  intros Hrun Hfin.
  assert (Hall : Forall finiteNet report.(sortedStats)).
  { apply Forall_forall. intros s Hs.
    apply (@sortedStats_In rows report s Hrun) in Hs.
    destruct Hs as [k [_ ->]]. now apply finish_finiteNet. }
  assert (Hsorted : StronglySorted netGe report.(sortedStats)).
  { pose proof (@analyzeTrades_Some rows report Hrun) as [_ Hr].
    assert (Hs : report.(sortedStats)
                 = JsArray.sort byNetPnl (secondLoop rows (firstLoop rows)))
      by (rewrite Hr; reflexivity).
    rewrite Hs in *. apply sort_sorted.
    apply (Permutation_Forall (JsArrayFacts.sort_perm byNetPnl _)). exact Hall. }
  split; [exact Hsorted |].
  pose proof (@nonempty_sortedStats rows report Hrun) as Hne.
  unfold advise. cbn [bestSymbol worstSymbol].
  assert (Hrefl : forall s, finiteNet s -> netGe s s).
  { intros s Hs. apply netGe_spec; trivial. unfold finiteNet, lt in *.
    destruct (netPnl s); try discriminate. apply Qltb_ge. apply Qle_refl. }
  destruct report.(sortedStats) as [| best tail] eqn:E; [congruence |].
  destruct (exists_last Hne) as [front [worst Hlast]].
  exists best, worst. split; [reflexivity |].
  split; [rewrite Hlast; apply nth_error_last |].
  split; [now left |].
  split; [rewrite Hlast; apply in_or_app; right; now left |].
  intros stats Hin. rewrite Forall_forall in Hall. split.
  - inversion Hsorted as [| ? ? _ Hhd]; subst.
    destruct Hin as [<- | Hin]; [apply Hrefl, Hall; now left |].
    rewrite Forall_forall in Hhd. now apply Hhd.
  - rewrite Hlast in Hsorted, Hin, Hall.
    apply in_app_or in Hin. destruct Hin as [Hin | [<- | []]].
    + now apply (@StronglySorted_last _ netGe front worst Hsorted).
    + apply Hrefl, Hall. apply in_or_app. right. now left.
Qed.

Lemma sorted_by_net_pnl_witness :
  StronglySorted netGe sampleReport.(sortedStats).
Proof.
  refine (proj1 (@sorted_by_net_pnl sampleRows sampleReport eq_refl _)).
  intros trade Hin. cbn in Hin.
  destruct Hin as [<- | [<- | [<- | [<- | []]]]]; reflexivity.
Defined.

End AnalyzeTradesMoreTheorems.

Module AnalyzeTradesTotalsTheorems.
Import AnalyzeTrades AnalyzeTradesSpec AnalyzeTradesSamples.
Import AnalyzeTradesAdvice AnalyzeTradesMore AnalyzeTradesMoreSamples.
Import JsNumberSpec JsNumberFacts AnalyzeTradesFacts SinglePassFacts.
Import AnalyzeTradesMoreFacts AnalyzeTradesOrderFacts AnalyzeTradesTotalsFacts.

(** X4. The largest win of an entry is the pnl of one of its symbol's
    winning rows and no winning row of the symbol has a larger pnl; it is
    [0] when the symbol never won.  The same holds for the largest loss
    with absolute values.  No winning row at all has a pnl above the
    overall largest win, and no losing row an absolute pnl above that of
    the overall largest loss. *)
Theorem largest_win_and_loss (rows : list Row.t) (report : Report) :
  analyzeTrades rows = Some report ->
  (forall stats, In stats report.(sortedStats) ->
     let mine := ofSymbol stats.(symbol) rows in
     (forall trade, In trade (classified Win mine) ->
                    gt (pnlOf trade) stats.(largestWin) = false)
     /\ match classified Win mine with
        | [] => stats.(largestWin) = zero
        | _ => exists trade, In trade (classified Win mine)
                             /\ pnlOf trade = stats.(largestWin)
        end
     /\ (forall trade, In trade (classified Loss mine) ->
                       gt (abs (pnlOf trade)) (abs stats.(largestLoss)) = false)
     /\ match classified Loss mine with
        | [] => stats.(largestLoss) = zero
        | _ => exists trade, In trade (classified Loss mine)
                             /\ pnlOf trade = stats.(largestLoss)
        end)
  /\ (forall trade, In trade (classified Win rows) ->
        gt (pnlOf trade) report.(totalStats).(t_largestWin) = false)
  /\ (forall trade, In trade (classified Loss rows) ->
        gt (abs (pnlOf trade)) (abs report.(totalStats).(t_largestLoss)) = false).
Proof.
  intro Hrun.
  assert (Hentry : forall stats, In stats report.(sortedStats) ->
             exists k, stats = finish rows (entryOf k rows)
                       /\ stats.(symbol) = k).
  { intros stats Hin. apply (@sortedStats_In rows report stats Hrun) in Hin.
    destruct Hin as [k [_ ->]]. exists k. split; trivial.
    apply finish_fields. }
  assert (Hper : forall stats, In stats report.(sortedStats) ->
     let mine := ofSymbol stats.(symbol) rows in
     (forall trade, In trade (classified Win mine) ->
                    gt (pnlOf trade) stats.(largestWin) = false)
     /\ match classified Win mine with
        | [] => stats.(largestWin) = zero
        | _ => exists trade, In trade (classified Win mine)
                             /\ pnlOf trade = stats.(largestWin)
        end
     /\ (forall trade, In trade (classified Loss mine) ->
                       gt (abs (pnlOf trade)) (abs stats.(largestLoss)) = false)
     /\ match classified Loss mine with
        | [] => stats.(largestLoss) = zero
        | _ => exists trade, In trade (classified Loss mine)
                             /\ pnlOf trade = stats.(largestLoss)
        end).
  { intros stats Hin. destruct (Hentry stats Hin) as [k [-> Hk]].
    rewrite Hk. apply finish_largest. }
  split; [exact Hper |].
  (* the overall extremes *)
  pose proof (@analyzeTrades_Some rows report Hrun) as [_ Hr].
  assert (Ht : report.(totalStats).(t_largestWin)
               = fold_left (keep (fun x => x))
                   (map largestWin report.(sortedStats)) zero
               /\ report.(totalStats).(t_largestLoss)
                  = fold_left (keep abs)
                      (map largestLoss report.(sortedStats)) zero).
  { rewrite Hr. cbn [summarize totalStats sortedStats withAverages
                       t_largestWin t_largestLoss].
    apply (accumulate_largest _ initTotals). }
  destruct Ht as [Htw Htl].
  assert (Hz : ordered zero) by discriminate.
  assert (Hwo : forall x, In x (map largestWin report.(sortedStats)) -> ordered x).
  { intros x Hx. apply in_map_iff in Hx. destruct Hx as [s [<- Hs]].
    destruct (Hper s Hs) as [_ [Hw _]]. cbv zeta in Hw.
    destruct (classified Win (ofSymbol (symbol s) rows)) eqn:E.
    - rewrite Hw. discriminate.
    - destruct Hw as [row [Ht <-]]. rewrite <- E in Ht.
      apply classified_In in Ht. now apply win_ordered. }
  assert (Hlo : forall x, In x (map largestLoss report.(sortedStats)) ->
                          ordered (abs x)).
  { intros x Hx. apply in_map_iff in Hx. destruct Hx as [s [<- Hs]].
    destruct (Hper s Hs) as [_ [_ [_ Hl]]]. cbv zeta in Hl.
    destruct (classified Loss (ofSymbol (symbol s) rows)) eqn:E.
    - rewrite Hl. discriminate.
    - destruct Hl as [row [Ht <-]]. rewrite <- E in Ht.
      apply classified_In in Ht. now apply loss_ordered. }
  destruct (@keep_fold (fun x => x) _ zero Hz Hwo) as [_ [Hwr [_ Hwmax]]].
  destruct (@keep_fold abs _ zero Hz Hlo) as [_ [Hlr [_ Hlmax]]].
  cbv zeta in *. rewrite <- Htw in *. rewrite <- Htl in *.
  assert (Hfind : forall trade, In trade rows ->
             exists stats, In stats report.(sortedStats)
                           /\ stats.(symbol) = Row.symbol trade).
  { intros trade Hin.
    exists (finish rows (entryOf (Row.symbol trade) rows)). split.
    - apply (@sortedStats_In rows report _ Hrun). exists (Row.symbol trade).
      split; trivial. apply ofSymbol_nonempty. eauto.
    - apply finish_fields. }
  split.
  - intros trade Ht. apply classified_In in Ht. destruct Ht as [Hin Hc].
    destruct (Hfind trade Hin) as [s [Hs Hsym]].
    destruct (Hper s Hs) as [Hle _]. cbv zeta in Hle.
    assert (Hmine : In trade (classified Win (ofSymbol (symbol s) rows))).
    { apply classified_In. split; trivial. apply ofSymbol_In. auto. }
    apply notgt_trans with (largestWin s).
    + now apply win_ordered.
    + apply Hwo. now apply in_map.
    + exact Hwr.
    + now apply Hle.
    + apply Hwmax. now apply in_map.
  - intros trade Ht. apply classified_In in Ht. destruct Ht as [Hin Hc].
    destruct (Hfind trade Hin) as [s [Hs Hsym]].
    destruct (Hper s Hs) as [_ [_ [Hle _]]]. cbv zeta in Hle.
    assert (Hmine : In trade (classified Loss (ofSymbol (symbol s) rows))).
    { apply classified_In. split; trivial. apply ofSymbol_In. auto. }
    apply notgt_trans with (abs (largestLoss s)).
    + now apply loss_ordered.
    + apply Hlo. now apply in_map.
    + exact Hlr.
    + now apply Hle.
    + apply (Hlmax (largestLoss s)). now apply in_map.
Qed.

Lemma largest_win_and_loss_witness :
  (hd (initStats "") sampleReport.(sortedStats)).(largestWin) = Fin 5
  /\ (hd (initStats "") sampleReport.(sortedStats)).(largestLoss) = zero.
Proof.
  pose proof (@largest_win_and_loss sampleRows sampleReport eq_refl) as [Hs _].
  destruct (Hs (hd (initStats "") sampleReport.(sortedStats))
               (or_introl eq_refl)) as [_ [Hw [_ Hl]]].
  cbv zeta in Hw, Hl. split; [reflexivity | exact Hl].
Defined.

(** X5. An entry counts as long the rows of its symbol whose side is
    "long" and as short those whose side is "short"; a row with any
    other side is in [totalTrades] only.  The directional win rate is
    the percentage of winning rows among the rows of that side, [0]
    when there are none.  The overall counts are those over all rows. *)
Theorem direction_counts (rows : list Row.t) (report : Report) :
  analyzeTrades rows = Some report ->
  (forall stats, In stats report.(sortedStats) ->
     let mine := ofSymbol stats.(symbol) rows in
     stats.(longTrades) = List.length (ofSide "long" mine)
     /\ stats.(shortTrades) = List.length (ofSide "short" mine)
     /\ stats.(longTrades) + stats.(shortTrades) <= stats.(totalTrades)
     /\ stats.(longWinRate)
        = percentOf (List.length (sideWins "long" mine)) stats.(longTrades)
     /\ stats.(shortWinRate)
        = percentOf (List.length (sideWins "short" mine)) stats.(shortTrades)
     /\ List.length (sideWins "long" mine) <= stats.(longTrades)
     /\ List.length (sideWins "short" mine) <= stats.(shortTrades))
  /\ report.(totalStats).(t_longTrades) = List.length (ofSide "long" rows)
  /\ report.(totalStats).(t_shortTrades) = List.length (ofSide "short" rows)
  /\ report.(totalStats).(t_longTrades) + report.(totalStats).(t_shortTrades)
     <= report.(totalStats).(t_totalTrades).
Proof.
  intro Hrun. split.
  - intros stats Hin. apply (@sortedStats_In rows report stats Hrun) in Hin.
    destruct Hin as [k [_ ->]].
    destruct (finish_fields rows k) as [Hs [Ht _]].
    destruct (finish_directions rows k) as [Hl [Hsh [Hlr Hsr]]].
    cbv zeta. rewrite Hs, Ht, Hl, Hsh, Hlr, Hsr.
    repeat split; auto using sides_disjoint, sideWins_le.
  - destruct (@totals_sides rows report Hrun) as [H1 [H2 _]].
    destruct (@totals_counts rows report Hrun) as [H3 _].
    rewrite H1, H2, H3. repeat split. apply sides_disjoint.
Qed.

Lemma direction_counts_witness :
  sampleReport.(totalStats).(t_longTrades) = 2
  /\ (hd (initStats "") sampleReport.(sortedStats)).(longTrades) = 1.
Proof.
  pose proof (@direction_counts sampleRows sampleReport eq_refl) as [Hs [Ht _]].
  split; [exact Ht |].
  exact (proj1 (Hs (hd (initStats "") sampleReport.(sortedStats))
                   (or_introl eq_refl))).
Defined.

(** X6. The overall long (short) win rate, which the script rebuilds
    from the per-symbol rates weighted by the per-symbol counts, is the
    percentage of winning rows among all long (short) rows. *)
Theorem overall_directional_rate_is_pooled (rows : list Row.t) (report : Report) :
  analyzeTrades rows = Some report ->
  eqv report.(overallLongWinRate)
      (percentOf (List.length (sideWins "long" rows))
                 (List.length (ofSide "long" rows)))
  /\ eqv report.(overallShortWinRate)
         (percentOf (List.length (sideWins "short" rows))
                    (List.length (ofSide "short" rows))).
Proof.
  intro Hrun.
  destruct (@totals_sides rows report Hrun) as [Hl [Hs [Hl' Hs']]].
  pose proof (@analyzeTrades_Some rows report Hrun) as [_ Hr].
  assert (Hrates :
            report.(overallLongWinRate)
            = weightedRate longWinRate longTrades report.(sortedStats)
                report.(totalStats).(t_longTrades)
            /\ report.(overallShortWinRate)
               = weightedRate shortWinRate shortTrades report.(sortedStats)
                   report.(totalStats).(t_shortTrades))
    by (rewrite Hr; split; reflexivity).
  destruct Hrates as [-> ->].
  assert (Hper : forall s, In s report.(sortedStats) ->
             (s.(longWinRate)
              = percentOf (List.length (sideWins "long" (ofSymbol s.(symbol) rows)))
                          s.(longTrades)
              /\ List.length (sideWins "long" (ofSymbol s.(symbol) rows))
                 <= s.(longTrades))
             /\ (s.(shortWinRate)
                 = percentOf (List.length (sideWins "short" (ofSymbol s.(symbol) rows)))
                             s.(shortTrades)
                 /\ List.length (sideWins "short" (ofSymbol s.(symbol) rows))
                    <= s.(shortTrades))).
  { intros s Hin. apply (@sortedStats_In rows report s Hrun) in Hin.
    destruct Hin as [k [_ ->]].
    destruct (finish_fields rows k) as [Hsym _].
    destruct (finish_directions rows k) as [H1 [H2 [H3 H4]]].
    rewrite Hsym, H1, H2, H3, H4. auto using sideWins_le. }
  split.
  - rewrite <- Hl, <- (@sideWins_by_symbol "long" rows report Hrun).
    rewrite Hl'. apply weightedRate_pooled. intros s Hs0. now apply Hper.
  - rewrite <- Hs, <- (@sideWins_by_symbol "short" rows report Hrun).
    rewrite Hs'. apply weightedRate_pooled. intros s Hs0. now apply Hper.
Qed.

Lemma overall_directional_rate_is_pooled_witness :
  eqv sampleReport.(overallLongWinRate) (percentOf 1 2).
Proof.
  exact (proj1 (@overall_directional_rate_is_pooled sampleRows sampleReport
                  eq_refl)).
Defined.

(** X7. The advice on the win rate goes by the counts of the rows: poor
    when fewer than 50 in 100 rows won, good when at least 60 in 100
    did, fair in between; and the low-win-rate symbols are the entries
    with fewer than 40 wins in 100 rows (break-even rows count as
    rows). *)
Theorem win_rate_advice_by_counts (rows : list Row.t) (report : Report) :
  analyzeTrades rows = Some report ->
  let wins := List.length (classified Win rows) in
  let total := List.length rows in
  ((advise report).(onWinRate) = Poor <-> 100 * wins < 50 * total)
  /\ ((advise report).(onWinRate) = Fair <->
      50 * total <= 100 * wins /\ 100 * wins < 60 * total)
  /\ ((advise report).(onWinRate) = Good <-> 60 * total <= 100 * wins)
  /\ forall stats,
       In stats (advise report).(lowWinRate) <->
       In stats report.(sortedStats)
       /\ 100 * stats.(winTrades) < 40 * stats.(totalTrades).
Proof.
  intro Hrun. cbv zeta.
  pose proof (@analyzeTrades_Some rows report Hrun) as [Hne Hr].
  destruct (@totals_counts rows report Hrun) as [H1 [H2 _]].
  assert (Hwr : report.(overallWinRate)
                = percentOf (List.length (classified Win rows)) (List.length rows)).
  { rewrite <- H1, <- H2, Hr. reflexivity. }
  assert (Hpos : 0 < List.length rows) by (destruct rows; [congruence | cbn; lia]).
  pose proof (percent_lt (List.length (classified Win rows)) 50 Hpos) as H50.
  pose proof (percent_lt (List.length (classified Win rows)) 60 Hpos) as H60.
  change (Fin (inject_Z (Z.of_nat 50))) with (Fin 50) in H50.
  change (Fin (inject_Z (Z.of_nat 60))) with (Fin 60) in H60.
  unfold advise. cbn [onWinRate lowWinRate]. unfold winRateGrade. rewrite Hwr.
  set (p := percentOf (List.length (classified Win rows)) (List.length rows)) in *.
  assert (A50 : lt p (Fin 50) = true ->
                100 * List.length (classified Win rows) < 50 * List.length rows)
    by apply H50.
  assert (B50 : lt p (Fin 50) = false ->
                ~ 100 * List.length (classified Win rows) < 50 * List.length rows)
    by (intros E Hc; apply H50 in Hc; congruence).
  assert (A60 : lt p (Fin 60) = true ->
                100 * List.length (classified Win rows) < 60 * List.length rows)
    by apply H60.
  assert (B60 : lt p (Fin 60) = false ->
                ~ 100 * List.length (classified Win rows) < 60 * List.length rows)
    by (intros E Hc; apply H60 in Hc; congruence).
  assert (Hgrade :
            ((if lt p (Fin 50) then Poor
              else if lt p (Fin 60) then Fair else Good) = Poor
             <-> 100 * List.length (classified Win rows) < 50 * List.length rows)
            /\ ((if lt p (Fin 50) then Poor
                 else if lt p (Fin 60) then Fair else Good) = Fair
                <-> 50 * List.length rows <= 100 * List.length (classified Win rows)
                    /\ 100 * List.length (classified Win rows)
                       < 60 * List.length rows)
            /\ ((if lt p (Fin 50) then Poor
                 else if lt p (Fin 60) then Fair else Good) = Good
                <-> 60 * List.length rows
                    <= 100 * List.length (classified Win rows))).
  { destruct (lt p (Fin 50));
      [specialize (A50 eq_refl); clear B50 | specialize (B50 eq_refl); clear A50];
      (destruct (lt p (Fin 60));
       [specialize (A60 eq_refl); clear B60
       | specialize (B60 eq_refl); clear A60]);
      (split; [| split]); split; intro H; try discriminate; try reflexivity;
        lia. }
  destruct Hgrade as [G1 [G2 G3]].
  split; [exact G1 | split; [exact G2 | split; [exact G3 |]]].
  intro stats. unfold lowWinRateSymbols. rewrite filter_In.
  assert (Hlow : In stats report.(sortedStats) ->
                 (lt stats.(winRate) (Fin 40) = true
                  <-> 100 * stats.(winTrades) < 40 * stats.(totalTrades))).
  { intro Hin. apply (@sortedStats_In rows report stats Hrun) in Hin.
    destruct Hin as [k [Hk ->]].
    destruct (finish_fields rows k) as [_ [Ht [Hw [_ [_ [_ [_ [Hrate _]]]]]]]].
    assert (Hp : 0 < List.length (ofSymbol k rows))
      by (destruct (ofSymbol k rows); [congruence | cbn; lia]).
    pose proof (percent_lt (List.length (classified Win (ofSymbol k rows)))
                  40 Hp) as H40.
    change (Fin (inject_Z (Z.of_nat 40))) with (Fin 40) in H40.
    rewrite Hrate, Ht, Hw. exact H40. }
  split; intros [Hin H]; (split; [exact Hin |]); now apply (Hlow Hin).
Qed.

Lemma win_rate_advice_by_counts_witness :
  (advise sampleReport).(onWinRate) = Poor.
Proof.
  apply (proj1 (@win_rate_advice_by_counts sampleRows sampleReport eq_refl)).
  change (100 * 1 < 50 * 4). lia.
Defined.

(** X8. A history in which no row lost has the overall profit factor
    [0], whatever it won, and is told that its profit factor is poor. *)
Theorem loss_free_history_is_graded_poor (rows : list Row.t) (report : Report) :
  analyzeTrades rows = Some report ->
  classified Loss rows = [] ->
  report.(overallProfitFactor) = zero
  /\ (advise report).(onProfitFactor) = Poor
  /\ forall stats, In stats report.(sortedStats) -> stats.(profitFactor) = zero.
Proof.
  intros Hrun Hnone.
  destruct (@totals_counts rows report Hrun) as [_ [Hw Hl]].
  pose proof (@analyzeTrades_Some rows report Hrun) as [_ Hr].
  assert (Hpf : report.(overallProfitFactor)
                = ratioOf
                    (averageOf (fst (winLossSums rows))
                               report.(totalStats).(t_winTrades))
                    (averageOf (snd (winLossSums rows))
                               report.(totalStats).(t_lossTrades)))
    by (rewrite Hr; reflexivity).
  assert (Hzero : report.(overallProfitFactor) = zero).
  { rewrite Hpf, Hw, Hl, winLossSums_spec. cbn [fst snd]. unfold sumOf.
    rewrite !averageOf_average, ratioOf_profitFactorOf.
    unfold profitFactorOf. now rewrite Hnone. }
  split; [exact Hzero | split].
  - unfold advise. cbn [onProfitFactor]. rewrite Hzero. reflexivity.
  - intros stats Hin. apply (@sortedStats_In rows report stats Hrun) in Hin.
    destruct Hin as [k [_ ->]].
    destruct (finish_fields rows k) as [_ [_ [_ [_ [_ [_ [_ [_ Hp]]]]]]]].
    rewrite Hp. unfold profitFactorOf.
    assert (Hk : classified Loss (ofSymbol k rows) = []).
    { destruct (classified Loss (ofSymbol k rows)) as [| t l] eqn:E; trivial.
      assert (Ht : In t (classified Loss (ofSymbol k rows)))
        by (rewrite E; now left).
      apply classified_In in Ht. destruct Ht as [Ht Hc].
      apply ofSymbol_In in Ht.
      assert (Hin : In t (classified Loss rows))
        by (apply classified_In; tauto).
      rewrite Hnone in Hin. contradiction. }
    now rewrite Hk.
Qed.

Lemma loss_free_history_is_graded_poor_witness :
  analyzeTrades winningRows = Some winningReport
  /\ winningReport.(overallProfitFactor) = zero
  /\ (advise winningReport).(onProfitFactor) = Poor.
Proof.
  split; [reflexivity |].
  pose proof (@loss_free_history_is_graded_poor winningRows winningReport
                eq_refl eq_refl) as [H1 [H2 _]].
  split; [exact H1 | exact H2].
Defined.

End AnalyzeTradesTotalsTheorems.

(* ================================================================== *)
(** * More on the consistency check *)
(* ================================================================== *)

Module CheckConsistencyMoreFacts.
Import CheckConsistency CheckConsistencySpec CheckConsistencyMore.
Import JsNumberSpec JsNumberFacts CheckConsistencyFacts.

(** ** Reading numbers *)




(** ** The symbol of a contract *)

Lemma prefix_head (c : ascii) (p s : string) (c' : ascii) :
  c' <> c -> String.prefix (String c p) (String c' s) = false.
Proof.
  intro H. cbn. destruct (Ascii.ascii_dec c c') as [E | E]; [congruence | reflexivity].
Qed.

Lemma removeFirst_without (c : ascii) (p s : string) :
  without c s -> removeFirst (String c p) s = s.
Proof.
  induction s as [| c' r IH]; intro H.
  - reflexivity.
  - destruct H as [Hc Hr]. cbn [removeFirst].
    rewrite (prefix_head p r Hc). f_equal. auto.
Qed.

Lemma prefix_append (p s : string) : String.prefix p (p ++ s) = true.
Proof.
  induction p as [| c r IH]; cbn.
  - destruct s; reflexivity.
  - destruct (Ascii.ascii_dec c c); [exact IH | congruence].
Qed.

Lemma dropChars_append (p s : string) : dropChars (String.length p) (p ++ s) = s.
Proof.
  induction p as [| c r IH]; cbn; [destruct s; reflexivity | exact IH].
Qed.

Lemma removeFirst_found (c : ascii) (p base rest : string) :
  without c base ->
  removeFirst (String c p) (base ++ String c p ++ rest) = (base ++ rest)%string.
Proof.
  induction base as [| c' r IH]; intro H.
  - change (("" ++ String c p ++ rest)%string) with ((String c p ++ rest)%string).
    unfold removeFirst. 
    destruct (String c p ++ rest)%string eqn:E; [discriminate |].
    rewrite <- E. rewrite prefix_append. apply dropChars_append.
  - destruct H as [Hc Hr]. cbn [append removeFirst].
    rewrite (prefix_head p _ Hc). f_equal. auto.
Qed.

(** ** Normalising the snapshots *)




(** ** The comparison *)



Lemma filter_none (A : Type) (p : A -> bool) (l : list A) :
  filter p l = [] <-> forall x, In x l -> p x = false.
Proof.
  induction l as [| x r IH]; cbn [filter].
  - split; [intros _ ? [] | reflexivity].
  - destruct (p x) eqn:E; split.
    + discriminate.
    + intro H. rewrite (H x (or_introl eq_refl)) in E. discriminate.
    + intros H y [<- | Hy]; [exact E | now apply IH].
    + intro H. apply IH. intros y Hy. apply H. now right.
Qed.


End CheckConsistencyMoreFacts.

Module CheckConsistencyMoreTheorems.
Import CheckConsistency CheckConsistencySpec CheckConsistencyMore.
Import JsNumberSpec JsNumberFacts CheckConsistencyFacts ReadOnlyFacts.
Import CheckConsistencyMoreFacts.


(** X10. A contract name made of a base without underscore, "_USDT" and
    anything after it gives the base followed by what comes after; a
    contract without underscore is its own symbol.  So a raw position
    on such a contract, with a size that reads as a non-zero number, is
    kept under the base as its symbol. *)
Theorem symbol_of_contract (base rest : string) (pos : RawPosition.t) :
  without "_" base ->
  removeFirst "_USDT" (base ++ "_USDT" ++ rest) = (base ++ rest)%string
  /\ removeFirst "_USDT" base = base
  /\ (RawPosition.contract pos = (base ++ "_USDT")%string ->
      base <> ""%string ->
      truthy (parseNumber (RawPosition.size pos)) = true ->
      exists p, toExchangePosition pos = Some p
                /\ ExchangePosition.symbol p = base
                /\ ExchangePosition.size p = parseNumber (RawPosition.size pos)).
Proof.
  intro H.
  assert (H1 : removeFirst "_USDT" (base ++ "_USDT" ++ rest)
               = (base ++ rest)%string) by now apply removeFirst_found.
  assert (H2 : removeFirst "_USDT" base = base) by now apply removeFirst_without.
  split; [exact H1 | split; [exact H2 |]].
  intros Hc Hne Hsize. unfold toExchangePosition. rewrite Hsize, Hc. cbn [negb].
  assert (H3 : removeFirst "_USDT" (base ++ "_USDT") = base).
  { pose proof (@removeFirst_found "_" "USDT" base "" H) as H3.
    assert (Ha : forall s : string, (s ++ "")%string = s)
      by (induction s; cbn; congruence).
    rewrite !Ha in H3. exact H3. }
  rewrite H3.
  destruct (String.eqb base "") eqn:E; [apply String.eqb_eq in E; contradiction |].
  eexists. split; [reflexivity |]. split; reflexivity.
Qed.

Lemma symbol_of_contract_witness :
  exists p, toExchangePosition rawShort = Some p
            /\ ExchangePosition.symbol p = "BTC"%string
            /\ ExchangePosition.side p = short.
Proof.
  assert (Hb : without "_" "BTC").
  { cbn. repeat split; discriminate. }
  destruct (@symbol_of_contract "BTC" "" rawShort Hb) as [_ [_ H]].
  destruct (H eq_refl ltac:(discriminate) eq_refl) as [p [Hp [Hs Hz]]].
  exists p. split; [exact Hp | split; [exact Hs |]].
  cbv in Hp. injection Hp as <-. reflexivity.
Defined.





End CheckConsistencyMoreTheorems.

(* ================================================================== *)
(** * The terminal encoding helpers and the monitor page *)
(* ================================================================== *)

Module EncodingFacts.
Import Encoding EncodingSpec.

Lemma sameUnits_eq (a b : jsString) : sameUnits a b = true <-> a = b.
Proof.
  revert b. induction a as [| x a IH]; intros [| y b]; cbn;
    try (split; [discriminate | discriminate]); try tauto.
  rewrite andb_true_iff, N.eqb_eq, IH. split.
  - intros [-> ->]. reflexivity.
  - intros [= -> ->]. auto.
Qed.

Lemma startsWith_spec (p s : jsString) :
  startsWith p s = true <-> exists r, s = p ++ r.
Proof.
  revert s. induction p as [| x p IH]; intro s.
  - destruct s; cbn; split; eauto.
  - destruct s as [| y s]; cbn.
    + split; [discriminate | intros [r H]; discriminate].
    + rewrite andb_true_iff, N.eqb_eq, IH. split.
      * intros [-> [r ->]]. eauto.
      * intros [r [= -> ->]]. eauto.
Qed.

Lemma includes_spec (p s : jsString) :
  includes p s = true <-> exists a b, s = a ++ p ++ b.
Proof.
  induction s as [| y s IH].
  - cbn [includes]. rewrite startsWith_spec. split.
    + intros [r H]. exists [], r. exact H.
    + intros [a [b H]]. destruct a; [| discriminate]. eauto.
  - cbn [includes]. rewrite orb_true_iff, startsWith_spec, IH. split.
    + intros [[r H] | [a [b H]]].
      * exists [], r. exact H.
      * exists (y :: a), b. cbn. now rewrite H.
    + intros [[| x a] [b H]].
      * left. eauto.
      * right. injection H as _ H. eauto.
Qed.

(** A search in the lower-cased text finds the word in any mix of
    cases. *)
Lemma includes_lower (p s : jsString) :
  includes p (toLowerCase s) = true
  <-> exists a m b, s = a ++ m ++ b /\ toLowerCase m = p.
Proof.
  rewrite includes_spec. unfold toLowerCase. split.
  - intros [a [b H]]. apply map_eq_app in H.
    destruct H as [a0 [r [-> [_ H]]]]. apply map_eq_app in H.
    destruct H as [m [b0 [-> [Hm _]]]]. exists a0, m, b0. auto.
  - intros [a [m [b [-> <-]]]]. rewrite !map_app. eauto.
Qed.

Lemma encodePoint_ascii (c : N) : (c < 128)%N -> encodePoint c = [c].
Proof.
  intro H. unfold encodePoint. apply N.ltb_lt in H. now rewrite H.
Qed.




Lemma bufferFromUtf8_ascii (s : jsString) :
  Forall asciiUnit s -> bufferFromUtf8 s = s.
Proof.
  induction 1 as [| u r Hu _ IH]; [reflexivity |].
  unfold asciiUnit in Hu. cbn [bufferFromUtf8].
  assert (Eh : isHighSurrogate u = false).
  { unfold isHighSurrogate. apply andb_false_iff. left. apply N.leb_gt. lia. }
  assert (El : isLowSurrogate u = false).
  { unfold isLowSurrogate. apply andb_false_iff. left. apply N.leb_gt. lia. }
  rewrite Eh, El, encodePoint_ascii, IH by trivial. reflexivity.
Qed.

Lemma surrogate_not_ascii (u : N) :
  isHighSurrogate u = true \/ isLowSurrogate u = true -> (128 <= u)%N.
Proof.
  unfold isHighSurrogate, isLowSurrogate.
  intros [H | H]; apply andb_true_iff in H; destruct H as [H _];
    apply N.leb_le in H; lia.
Qed.



Lemma ascii_dec (s : jsString) :
  Forall asciiUnit s \/ Exists (fun u => ~ asciiUnit u) s.
Proof.
  induction s as [| u r [IH | IH]].
  - left. constructor.
  - destruct (N.lt_ge_cases u 128).
    + left. constructor; trivial.
    + right. constructor. unfold asciiUnit. lia.
  - right. now constructor 2.
Qed.

Lemma toBinaryString_id (bytes : list N) : toBinaryString bytes = bytes.
Proof. unfold toBinaryString. apply map_id. Qed.

Lemma processArg_id (V : Type) (p : Process) (args : list (Arg V)) :
  legacy p = false \/ Forall (@asciiArg V) args ->
  map (processArg p) args = args.
Proof.
  intro H. rewrite <- (map_id args) at 2. apply map_ext_in.
  intros [s | v] Hin; [| reflexivity]. cbn. f_equal.
  unfold ensureTerminalDisplay. fold (legacy p).
  destruct (legacy p) eqn:E; [| reflexivity].
  destruct H as [H | H]; [discriminate |].
  rewrite Forall_forall in H. specialize (H _ Hin). cbn in H.
  rewrite toBinaryString_id. now apply bufferFromUtf8_ascii.
Qed.

End EncodingFacts.

Module TradingMonitorFacts.
Import TradingMonitor TradingMonitorSpec.

Lemma typedTexts_app (l1 l2 : list Event) :
  typedTexts (l1 ++ l2) = typedTexts l1 ++ typedTexts l2.
Proof.
  induction l1 as [| e l1 IH]; [reflexivity |].
  destruct e; cbn; now rewrite IH.
Qed.

Lemma truthyText_Some (s : option string) :
  truthyText s = true <-> exists pw, s = Some pw /\ pw <> ""%string.
Proof.
  destruct s as [pw |]; cbn.
  - rewrite negb_true_iff, String.eqb_neq. split.
    + eauto.
    + intros [pw' [[= <-] H]]. exact H.
  - split; [discriminate | intros [pw [H _]]; discriminate].
Qed.

Lemma load_toggle (t : Theme) :
  loadColorScheme (toggleColorScheme t) = toggleColorScheme t.
Proof.
  destruct t as [r c [b |]]; destruct r; reflexivity.
Qed.

Lemma load_load (t : Theme) :
  loadColorScheme (loadColorScheme t) = loadColorScheme t.
Proof.
  destruct t as [r c [b |]]; unfold loadColorScheme; cbn;
    destruct (isReversedScheme c) eqn:E; cbn; rewrite E; reflexivity.
Qed.

Lemma toggle_fields (t : Theme) :
  reversed (toggleColorScheme t) = negb (reversed t)
  /\ button (toggleColorScheme t)
     = match button t with
       | Some _ => Some (labelFor (negb (reversed t)))
       | None => None
       end.
Proof.
  destruct t as [r c [b |]]; destruct r; split; reflexivity.
Qed.

Lemma load_fields (t : Theme) :
  reversed (loadColorScheme t) = isReversedScheme (colorScheme t)
  /\ button (loadColorScheme t)
     = match button t with
       | Some _ => Some (labelFor (isReversedScheme (colorScheme t)))
       | None => None
       end.
Proof.
  destruct t as [r c [b |]]; unfold loadColorScheme; cbn;
    destruct (isReversedScheme c); split; reflexivity.
Qed.

Section Login.

Variable trim : string -> string.
Hypothesis trim_empty : trim "" = ""%string.

Lemma invariant_opened (stored : option string) : invariant trim stored [] (opened stored).
Proof.
  unfold invariant, opened, checkLoginStatus, mirrors. cbn.
  destruct (truthyText stored) eqn:E; cbn; rewrite ?E.
  - split; [auto |]. split; [reflexivity |]. split; [| split; [| auto]].
    + intros pw ->. apply truthyText_Some in E.
      destruct E as [pw' [[= <-] Hne]]. split; auto.
    + intros r [].
  - split; [auto |]. split; [reflexivity |]. split; [| split; [| auto]].
    + discriminate.
    + intros r [].
Qed.

Lemma sourced_more (stored : option string) (texts more : list string) (pw : string) :
  sourced trim stored texts pw -> sourced trim stored (texts ++ more) pw.
Proof.
  intros [H1 [H2 | H2]]; split; auto. right. rewrite map_app.
  apply in_or_app. auto.
Qed.

Lemma invariant_logout (stored : option string) (texts : list string) (pg : Page) :
  invariant trim stored texts pg -> invariant trim stored texts (logout pg).
Proof.
  intros [_ [_ [_ [Hs Hi]]]]. unfold invariant, mirrors. cbn.
  split; [auto |]. split; [reflexivity |]. split; [discriminate | auto].
Qed.

Lemma invariant_toast (stored : option string) (texts : list string) (pg : Page)
    (t : string) (k : ToastType) :
  invariant trim stored texts pg -> invariant trim stored texts (showToast t k pg).
Proof. intro H. exact H. Qed.

Lemma invariant_handle (stored : option string) (texts : list string) (pg : Page)
    (e : Event) :
  invariant trim stored texts pg ->
  invariant trim stored (texts ++ typedTexts [e]) (handle trim pg e).
Proof.
  intro Hinv.
  assert (Hmore : forall pg', invariant trim stored texts pg' ->
                              invariant trim stored (texts ++ typedTexts [e]) pg').
  { intros pg' [H1 [H2 [H3 [H4 H5]]]]. split; [exact H1 |].
    split; [exact H2 |]. split; [| split].
    - intros pw Hp. apply sourced_more; auto.
    - intros r Hr. apply sourced_more; auto.
    - destruct H5 as [H5 | H5]; [now left | right; apply in_or_app; auto]. }
  destruct e as [| text | | | sym | resp]; cbn [handle].
  - (* login button *)
    apply Hmore. unfold clickLogin. destruct (isLoggedIn pg) eqn:E.
    + now apply invariant_logout.
    + destruct Hinv as [H1 [H2 [H3 [H4 H5]]]].
      unfold invariant, mirrors in *. cbn. rewrite E in *.
      split; [exact H1 |]. split; [exact H2 |]. split; [exact H3 |].
      split; [exact H4 | now left].
  - (* typing *)
    destruct Hinv as [H1 [H2 [H3 [H4 H5]]]]. cbn [typedTexts].
    split; [exact H1 |]. split; [exact H2 |]. split; [| split].
    + intros pw Hp. apply sourced_more; auto.
    + intros r Hr. apply sourced_more; auto.
    + right. cbn. apply in_or_app. right. now left.
  - (* confirm *)
    apply Hmore. unfold clickConfirm.
    destruct (String.eqb (trim (passwordInput pg)) "") eqn:E; cbn [negb].
    + now apply invariant_toast.
    + apply String.eqb_neq in E.
      destruct Hinv as [H1 [H2 [H3 [H4 H5]]]].
      assert (Hsrc : sourced trim stored texts (trim (passwordInput pg))).
      { split; [exact E |]. right. destruct H5 as [H5 | H5].
        - rewrite H5, trim_empty in E. contradiction.
        - now apply in_map. }
      unfold invariant, mirrors. cbn.
      destruct (String.eqb (trim (passwordInput pg)) "") eqn:E2;
        [apply String.eqb_eq in E2; contradiction |].
      cbn. split; [auto |]. split; [reflexivity |]. split; [| auto].
      intros pw [= <-]. exact Hsrc.
  - (* cancel *)
    apply Hmore. destruct Hinv as [H1 [H2 [H3 [H4 H5]]]].
    unfold invariant, mirrors in *. cbn.
    split; [exact H1 |]. split; [exact H2 |]. split; [exact H3 |].
    split; [exact H4 | now left].
  - (* close pressed *)
    apply Hmore. unfold closePositionSend.
    destruct (isLoggedIn pg) eqn:El; [| now apply invariant_toast].
    destruct (password pg) as [pw |] eqn:Ep; [| now apply invariant_toast].
    destruct (String.eqb pw "") eqn:E; [now apply invariant_toast |].
    destruct Hinv as [H1 [H2 [H3 [H4 H5]]]].
    unfold invariant, mirrors in *. cbn. rewrite El, Ep in *.
    split; [exact H1 |]. split; [exact H2 |]. split; [exact H3 |].
    split; [| exact H5].
    intros r Hr. apply in_app_or in Hr. destruct Hr as [Hr | [<- | []]]; auto.
  - (* answer *)
    apply Hmore. unfold closePositionSettle.
    assert (Hb : forall pg', invariant trim stored texts pg' ->
                             invariant trim stored texts (setButtons false pg')).
    { intros pg' H. exact H. }
    apply Hb. destruct resp as [| status [|]].
    + now apply invariant_toast.
    + exact Hinv.
    + destruct (Nat.eqb status 403).
      * now apply invariant_logout.
      * now apply invariant_toast.
Qed.

Lemma invariant_run (stored : option string) (events : list Event) :
  invariant trim stored (typedTexts events) (run trim stored events).
Proof.
  unfold run. induction events as [| e events IH] using rev_ind.
  - apply invariant_opened.
  - rewrite fold_left_app, typedTexts_app. cbn [fold_left].
    now apply invariant_handle.
Qed.

End Login.

End TradingMonitorFacts.

Module EncodingTheorems.
Import Encoding EncodingSpec EncodingSamples EncodingFacts.

(** X14. The terminal counts as UTF-8 capable exactly when the first
    non-empty of LANG, LC_ALL and LC_CTYPE contains "utf-8" in some mix
    of cases, or, on Windows, when TERM_PROGRAM contains "Git" or TERM
    contains "xterm" or "msys".  A non-empty LANG hides the other two
    variables, whatever they hold. *)
Theorem utf8_detection (p : Process) :
  (isUtf8Supported p = true
   <-> (exists lang a m b,
          orElse (orElse p.(LANG) p.(LC_ALL)) p.(LC_CTYPE) = Some lang
          /\ lang = a ++ m ++ b /\ toLowerCase m = units "utf-8")
       \/ (isWindows p = true
           /\ (includes (units "Git") (orEmpty p.(TERM_PROGRAM)) = true
               \/ includes (units "xterm") (orEmpty p.(TERM)) = true
               \/ includes (units "msys") (orEmpty p.(TERM)) = true)))
  /\ (forall u r lcAll lcCtype,
        p.(LANG) = Some (u :: r) ->
        isUtf8Supported
          {| platform := p.(platform); LANG := p.(LANG); LC_ALL := lcAll;
             LC_CTYPE := lcCtype; TERM_PROGRAM := p.(TERM_PROGRAM);
             TERM := p.(TERM) |}
        = isUtf8Supported p).
Proof.
  split.
  - unfold isUtf8Supported.
    set (lang := orElse (orElse (LANG p) (LC_ALL p)) (LC_CTYPE p)).
    assert (Hl : match lang with
                 | Some (u :: r) => includes (units "utf-8") (toLowerCase (u :: r))
                 | _ => false
                 end = true
                 <-> exists l a m b, lang = Some l /\ l = a ++ m ++ b
                                     /\ toLowerCase m = units "utf-8").
    { destruct lang as [[| u r] |].
      - split; [discriminate |]. intros [l [a [m [b [[= <-] [H1 H2]]]]]].
        destruct a; [| discriminate]. destruct m; discriminate.
      - rewrite includes_lower. split.
        + intros [a [m [b [H1 H2]]]]. exists (u :: r), a, m, b. auto.
        + intros [l [a [m [b [[= <-] [H1 H2]]]]]]. eauto.
      - split; [discriminate |]. intros [l [a [m [b [H _]]]]]. discriminate. }
    destruct (match lang with
              | Some (u :: r) => includes (units "utf-8") (toLowerCase (u :: r))
              | _ => false
              end) eqn:E.
    + split; [intros _; left; now apply Hl | reflexivity].
    + assert (Hn : ~ exists l a m b, lang = Some l /\ l = a ++ m ++ b
                                     /\ toLowerCase m = units "utf-8").
      { intro H. apply Hl in H. discriminate. }
      destruct (isWindows p).
      * destruct (includes (units "Git") (orEmpty (TERM_PROGRAM p))
                  || includes (units "xterm") (orEmpty (TERM p))
                  || includes (units "msys") (orEmpty (TERM p))) eqn:Et.
        -- split; [| reflexivity]. intros _. right. split; trivial.
           apply orb_true_iff in Et. destruct Et as [Et | Et]; [| tauto].
           apply orb_true_iff in Et. tauto.
        -- split; [discriminate |]. intros [H | [_ H]]; [contradiction |].
           apply orb_false_iff in Et. destruct Et as [Et E3].
           apply orb_false_iff in Et. destruct Et as [E1 E2].
           rewrite E1, E2, E3 in H. destruct H as [H | [H | H]]; discriminate.
      * split; [discriminate |]. intros [H | [H _]]; [contradiction | discriminate].
  - intros u r lcAll lcCtype HL. unfold isUtf8Supported, isWindows. cbn.
    rewrite HL. reflexivity.
Qed.

Lemma utf8_detection_witness :
  isUtf8Supported posixC = false
  /\ isUtf8Supported
       {| platform := posixC.(platform); LANG := posixC.(LANG);
          LC_ALL := None; LC_CTYPE := None;
          TERM_PROGRAM := posixC.(TERM_PROGRAM); TERM := posixC.(TERM) |}
     = isUtf8Supported posixC.
Proof.
  split; [reflexivity |].
  exact (proj2 (utf8_detection posixC) 67%N [] None None eq_refl).
Defined.



(** X16. The safe logger hands the logger the arguments with every
    string passed through the display conversion.  When that call
    throws, the logger is called a second time, with the original
    arguments, in the state the failed call left.  When the terminal is
    not a Windows one without UTF-8, or all string arguments are
    ASCII, the converted arguments are the original ones. *)
Theorem safe_logger_calls (V S R : Type) (p : Process) (logger : Logger V S R)
    (args : list (Arg V)) (s : S) :
  let first := logger (map (processArg p) args) s in
  (snd first <> None -> createSafeLogger p logger args s = first)
  /\ (snd first = None ->
      createSafeLogger p logger args s = logger args (fst first))
  /\ (legacy p = false \/ Forall (@asciiArg V) args ->
      map (processArg p) args = args).
Proof.
  cbv zeta. unfold createSafeLogger.
  destruct (logger (map (processArg p) args) s) as [s1 [r |]]; cbn.
  - split; [reflexivity |]. split; [discriminate | apply processArg_id].
  - split; [congruence |]. split; [reflexivity | apply processArg_id].
Qed.

Lemma safe_logger_calls_witness :
  createSafeLogger legacyWindows
    (fun (args : list (Arg unit)) (s : nat) => (S s, @None unit))
    [Str chinese] 0
  = (2, None).
Proof.
  exact (proj1 (proj2 (safe_logger_calls legacyWindows
                         (fun (args : list (Arg unit)) (s : nat) =>
                            (S s, @None unit))
                         [Str chinese] 0)) eq_refl).
Defined.

End EncodingTheorems.

Module TradingMonitorTheorems.
Import TradingMonitor TradingMonitorSpec TradingMonitorFacts.

(** X17. After any number of clicks on the toggle, loading the saved
    scheme again changes nothing: the saved scheme, the body class and
    the button text agree.  The class is the saved one flipped once per
    click. *)
Theorem reload_keeps_colour_scheme (t : Theme) (n : nat) :
  let shown := clicks n (loadColorScheme t) in
  loadColorScheme shown = shown
  /\ shown.(reversed) = xorb (isReversedScheme t.(colorScheme)) (Nat.odd n)
  /\ shown.(button)
     = match t.(button) with
       | Some _ => Some (labelFor shown.(reversed))
       | None => None
       end.
Proof.
  cbv zeta. induction n as [| n [IH1 [IH2 IH3]]].
  - cbn [clicks]. destruct (load_fields t) as [H1 H2].
    split; [apply load_load |]. split.
    + rewrite H1. cbn. now rewrite xorb_false_r.
    + rewrite H2, H1. reflexivity.
  - cbn [clicks]. destruct (toggle_fields (clicks n (loadColorScheme t)))
      as [H1 H2].
    split; [apply load_toggle |]. split.
    + rewrite H1, IH2, Nat.odd_succ, <- Nat.negb_odd.
      destruct (isReversedScheme (colorScheme t)), (Nat.odd n); reflexivity.
    + rewrite H2, H1, IH3. destruct (button t); reflexivity.
Qed.

(** X18. Whatever is clicked, typed and answered after the page has
    opened, the login fields mirror the session storage: the page is
    logged in exactly when a non-empty password is stored, and holds
    that password; the login button says so.  Every close request sent
    carries a non-empty password that was in the session storage when
    the page opened or was typed into the login dialog and confirmed. *)
Theorem login_mirrors_session (trim : string -> string)
    (trim_empty : trim ""%string = ""%string) (stored : option string)
    (events : list Event) :
  let pg := run trim stored events in
  mirrors pg
  /\ pg.(loginLabel) = (if pg.(isLoggedIn) then "Log Out" else "Log In")%string
  /\ (forall r, In r pg.(sent) ->
        r.(sentPassword) <> ""%string
        /\ (stored = Some r.(sentPassword)
            \/ In r.(sentPassword) (map trim (typedTexts events)))).
Proof.
  cbv zeta. destruct (@invariant_run trim trim_empty stored events) as [H1 [H2 [_ [H4 _]]]].
  split; [exact H1 |]. split; [exact H2 |]. exact H4.
Qed.


Lemma login_mirrors_session_witness :
  (run (fun s => s) None
     [LoginClicked; Typed "pw"; ConfirmClicked; CloseClicked "BTC"]).(sent)
  = [mkRequest "BTC" "pw"]
  /\ mirrors (run (fun s => s) None
                [LoginClicked; Typed "pw"; ConfirmClicked; CloseClicked "BTC"]).
Proof.
  split; [reflexivity |].
  exact (proj1 (@login_mirrors_session (fun s => s) eq_refl None
                  [LoginClicked; Typed "pw"; ConfirmClicked;
                   CloseClicked "BTC"])).
Defined.

(** X19. Closing a position sends nothing unless the page is logged in
    with a non-empty password; then it only shows the warning.  When
    logged in, exactly one request goes out, with the symbol and the
    password held, and the close buttons are enabled again whatever the
    answer.  An answer 403 without success logs the page out and clears
    the session storage, so a further attempt sends nothing; any other
    answer leaves the login as it was. *)
Theorem close_requires_login (sym : string) (resp : CloseResponse) (pg : Page) :
  let after := closePosition sym resp pg in
  (requestGoesOut pg = false ->
   after = showToast "Not logged in" warning pg)
  /\ (requestGoesOut pg = true ->
      (exists pw, pg.(password) = Some pw /\ pw <> ""%string
                  /\ after.(sent) = pg.(sent) ++ [mkRequest sym pw])
      /\ after.(buttonsDisabled) = false
      /\ (resp = Answer 403 false ->
          after.(isLoggedIn) = false /\ after.(password) = None
          /\ after.(session) = None
          /\ forall sym' resp',
               (closePosition sym' resp' after).(sent) = after.(sent))
      /\ (resp <> Answer 403 false ->
          after.(isLoggedIn) = pg.(isLoggedIn)
          /\ after.(password) = pg.(password)
          /\ after.(session) = pg.(session))).
Proof.
  cbv zeta. unfold closePosition, requestGoesOut.
  destruct (isLoggedIn pg) eqn:El; cbn [andb].
  2:{ split; [| discriminate]. intros _. unfold closePositionSend.
      rewrite El. reflexivity. }
  destruct (password pg) as [pw |] eqn:Ep; cbn [truthyText].
  2:{ split; [| discriminate]. intros _. unfold closePositionSend.
      rewrite El, Ep. reflexivity. }
  destruct (String.eqb pw "") eqn:E; cbn [negb].
  { split; [| discriminate]. intros _. unfold closePositionSend.
    rewrite El, Ep, E. reflexivity. }
  split; [discriminate |]. intros _.
  unfold closePositionSend. rewrite El, Ep, E.
  apply String.eqb_neq in E.
  assert (Hsent : forall q, sent (closePositionSettle resp q) = sent q).
  { intro q. destruct resp as [| status [|]]; [reflexivity | reflexivity |].
    cbn. destruct (Nat.eqb status 403); reflexivity. }
  split; [| split; [| split]].
  - exists pw. split; [reflexivity |]. split; [exact E |]. now rewrite Hsent.
  - reflexivity.
  - intros ->. cbn. split; [reflexivity |]. split; [reflexivity |].
    split; [reflexivity |]. intros sym' resp'. reflexivity.
  - intro Hne. destruct resp as [| status [|]]; cbn; rewrite ?El, ?Ep; auto.
    destruct (Nat.eqb status 403) eqn:Es; cbn; rewrite ?El, ?Ep; auto.
    apply Nat.eqb_eq in Es. subst status. contradiction.
Qed.

Lemma close_requires_login_witness :
  let pg := run (fun s => s) (Some "pw"%string) [] in
  (closePosition "BTC" (Answer 403 false) pg).(sent) = [mkRequest "BTC" "pw"]
  /\ (closePosition "ETH" (Answer 200 true)
        (closePosition "BTC" (Answer 403 false) pg)).(sent)
     = [mkRequest "BTC" "pw"].
Proof.
  cbv zeta.
  destruct (@close_requires_login "BTC" (Answer 403 false)
              (run (fun s => s) (Some "pw"%string) [])) as [_ H].
  destruct (H eq_refl) as [_ [_ [H403 _]]].
  destruct (H403 eq_refl) as [_ [_ [_ Hnext]]].
  split; [reflexivity |].
  rewrite (Hnext "ETH"%string (Answer 200 true)). reflexivity.
Defined.

End TradingMonitorTheorems.
